(** * Console IO: a model of [source/main.cpp]

    The program is one [main] that drives the two standard streams
    [std::cin] and [std::cout] through a fixed sequence of calls.  The
    development below embeds

    - the stream objects (their buffers, state bits and formatting state),
    - each library operation that [main] calls, following the wording of
      the C++ standard ([istream.unformatted], [istream.formatted],
      [ostream.unformatted], [ostream.formatted], [facet.num.get.virtuals],
      [facet.num.put.virtuals]) and of the C standard for [atoi] and the
      [%g] conversion,
    - [main] itself, block by block, in a small state-and-failure monad,

    and then states and proves the properties of the program. *)

From Stdlib Require Import ZArith QArith Qabs Qpower Ascii String List Lia Lqa Bool.
From Stdlib Require Import Floats.SpecFloat.
From stdpp Require Import base option list strings.

Local Open Scope Z_scope.

(* ===================================================================== *)
(** ** Characters and character arrays *)
(* ===================================================================== *)

(** The narrow character type.  A [char] object holds one byte. *)
Abbreviation char := ascii.

Definition NUL : char := "000"%char.
Definition NL : char := "010"%char.

(** A string literal's characters, without the terminating null. *)
Definition chars (s : string) : list char := list_ascii_of_string s.

(** A character array in memory.  A cell that was never written holds an
    indeterminate value ([None]); reading such a cell is undefined. *)
Abbreviation array := (list (option char)).

(** [char a[n];] : an automatic array without initialiser. *)
Definition uninitialized (n : nat) : array := replicate n None.

(** The array object of a string literal: its characters and a null. *)
Definition literal (s : string) : array := (Some <$> chars s) ++ [Some NUL].

(** [a[i] = c].  A store outside the array is undefined behaviour. *)
Definition store (a : array) (i : nat) (c : char) : option array :=
  if decide (i < length a)%nat then Some (<[i := Some c]> a) else None.

(** Reading the null-terminated string that starts at [a[0]], as [strlen]
    and the [const char*] inserter do.  Running off the array or into an
    indeterminate cell is undefined. *)
Fixpoint c_str (a : array) : option (list char) :=
  match a with
  | [] => None
  | None :: _ => None
  | Some c :: a' =>
      if Ascii.eqb c NUL then Some [] else cons c <$> c_str a'
  end.

(** The first [n] characters of an array, as [ostream::write] reads them. *)
Fixpoint read_n (a : array) (n : nat) {struct n} : option (list char) :=
  match n with
  | O => Some []
  | S n' =>
      match a with
      | Some c :: a' => cons c <$> read_n a' n'
      | _ => None
      end
  end.

(** [isspace] in the "C" locale: space, \t, \n, \v, \f, \r. *)
Definition isspace (c : char) : bool :=
  let n := nat_of_ascii c in
  (n =? 32)%nat || ((9 <=? n)%nat && (n <=? 13)%nat).

Definition isdigit (c : char) : bool :=
  let n := nat_of_ascii c in (48 <=? n)%nat && (n <=? 57)%nat.

Definition digit_val (c : char) : Z := Z.of_nat (nat_of_ascii c) - 48.

(* ===================================================================== *)
(** ** Integer types *)
(* ===================================================================== *)

Definition INT_MAX : Z := 2147483647.
Definition INT_MIN : Z := -2147483648.

Definition in_int (z : Z) : bool := (INT_MIN <=? z) && (z <=? INT_MAX).

(** Conversion of an [int] argument to [char]: the value modulo 2^8,
    taken in [-128, 127] where [char] is signed and in [0, 255] where it
    is unsigned. *)
Definition int_to_char_value (char_signed : bool) (z : Z) : Z :=
  let m := z mod 256 in
  if char_signed && (128 <=? m) then m - 256 else m.

(** The byte that represents a [char] value. *)
Definition byte_of_char_value (v : Z) : char :=
  ascii_of_nat (Z.to_nat (v mod 256)).

(* ===================================================================== *)
(** ** Stream state *)
(* ===================================================================== *)

(** [std::ios_base::iostate]. *)
Record iostate := IoState { eofbit : bool; failbit : bool; badbit : bool }.

Definition goodbit : iostate := IoState false false false.
Definition eofbit_only : iostate := IoState true false false.
Definition failbit_only : iostate := IoState false true false.

Definition ios_or (a b : iostate) : iostate :=
  IoState (eofbit a || eofbit b) (failbit a || failbit b) (badbit a || badbit b).

(** [std::cin]: the characters not yet extracted (the list ends where the
    input ends), the state bits, and the count of the last unformatted
    input.  [cin]'s own width stays 0 and [skipws] stays set throughout
    the program, so neither is a field. *)
Record istream := IStream {
  pending : list char;
  rdstate : iostate;
  gcount : Z
}.

Definition good (s : istream) : bool :=
  negb (eofbit (rdstate s) || failbit (rdstate s) || badbit (rdstate s)).

(** [setstate(f)]: no exception mask is set in this program. *)
Definition setstate (f : iostate) (s : istream) : istream :=
  IStream (pending s) (ios_or (rdstate s) f) (gcount s).

(** The [adjustfield] bits of [std::ios_base::fmtflags].  The program
    touches no other formatting flag, so [dec] and [skipws] keep their
    initial setting and [floatfield], [showpoint], [showpos], [showbase]
    and [uppercase] stay clear. *)
Record fmtflags := FmtFlags {
  ios_left : bool;
  ios_right : bool;
  ios_internal : bool
}.

Definition flags_or (a b : fmtflags) : fmtflags :=
  FmtFlags (ios_left a || ios_left b) (ios_right a || ios_right b)
           (ios_internal a || ios_internal b).

Definition no_adjust : fmtflags := FmtFlags false false false.
Definition left_flag : fmtflags := FmtFlags true false false.

(** [std::cout]: the characters written so far and the formatting state.
    Writing to the console does not fail in this model. *)
Record ostream := OStream {
  written : list char;
  os_precision : Z;
  os_width : Z;
  os_fill : char;
  os_flags : fmtflags
}.

(** State after [basic_ios::init]. *)
Definition cout_init : ostream := OStream [] 6 0 " "%char no_adjust.
Definition cin_init (input : list char) : istream := IStream input goodbit 0.

(** Both streams together. *)
Record console := Console { cin : istream; cout : ostream }.

(* ===================================================================== *)
(** ** The monad of the program: state passing over [console], with
       [None] for undefined behaviour *)
(* ===================================================================== *)

Definition prog (A : Type) : Type := console -> option (A * console).

#[export] Instance prog_ret : MRet prog := fun A x w => Some (x, w).
#[export] Instance prog_bind : MBind prog := fun A B f m w =>
  match m w with
  | Some (x, w') => f x w'
  | None => None
  end.

(** Lift an operation on one of the streams. *)
Definition on_cin {A} (f : istream -> A * istream) : prog A :=
  fun w => let '(x, i) := f (cin w) in Some (x, Console i (cout w)).
Definition on_cout (f : ostream -> ostream) : prog unit :=
  fun w => Some (tt, Console (cin w) (f (cout w))).
Definition lift_option {A} (o : option A) : prog A :=
  fun w => match o with Some x => Some (x, w) | None => None end.

(* ===================================================================== *)
(** ** Input operations on [std::cin] *)
(* ===================================================================== *)

(** Skipping leading whitespace, as the sentry of a formatted input
    function does.  Returns what is left. *)
Fixpoint skip_ws (l : list char) : list char :=
  match l with
  | c :: l' => if isspace c then skip_ws l' else l
  | [] => []
  end.

(** [istream::sentry(is, noskipws)].  If the stream is not good the
    sentry sets [failbit]; otherwise, for a formatted input function,
    whitespace is skipped and meeting the end of input sets
    [failbit | eofbit].  The result says whether input may proceed. *)
Definition sentry (noskipws : bool) (s : istream) : bool * istream :=
  if good s then
    if noskipws then (true, s)
    else
      let rest := skip_ws (pending s) in
      match rest with
      | [] => (false, IStream [] (ios_or (rdstate s) (IoState true true false))
                              (gcount s))
      | _ => (true, IStream rest (rdstate s) (gcount s))
      end
  else (false, setstate failbit_only s).

(** [traits::eof()]. *)
Definition EOF : Z := -1.

(** [int_type istream::get()]: extracts one character if one is
    available, otherwise sets [failbit] (and [eofbit]). *)
Definition istream_get (s : istream) : Z * istream :=
  let '(ok, s) := sentry true s in
  if ok then
    match pending s with
    | c :: rest => (Z.of_nat (nat_of_ascii c), IStream rest (rdstate s) 1)
    | [] => (EOF, IStream [] (ios_or (rdstate s) (IoState true true false)) 0)
    end
  else (EOF, IStream (pending s) (rdstate s) 0).

(** The extraction loop of [get(char* s, streamsize n, char delim)].
    [room] is the number of characters that may still be stored, [i] the
    number stored so far.  The tests are made in the order of the
    standard: count, end of input, delimiter (which is not extracted).
    Returns the array, the remaining input, the count and whether the
    end of input was met. *)
Fixpoint get_loop (delim : char) (room : nat) (i : nat) (a : array)
    (inp : list char) : option (array * list char * nat * bool) :=
  match room with
  | O => Some (a, inp, i, false)
  | S room' =>
      match inp with
      | [] => Some (a, [], i, true)
      | c :: inp' =>
          if Ascii.eqb c delim then Some (a, inp, i, false)
          else
            match store a i c with
            | Some a' => get_loop delim room' (S i) a' inp'
            | None => None
            end
      end
  end.

(** [istream::get(char* s, streamsize n)], with the default delimiter
    [widen('\n')].  If no character is stored [failbit] is set; if [n > 0]
    a null character is stored after the last one in every case. *)
Definition istream_get_buf (a : array) (n : Z) (s : istream)
    : option (array * istream) :=
  let '(ok, s) := sentry true s in
  let extracted : option (array * istream) :=
    if ok then
      match get_loop NL (Z.to_nat (n - 1)) 0 a (pending s) with
      | Some (a', rest, i, at_eof) =>
          let st := if at_eof then ios_or (rdstate s) eofbit_only
                    else rdstate s in
          let st := if (i =? 0)%nat then ios_or st failbit_only else st in
          Some (a', IStream rest st (Z.of_nat i))
      | None => None
      end
    else Some (a, IStream (pending s) (rdstate s) 0) in
  match extracted with
  | Some (a, s) =>
      if 0 <? n then
        match store a (Z.to_nat (gcount s)) NUL with
        | Some a' => Some (a', s)
        | None => None
        end
      else Some (a, s)
  | None => None
  end.

(** The extraction loop of [getline(char* s, streamsize n, char delim)].
    The tests are made in the order of the standard: end of input
    ([eofbit]), delimiter (extracted and counted, not stored), then
    [n - 1] characters stored ([failbit]).  Returns the array, the
    remaining input, the number of characters stored, the number
    extracted, and the state bits to set. *)
Fixpoint getline_loop (delim : char) (room : nat) (i : nat) (a : array)
    (inp : list char) {struct inp}
    : option (array * list char * nat * nat * iostate) :=
  match inp with
  | [] => Some (a, [], i, i, eofbit_only)
  | c :: inp' =>
      if Ascii.eqb c delim then Some (a, inp', i, S i, goodbit)
      else
        match room with
        | O => Some (a, inp, i, i, failbit_only)
        | S room' =>
            match store a i c with
            | Some a' => getline_loop delim room' (S i) a' inp'
            | None => None
            end
        end
  end.

(** [istream::getline(char* s, streamsize n)].  If no character is
    extracted [failbit] is set; if [n > 0] a null character is stored
    after the last stored character in every case. *)
Definition istream_getline (a : array) (n : Z) (s : istream)
    : option (array * istream) :=
  let '(ok, s) := sentry true s in
  let extracted : option (array * nat * istream) :=
    if ok then
      match getline_loop NL (Z.to_nat (n - 1)) 0 a (pending s) with
      | Some (a', rest, i, k, err) =>
          let st := ios_or (rdstate s) err in
          let st := if (k =? 0)%nat then ios_or st failbit_only else st in
          Some (a', i, IStream rest st (Z.of_nat k))
      | None => None
      end
    else Some (a, O, IStream (pending s) (rdstate s) 0) in
  match extracted with
  | Some (a, stored, s) =>
      if 0 <? n then
        match store a stored NUL with
        | Some a' => Some (a', s)
        | None => None
        end
      else Some (a, s)
  | None => None
  end.

(** Characters up to the next whitespace or the end of input. *)
Fixpoint take_token (l : list char) : list char * list char :=
  match l with
  | [] => ([], [])
  | c :: l' =>
      if isspace c then ([], l)
      else let '(t, r) := take_token l' in (c :: t, r)
  end.

(** [operator>>(istream&, std::string&)]: after the sentry the string is
    erased and characters are appended until whitespace or the end of
    input ([eofbit]); [failbit] if none was extracted.  When the sentry
    fails the string is left as it was. *)
Definition extract_string (str : list char) (s : istream)
    : list char * istream :=
  let '(ok, s) := sentry false s in
  if ok then
    let '(tok, rest) := take_token (pending s) in
    let st := match rest with
              | [] => ios_or (rdstate s) eofbit_only
              | _ => rdstate s
              end in
    let st := match tok with
              | [] => ios_or st failbit_only
              | _ => st
              end in
    (tok, IStream rest st (gcount s))
  else (str, s).

(** Stage 2 of [num_get::do_get] for the conversion [%d]: characters are
    accumulated while they can continue an integer field, that is one
    optional sign followed by digits. *)
Fixpoint take_digits (l : list char) : list char * list char :=
  match l with
  | c :: l' =>
      if isdigit c then let '(d, r) := take_digits l' in (c :: d, r)
      else ([], l)
  | [] => ([], [])
  end.

Definition is_sign (c : char) : bool :=
  Ascii.eqb c "+"%char || Ascii.eqb c "-"%char.

Definition take_int_field (l : list char)
    : option char * list char * list char :=
  match l with
  | c :: l' =>
      if is_sign c then let '(d, r) := take_digits l' in (Some c, d, r)
      else let '(d, r) := take_digits l in (None, d, r)
  | [] => (None, [], [])
  end.

(** The value of a sequence of decimal digits. *)
Definition digits_value (ds : list char) : Z :=
  fold_left (fun acc c => 10 * acc + digit_val c) ds 0.

Definition signed_value (sign : option char) (ds : list char) : Z :=
  match sign with
  | Some c => if Ascii.eqb c "-"%char then - digits_value ds
              else digits_value ds
  | None => digits_value ds
  end.

(** [operator>>(istream&, int&)].  Stage 3: a field without digits
    stores 0 and sets [failbit]; a value outside [int] stores the nearest
    bound and sets [failbit]; reaching the end of input sets [eofbit].
    When the sentry fails nothing is stored. *)
Definition extract_int (x : option Z) (s : istream) : option Z * istream :=
  let '(ok, s) := sentry false s in
  if ok then
    let '(sign, ds, rest) := take_int_field (pending s) in
    let st := match rest with
              | [] => ios_or (rdstate s) eofbit_only
              | _ => rdstate s
              end in
    match ds with
    | [] => (Some 0, IStream rest (ios_or st failbit_only) (gcount s))
    | _ =>
        let v := signed_value sign ds in
        if v <? INT_MIN then
          (Some INT_MIN, IStream rest (ios_or st failbit_only) (gcount s))
        else if INT_MAX <? v then
          (Some INT_MAX, IStream rest (ios_or st failbit_only) (gcount s))
        else (Some v, IStream rest st (gcount s))
    end
  else (x, s).

(** [atoi], declared [int atoi(const char *s)]: leading whitespace is skipped, then an
    optional sign and the longest run of digits are converted; no digits
    give 0.  A value that [int] cannot represent is undefined. *)
Definition atoi (str : list char) : option Z :=
  let '(sign, ds, _) := take_int_field (skip_ws str) in
  let v := signed_value sign ds in
  if in_int v then Some v else None.

(* ===================================================================== *)
(** ** Rendering numbers as text *)
(* ===================================================================== *)

Definition digit_char (d : Z) : char := ascii_of_nat (Z.to_nat (48 + d)).

(** The last [k] decimal digits of [n], most significant first. *)
Fixpoint digits_fixed (k : nat) (n : Z) : list char :=
  match k with
  | O => []
  | S k' => digits_fixed k' (n / 10) ++ [digit_char (n mod 10)]
  end.

Fixpoint ndigits_aux (fuel : nat) (n : Z) : nat :=
  match fuel with
  | O => 1
  | S f => if n <? 10 then 1%nat else S (ndigits_aux f (n / 10))
  end.

(** The number of decimal digits of [n >= 0] (one digit for 0). *)
Definition ndigits (n : Z) : nat := ndigits_aux (Z.to_nat (Z.log2 n)) n.

(** A non-negative integer in decimal, without leading zeros. *)
Definition decimal (n : Z) : list char := digits_fixed (ndigits n) n.

(** The conversion [%d]. *)
Definition fmt_int (z : Z) : list char :=
  if z <? 0 then "-"%char :: decimal (- z) else decimal z.

(** *** Floating-point values

    A [float] or [double] object is an IEEE 754 binary number; the model
    is the standard library's [spec_float]: zero, infinity, NaN, or
    [(-1)^s * m * 2^e].  Passing a [float] to the inserter converts it to
    [double] without changing the value. *)

(** The literal [9.99999f]: the binary32 number nearest to 9.99999. *)
Definition lit_9_99999f : spec_float := S754_finite false 10485750 (-20).

(** A non-negative rational as numerator and positive denominator. *)
Definition fraction := (Z * Z)%type.

Definition magnitude (m : positive) (e : Z) : fraction :=
  if 0 <=? e then (Zpos m * 2 ^ e, 1) else (Zpos m, 2 ^ (- e)).

(** Multiplication by [10^k]. *)
Definition scale10 (v : fraction) (k : Z) : fraction :=
  let '(n, d) := v in
  if 0 <=? k then (n * 10 ^ k, d) else (n, d * 10 ^ (- k)).

(** Rounding to the nearest integer, ties to even (the default rounding
    direction). *)
Definition round_nearest (v : fraction) : Z :=
  let '(n, d) := v in
  let q := n / d in
  let r := n mod d in
  if 2 * r <? d then q
  else if d <? 2 * r then q + 1
  else if Z.even q then q else q + 1.

(** The decimal exponent of a positive value: the [X] with
    [10^X <= v < 10^(X+1)]. *)
Definition exponent10 (v : fraction) : Z :=
  let '(n, d) := v in
  let c := Z.of_nat (ndigits n) - Z.of_nat (ndigits d) in
  let '(n', d') := scale10 v (- c) in
  if d' <=? n' then c else c - 1.

(** A converted number before it is laid out: the digits before the
    decimal point, the digits after it, and the exponent if the style
    has one. *)
Record numeral := Numeral {
  int_part : list char;
  frac_part : list char;
  exp_part : option Z
}.

(** The digits and the exponent of style [e] with precision [q], for a
    positive value: the value is scaled so that [q + 1] digits stand
    before the point and rounded; if rounding carries into one more
    digit, the exponent goes up by one. *)
Definition e_digits (q : Z) (v : fraction) : Z * Z :=
  let x0 := exponent10 v in
  let r0 := round_nearest (scale10 v (q - x0)) in
  if r0 =? 10 ^ (q + 1) then (10 ^ q, x0 + 1) else (r0, x0).

(** Style [e] with precision [q]: one digit before the point, [q] after
    it, the value rounded to [q + 1] significant digits.  A zero value
    has exponent 0. *)
Definition style_e (q : Z) (v : fraction) : numeral :=
  let '(r, x) := if fst v =? 0 then (0, 0) else e_digits q v in
  Numeral (digits_fixed 1 (r / 10 ^ q))
          (digits_fixed (Z.to_nat q) (r mod 10 ^ q))
          (Some x).

(** Style [f] with precision [q]: the value rounded to [q] digits after
    the point, at least one digit before it. *)
Definition style_f (q : Z) (v : fraction) : numeral :=
  let r := round_nearest (scale10 v q) in
  Numeral (decimal (r / 10 ^ q))
          (digits_fixed (Z.to_nat q) (r mod 10 ^ q))
          None.

(** Removal of trailing zeros. *)
Fixpoint strip_zeros (ds : list char) : list char :=
  match ds with
  | [] => []
  | c :: ds' =>
      match strip_zeros ds' with
      | [] => if Ascii.eqb c "0"%char then [] else [c]
      | s => c :: s
      end
  end.

(** The exponent of style [e]: a sign and at least two digits. *)
Definition render_exp (x : Z) : list char :=
  "e"%char :: (if x <? 0 then "-"%char else "+"%char)
    :: (if Z.abs x <? 10 then digits_fixed 2 (Z.abs x) else decimal (Z.abs x)).

(** Layout of a numeral; the decimal point appears only when digits
    follow it (the [#] flag is never set). *)
Definition render (u : numeral) : list char :=
  int_part u
  ++ match frac_part u with
     | [] => []
     | f => "."%char :: f
     end
  ++ match exp_part u with
     | Some x => render_exp x
     | None => []
     end.

(** The precision [P] that [%.*g] uses for the stream's precision. *)
Definition g_precision (p : Z) : Z :=
  if p =? 0 then 1 else if p <? 0 then 6 else p.

(** The conversion [%g] of a magnitude: with [X] the exponent that style
    [e] would show, style [f] with precision [P - (X + 1)] is used if
    [P > X >= -4], style [e] with precision [P - 1] otherwise; trailing
    zeros of the fractional portion are then removed. *)
Definition style_g (p : Z) (v : fraction) : numeral :=
  let P := g_precision p in
  let e := style_e (P - 1) v in
  let X := default 0 (exp_part e) in
  let u := if (X <? P) && (-4 <=? X) then style_f (P - (X + 1)) v else e in
  Numeral (int_part u) (strip_zeros (frac_part u)) (exp_part u).

(** The text of a floating-point value under [%g] with precision [p]. *)
Definition fmt_g (p : Z) (x : spec_float) : list char :=
  match x with
  | S754_zero s =>
      (if s then chars "-" else []) ++ render (style_g p (0, 1))
  | S754_infinity s => (if s then chars "-" else []) ++ chars "inf"
  | S754_nan => chars "nan"
  | S754_finite s m e =>
      (if s then chars "-" else []) ++ render (style_g p (magnitude m e))
  end.

Definition has_sign (text : list char) : bool :=
  match text with
  | c :: _ => is_sign c
  | [] => false
  end.

(* ===================================================================== *)
(** ** Output operations on [std::cout] *)
(* ===================================================================== *)

(** Padding of a formatted field to the stream's width.  The fill
    characters go after the text if [adjustfield == left], between a
    sign and the rest if [adjustfield == internal] and the text is a
    number with a sign, and before the text otherwise. *)
Definition pad (os : ostream) (numeric : bool) (text : list char)
    : list char :=
  let fillers :=
    replicate (Z.to_nat (os_width os) - length text) (os_fill os) in
  match os_flags os with
  | FmtFlags true false false => text ++ fillers
  | FmtFlags false false true =>
      if numeric && has_sign text then take 1 text ++ fillers ++ drop 1 text
      else fillers ++ text
  | _ => fillers ++ text
  end.

(** A formatted insertion: the padded text is written and [width(0)] is
    called; nothing else of the formatting state changes. *)
Definition insert_formatted (numeric : bool) (text : list char)
    (os : ostream) : ostream :=
  OStream (written os ++ pad os numeric text)
          (os_precision os) 0 (os_fill os) (os_flags os).

(** [operator<<(ostream&, float)]. *)
Definition insert_float (x : spec_float) (os : ostream) : ostream :=
  insert_formatted true (fmt_g (os_precision os) x) os.

(** [operator<<(ostream&, int)]. *)
Definition insert_int (z : Z) (os : ostream) : ostream :=
  insert_formatted true (fmt_int z) os.

(** [operator<<(ostream&, const std::string&)]. *)
Definition insert_string (s : list char) (os : ostream) : ostream :=
  insert_formatted false s os.

(** [ostream::put(char)]: unformatted, one character, the width is
    neither used nor reset. *)
Definition ostream_put (c : char) (os : ostream) : ostream :=
  OStream (written os ++ [c])
          (os_precision os) (os_width os) (os_fill os) (os_flags os).

(** [ostream::write(const char* s, streamsize n)]: unformatted, the [n]
    characters starting at [s]. *)
Definition ostream_write (text : list char) (os : ostream) : ostream :=
  OStream (written os ++ text)
          (os_precision os) (os_width os) (os_fill os) (os_flags os).

(** [precision(p)], [width(w)], [fill(c)], [setf(f)]. *)
Definition set_precision (p : Z) (os : ostream) : ostream :=
  OStream (written os) p (os_width os) (os_fill os) (os_flags os).
Definition set_width (w : Z) (os : ostream) : ostream :=
  OStream (written os) (os_precision os) w (os_fill os) (os_flags os).
Definition set_fill (c : char) (os : ostream) : ostream :=
  OStream (written os) (os_precision os) (os_width os) c (os_flags os).
Definition setf (f : fmtflags) (os : ostream) : ostream :=
  OStream (written os) (os_precision os) (os_width os) (os_fill os)
          (flags_or (os_flags os) f).

(* ===================================================================== *)
(** ** The statements of [main] *)
(* ===================================================================== *)

(** [std::cin.get()] *)
Definition cin_get : prog Z := on_cin istream_get.

(** [std::cin >> str] *)
Definition cin_string (str : list char) : prog (list char) :=
  on_cin (extract_string str).

(** [std::cin >> x] for [int x] *)
Definition cin_int (x : option Z) : prog (option Z) :=
  on_cin (extract_int x).

(** [std::cin.get(a, n)] *)
Definition cin_get_buf (a : array) (n : Z) : prog array :=
  fun w =>
    match istream_get_buf a n (cin w) with
    | Some (a', i) => Some (a', Console i (cout w))
    | None => None
    end.

(** [std::cin.getline(a, n)] *)
Definition cin_getline (a : array) (n : Z) : prog array :=
  fun w =>
    match istream_getline a n (cin w) with
    | Some (a', i) => Some (a', Console i (cout w))
    | None => None
    end.

(** [std::cout << a] for a character array or string literal [a] *)
Definition cout_cstr (a : array) : prog unit :=
  s ← lift_option (c_str a); on_cout (insert_string s).

(** [std::cout << str] for a [std::string] *)
Definition cout_string (str : list char) : prog unit :=
  on_cout (insert_string str).

(** [std::cout << z] for an [int]; an indeterminate value may not be read *)
Definition cout_int (z : option Z) : prog unit :=
  v ← lift_option z; on_cout (insert_int v).

(** [std::cout << x] for a [float] *)
Definition cout_float (x : spec_float) : prog unit :=
  on_cout (insert_float x).

(** [std::cout << std::endl]: [put('\n')] and a flush *)
Definition cout_endl : prog unit := on_cout (ostream_put NL).

(** [std::cout.put(c)], the argument given as an [int] expression *)
Definition cout_put (char_signed : bool) (z : Z) : prog unit :=
  on_cout (ostream_put
             (byte_of_char_value (int_to_char_value char_signed z))).

(** [std::cout.write(a, n)] *)
Definition cout_write (a : array) (n : Z) : prog unit :=
  text ← lift_option (read_n a (Z.to_nat n)); on_cout (ostream_write text).

(** [std::cout.precision(p)], [std::cout.width(w)] and [std::setw(w)],
    [std::cout.fill(c)] and [std::setfill(c)], [std::cout.setf(f)] and
    [std::setiosflags(f)] *)
Definition cout_precision (p : Z) : prog unit := on_cout (set_precision p).
Definition cout_width (w : Z) : prog unit := on_cout (set_width w).
Definition cout_fill (c : char) : prog unit := on_cout (set_fill c).
Definition cout_setf (f : fmtflags) : prog unit := on_cout (setf f).

(** [a * b] on [int]: overflow is undefined *)
Definition int_mul (a b : Z) : option Z :=
  if in_int (a * b) then Some (a * b) else None.

(* ===================================================================== *)
(** ** [main], block by block *)
(* ===================================================================== *)

(** Lines 32-38. *)
Definition block_pause : prog unit :=
  cout_cstr (literal "Press enter to continue.");;
  cin_get;;
  mret tt.

(** Lines 42-54. *)
Definition block_raw_output (char_signed : bool) : prog unit :=
  cout_put char_signed 157;;
  cout_put char_signed 10;;
  cout_write (literal "words cannot describe") 4;;
  cin_get;;
  mret tt.

(** Lines 58-91: six writes of [9.99999f]. *)
Definition write_1 : prog unit :=
  cout_float lit_9_99999f;; cout_endl.

Definition write_2 : prog unit :=
  cout_precision 3;;
  cout_float lit_9_99999f;; cout_endl.

Definition write_3 : prog unit :=
  cout_width 10;;
  cout_float lit_9_99999f;; cout_endl.

Definition write_4 : prog unit :=
  cout_width 10;;
  cout_fill "-"%char;;
  cout_float lit_9_99999f;; cout_endl.

Definition write_5 : prog unit :=
  cout_width 10;;
  cout_fill "-"%char;;
  cout_setf left_flag;;
  cout_float lit_9_99999f;; cout_endl.

Definition write_6 : prog unit :=
  cout_width 10;; cout_fill "-"%char;; cout_setf left_flag;;
  cout_float lit_9_99999f;; cout_endl.

Definition block_formatting : prog unit :=
  write_1;; write_2;; write_3;; write_4;; write_5;; write_6;;
  cin_get;;
  mret tt.

(** Lines 99-108: the token read. *)
Definition token_step : prog (list char) :=
  cout_cstr (literal "type something:");; cout_endl;;
  input ← cin_string [];
  cin_get;;
  cout_cstr (literal "You typed: ");; cout_string input;; cout_endl;;
  mret input.

(** Lines 116-125: [get] into [words]. *)
Definition get_step (words : array) : prog array :=
  cout_cstr (literal "type something:");; cout_endl;;
  words ← cin_get_buf words 64;
  cin_get;;
  cout_cstr (literal "You typed: ");; cout_cstr words;; cout_endl;;
  mret words.

(** Lines 128-133: [getline] into the same [words]. *)
Definition getline_step (words : array) : prog array :=
  cout_cstr (literal "type something:");; cout_endl;;
  words ← cin_getline words 64;
  cout_cstr (literal "You typed: ");; cout_cstr words;; cout_endl;;
  mret words.

(** Lines 95-136. *)
Definition block_text_input : prog unit :=
  token_step;;
  words ← get_step (uninitialized 64);
  getline_step words;;
  cin_get;;
  mret tt.

(** Lines 143-153: the typed read of an [int]. *)
Definition typed_int_step : prog (option Z) :=
  cout_cstr (literal "input a number: ");;
  x ← cin_int None;
  cin_get;;
  cout_cstr (literal "you input: ");; cout_int x;; cout_endl;;
  mret x.

(** Lines 156-165: [getline] and [atoi]. *)
Definition atoi_step : prog Z :=
  cout_cstr (literal "input a number: ");;
  input ← cin_getline (uninitialized 256) 256;
  text ← lift_option (c_str input);
  y ← lift_option (atoi text);
  doubled ← lift_option (int_mul y 2);
  cout_cstr (literal "doubled: ");; cout_int (Some doubled);; cout_endl;;
  mret y.

(** Lines 140-170. *)
Definition block_numeric_input : prog unit :=
  typed_int_step;;
  atoi_step;;
  cin_get;;
  mret tt.

(** [int main()]: falling off the end returns 0. *)
Definition main (char_signed : bool) : prog Z :=
  block_pause;;
  block_raw_output char_signed;;
  block_formatting;;
  block_text_input;;
  block_numeric_input;;
  mret 0.

(** Running a program from the initial state of both streams. *)
Definition run {A} (p : prog A) (input : list char) : option (A * console) :=
  p (Console (cin_init input) cout_init).

(* ===================================================================== *)
(** ** Vocabulary of the statements *)
(* ===================================================================== *)

(** The array [a] after [data] was stored from index [i] on. *)
Definition stored_at (a : array) (i : nat) (data : list char) : array :=
  take i a ++ (Some <$> data) ++ drop (i + length data) a.

(** The array [a] after a read stored [data] and the terminating null
    at its start. *)
Definition holds_text (a : array) (data : list char) : array :=
  (Some <$> data) ++ Some NUL :: drop (S (length data)) a.

(** The output stream after [text] was appended by formatted or
    unformatted writes that found and left the width at 0: the
    precision, the fill character and the flags are as before. *)
Definition emit (text : list char) (os : ostream) : ostream :=
  OStream (written os ++ text) (os_precision os) 0 (os_fill os) (os_flags os).

(** No whitespace in a token. *)
Definition no_space (tok : list char) : Prop :=
  Forall (fun c => isspace c = false) tok.

(** Only whitespace. *)
Definition all_space (ws : list char) : Prop :=
  Forall (fun c => isspace c = true) ws.

(** The part of a line that precedes its first null character: all that
    a null-terminated array shows of the line. *)
Fixpoint until_nul (l : list char) : list char :=
  match l with
  | [] => []
  | c :: l' => if Ascii.eqb c NUL then [] else c :: until_nul l'
  end.

Definition right_flag : fmtflags := FmtFlags false true false.

(** *** Reading decimal text back

    The rational number that a decimal text denotes: an optional [-],
    digits, optionally a point and digits, optionally [e], a sign and
    digits. *)

Definition take_minus (t : list char) : bool * list char :=
  match t with
  | c :: t' => if Ascii.eqb c "-"%char then (true, t') else (false, t)
  | [] => (false, [])
  end.

Definition take_fraction (t : list char)
    : option (list char * list char) :=
  match t with
  | c :: t' =>
      if Ascii.eqb c "."%char then
        match take_digits t' with
        | ([], _) => None
        | r => Some r
        end
      else Some ([], t)
  | [] => Some ([], [])
  end.

Definition read_exponent (t : list char) : option Z :=
  match t with
  | [] => Some 0
  | c :: s :: ds =>
      if Ascii.eqb c "e"%char && is_sign s && forallb isdigit ds
         && negb (Nat.eqb (length ds) 0)
      then Some (signed_value (Some s) ds)
      else None
  | _ => None
  end.

(** [m * 10^x], where the last [k] digits of [m] stand behind the point. *)
Definition decimal_Q (neg : bool) (m : Z) (k : nat) (x : Z) : Q :=
  ((if neg then -1 else 1) * inject_Z m * 10 ^ (x - Z.of_nat k))%Q.

Definition text_value (t : list char) : option Q :=
  let '(neg, t) := take_minus t in
  let '(ip, t) := take_digits t in
  match ip, take_fraction t with
  | _ :: _, Some (fp, t) =>
      match read_exponent t with
      | Some x =>
          Some (decimal_Q neg (digits_value (ip ++ fp)) (length fp) x)
      | None => None
      end
  | _, _ => None
  end.

(** The value of a finite floating-point number. *)
Definition float_value (x : spec_float) : Q :=
  match x with
  | S754_finite s m e =>
      ((if s then -1 else 1) * inject_Z (Zpos m) * 2 ^ e)%Q
  | _ => 0%Q
  end.

(** [q] is [v] rounded to [p] significant digits: either both are zero,
    or, with [10^t] the weight of the [p]-th significant digit of [v],
    [q] is a multiple of [10^t] at distance at most half of [10^t]
    from [v]. *)
Definition rounded_to (p : Z) (v q : Q) : Prop :=
  (v == 0 /\ q == 0)%Q
  \/ exists t k : Z,
       (q == inject_Z k * 10 ^ t
        /\ 10 ^ (t + p - 1) <= Qabs v /\ Qabs v < 10 ^ (t + p)
        /\ Qabs (v - q) <= (1 # 2) * 10 ^ t)%Q.

(** The value of a fraction. *)
Definition Qfrac (v : fraction) : Q := (inject_Z (fst v) / inject_Z (snd v))%Q.

(** The value of a numeral, with its sign. *)
Definition numeral_value (neg : bool) (u : numeral) : Q :=
  decimal_Q neg (digits_value (int_part u ++ frac_part u))
            (length (frac_part u)) (default 0 (exp_part u)).

(** A numeral has at least one digit before the point and only digits
    on both sides of it. *)
Definition well_formed (u : numeral) : Prop :=
  int_part u <> []
  /\ forallb isdigit (int_part u) = true
  /\ forallb isdigit (frac_part u) = true.

(** [std::isfinite]: neither an infinity nor a NaN. *)
Definition isfinite (x : spec_float) : bool :=
  match x with
  | S754_zero _ | S754_finite _ _ _ => true
  | S754_infinity _ | S754_nan => false
  end.

(** The text of the first three blocks of [main] (lines 32-91): the
    prompt, the byte 157, a newline, [word], and the six lines of the
    formatting block. *)
Definition opening_text : list char :=
  chars "Press enter to continue." ++ ascii_of_nat 157 :: NL
    :: chars "word"
    ++ chars "9.99999" ++ NL
    :: chars "10" ++ NL
    :: chars "        10" ++ NL
    :: chars "--------10" ++ NL
    :: chars "10--------" ++ NL
    :: chars "10--------" ++ [NL].

(** A statement that, started with the width at 0, does nothing to
    [std::cout] but append text to it, unpadded: when it ends the width
    is 0 again and the precision, the fill character and the flags are
    as they were. *)
Definition appends_only {A} (p : prog A) : Prop :=
  forall w r w',
    os_width (cout w) = 0 -> p w = Some (r, w') ->
    exists text, cout w' = emit text (cout w).

(** The decimal numeral of an integer, the text that [%d] is specified
    to write: a minus sign exactly when the value is negative, then the
    digits of its magnitude, at least one, without a leading zero
    unless the numeral is [0] itself. *)
Definition decimal_numeral (v : Z) (text : list char) : Prop :=
  exists ds,
    text = (if v <? 0 then ["-"%char] else []) ++ ds
    /\ ds <> []
    /\ forallb isdigit ds = true
    /\ digits_value ds = Z.abs v
    /\ (forall more, ds = "0"%char :: more -> more = []).

(* ===================================================================== *)
(** * Properties *)
(* ===================================================================== *)

(** ** Character arrays *)

Lemma store_in_range (a : array) (i : nat) (c : char) :
  (i < length a)%nat -> store a i c = Some (<[i := Some c]> a).
Proof.
  intros H. unfold store. destruct (decide (i < length a)%nat); [reflexivity | lia].
Qed.

Lemma stored_at_nil (a : array) (i : nat) : stored_at a i [] = a.
Proof.
  unfold stored_at. simpl. rewrite Nat.add_0_r. apply take_drop.
Qed.

Lemma stored_at_length (a : array) (i : nat) (data : list char) :
  (i + length data <= length a)%nat ->
  length (stored_at a i data) = length a.
Proof.
  intros H. unfold stored_at.
  rewrite !length_app, length_take, length_fmap, length_drop. lia.
Qed.

Lemma stored_at_cons (a : array) (i : nat) (c : char) (data : list char) :
  (i < length a)%nat ->
  stored_at (<[i := Some c]> a) (S i) data = stored_at a i (c :: data).
Proof.
  intros H. unfold stored_at.
  rewrite (take_S_r _ i (Some c)) by (apply list_lookup_insert_eq; exact H).
  rewrite take_insert_ge by lia.
  rewrite drop_insert_lt by lia.
  simpl. rewrite <- app_assoc. simpl.
  replace (i + S (length data))%nat with (S (i + length data)) by lia.
  reflexivity.
Qed.

Lemma stored_at_snoc_nul (a : array) (data : list char) :
  (length data < length a)%nat ->
  <[length data := Some NUL]> (stored_at a 0 data) = holds_text a data.
Proof.
  intros H. unfold stored_at, holds_text. simpl.
  rewrite insert_app_r_alt by (rewrite length_fmap; lia).
  rewrite length_fmap, Nat.sub_diag.
  f_equal.
  destruct (drop (length data) a) as [|x l] eqn:E.
  - apply (f_equal length) in E. rewrite length_drop in E. simpl in E. lia.
  - simpl. f_equal.
    replace (S (length data)) with (length data + 1)%nat by lia.
    rewrite <- drop_drop, E. reflexivity.
Qed.

Lemma holds_text_length (a : array) (data : list char) :
  (length data < length a)%nat -> length (holds_text a data) = length a.
Proof.
  intros H. unfold holds_text.
  rewrite length_app, length_fmap. simpl. rewrite length_drop. lia.
Qed.

Lemma holds_text_app (a tail : array) (data : list char) :
  (length data < length a)%nat ->
  holds_text (a ++ tail) data = holds_text a data ++ tail.
Proof.
  intros H. unfold holds_text.
  rewrite drop_app_le by lia.
  rewrite <- app_assoc. reflexivity.
Qed.

(** ** The extraction loops *)

(** [get_loop] on any input: it stops after a prefix [data] of the
    input no longer than [room], stored from index [i] on. *)
Lemma get_loop_total (room : nat) :
  forall (i : nat) (a : array) (inp : list char),
    (i + room <= length a)%nat ->
    exists data rest at_eof,
      get_loop NL room i a inp
        = Some (stored_at a i data, rest, (i + length data)%nat, at_eof)
      /\ inp = data ++ rest
      /\ (length data <= room)%nat.
Proof.
  induction room as [|room IH]; intros i a inp Hlen.
  - exists [], inp, false. simpl.
    rewrite stored_at_nil, Nat.add_0_r. repeat split; lia.
  - destruct inp as [|c inp'].
    + exists [], [], true. simpl.
      rewrite stored_at_nil, Nat.add_0_r. repeat split; lia.
    + simpl. destruct (Ascii.eqb c NL) eqn:Ec.
      * exists [], (c :: inp'), false.
        rewrite stored_at_nil, Nat.add_0_r. simpl. repeat split; lia.
      * rewrite store_in_range by lia.
        destruct (IH (S i) (<[i := Some c]> a) inp') as (data & rest & e & Hg & Hi & Hl).
        { rewrite length_insert. lia. }
        exists (c :: data), rest, e.
        rewrite Hg, stored_at_cons by lia. simpl.
        replace (i + S (length data))%nat with (S (i + length data)) by lia.
        subst inp'. repeat split; lia.
Qed.

(** [get_loop] on a line that fits: the whole line is stored and the
    loop goes on with what follows it. *)
Lemma get_loop_line (line : list char) :
  forall (room i : nat) (a : array) (tl : list char),
    Forall (fun c => Ascii.eqb c NL = false) line ->
    (length line <= room)%nat ->
    (i + length line <= length a)%nat ->
    get_loop NL room i a (line ++ tl)
    = get_loop NL (room - length line) (i + length line)
               (stored_at a i line) tl.
Proof.
  induction line as [|c line IH]; intros room i a tl Hnl Hroom Hlen.
  - simpl. rewrite stored_at_nil, Nat.add_0_r, Nat.sub_0_r. reflexivity.
  - inversion Hnl as [|? ? Hc Hrest]; subst.
    simpl in Hroom, Hlen.
    destruct room as [|room]; [lia|].
    simpl. rewrite Hc, store_in_range by lia.
    rewrite IH; [| assumption | lia | rewrite length_insert; lia].
    rewrite stored_at_cons by lia.
    replace (i + S (length line))%nat with (S i + length line)%nat by lia.
    reflexivity.
Qed.

Lemma getline_loop_total (inp : list char) :
  forall (room i : nat) (a : array),
    (i + room <= length a)%nat ->
    exists data rest k err,
      getline_loop NL room i a inp
        = Some (stored_at a i data, rest, (i + length data)%nat, k, err)
      /\ (inp = data ++ rest \/ inp = data ++ NL :: rest)
      /\ (length data <= room)%nat.
Proof.
  induction inp as [|c inp IH]; intros room i a Hlen.
  - exists [], [], i, eofbit_only. simpl.
    rewrite stored_at_nil, Nat.add_0_r. repeat split; [now left | lia].
  - simpl. destruct (Ascii.eqb c NL) eqn:Ec.
    + exists [], inp, (S i), goodbit.
      rewrite stored_at_nil, Nat.add_0_r.
      apply Ascii.eqb_eq in Ec. subst c.
      repeat split; [now right | simpl; lia].
    + destruct room as [|room].
      * exists [], (c :: inp), i, failbit_only.
        rewrite stored_at_nil, Nat.add_0_r.
        repeat split; [now left | simpl; lia].
      * rewrite store_in_range by lia.
        destruct (IH room (S i) (<[i := Some c]> a))
          as (data & rest & k & err & Hg & Hi & Hl).
        { rewrite length_insert. lia. }
        exists (c :: data), rest, k, err.
        rewrite Hg, stored_at_cons by lia. simpl.
        replace (i + S (length data))%nat with (S (i + length data)) by lia.
        repeat split; [| lia].
        destruct Hi as [-> | ->]; [now left | now right].
Qed.

Lemma getline_loop_line (line : list char) :
  forall (room i : nat) (a : array) (tl : list char),
    Forall (fun c => Ascii.eqb c NL = false) line ->
    (length line <= room)%nat ->
    (i + length line <= length a)%nat ->
    getline_loop NL room i a (line ++ NL :: tl)
    = Some (stored_at a i line, tl, (i + length line)%nat,
            S (i + length line), goodbit).
Proof.
  induction line as [|c line IH]; intros room i a tl Hnl Hroom Hlen.
  - simpl. rewrite stored_at_nil, Nat.add_0_r. reflexivity.
  - inversion Hnl as [|? ? Hc Hrest]; subst.
    simpl in Hroom, Hlen.
    destruct room as [|room]; [lia|].
    simpl. rewrite Hc, store_in_range by lia.
    rewrite IH; [| assumption | lia | rewrite length_insert; lia].
    rewrite stored_at_cons by lia.
    replace (i + S (length line))%nat with (S i + length line)%nat by lia.
    reflexivity.
Qed.

Lemma not_elem_NL (line : list char) :
  NL ∉ line -> Forall (fun c => Ascii.eqb c NL = false) line.
Proof.
  intros H. apply Forall_forall. intros c Hc.
  apply Ascii.eqb_neq. intros ->. exact (H Hc).
Qed.

Lemma store_nul_after (a : array) (data : list char) :
  (length data < length a)%nat ->
  store (stored_at a 0 data) (length data) NUL = Some (holds_text a data).
Proof.
  intros H. rewrite store_in_range by (rewrite stored_at_length; simpl; lia).
  rewrite stored_at_snoc_nul by exact H. reflexivity.
Qed.

(** ** Bounded reads into a character array *)

(** C6. A read into an array of [C >= 1] cells with bound [C], by
    [get] or by [getline], from any stream and any input, is defined,
    takes a prefix [data] of the pending input of at most [C - 1]
    characters, stores it from index 0 on followed by one null, and
    changes no cell at or beyond index [C]: whatever lies behind the
    array ([tail]) is as before. *)
Theorem bounded_read_stays_in_buffer
    (C : nat) (a tail : array) (s : istream) :
  (1 <= C)%nat -> length a = C ->
  (exists data s',
     istream_get_buf (a ++ tail) (Z.of_nat C) s
       = Some (holds_text a data ++ tail, s')
     /\ pending s = data ++ pending s'
     /\ (length data <= C - 1)%nat
     /\ length (holds_text a data) = C)
  /\
  (exists data s',
     istream_getline (a ++ tail) (Z.of_nat C) s
       = Some (holds_text a data ++ tail, s')
     /\ (pending s = data ++ pending s' \/ pending s = data ++ NL :: pending s')
     /\ (length data <= C - 1)%nat
     /\ length (holds_text a data) = C).
Proof.
  intros HC Ha.
  assert (Hpos : (0 <? Z.of_nat C) = true) by (apply Z.ltb_lt; lia).
  assert (Hroom : Z.to_nat (Z.of_nat C - 1) = (C - 1)%nat) by lia.
  assert (Hnil : store (a ++ tail) 0 NUL = Some (holds_text a [] ++ tail)).
  { rewrite <- holds_text_app by (simpl; lia).
    rewrite <- (stored_at_nil (a ++ tail) 0) at 1.
    apply (store_nul_after (a ++ tail) []). rewrite length_app. simpl. lia. }
  split.
  - unfold istream_get_buf, sentry. destruct (good s) eqn:Hg.
    + rewrite Hroom.
      destruct (get_loop_total (C - 1) 0 (a ++ tail) (pending s))
        as (data & rest & e & Hl & Hi & Hn).
      { rewrite length_app. lia. }
      rewrite Hl, Hpos. cbn [gcount]. simpl Nat.add.
      rewrite Nat2Z.id, store_nul_after by (rewrite length_app; lia).
      rewrite holds_text_app by lia.
      eexists data, _. split; [reflexivity|]. cbn [pending].
      repeat split; [exact Hi | exact Hn | rewrite holds_text_length; lia].
    + rewrite Hpos. cbn [gcount pending setstate].
      change (Z.to_nat 0) with 0%nat. rewrite Hnil. eexists [], _. split; [reflexivity|].
      cbn [pending]. repeat split; [simpl; lia | rewrite holds_text_length; simpl; lia].
  - unfold istream_getline, sentry. destruct (good s) eqn:Hg.
    + rewrite Hroom.
      destruct (getline_loop_total (pending s) (C - 1) 0 (a ++ tail))
        as (data & rest & k & err & Hl & Hi & Hn).
      { rewrite length_app. lia. }
      rewrite Hl, Hpos. simpl Nat.add.
      rewrite store_nul_after by (rewrite length_app; lia).
      rewrite holds_text_app by lia.
      eexists data, _. split; [reflexivity|]. cbn [pending].
      repeat split; [exact Hi | exact Hn | rewrite holds_text_length; lia].
    + rewrite Hpos. cbn [gcount pending setstate].
      rewrite Hnil. eexists [], _. split; [reflexivity|].
      cbn [pending]. repeat split; [now left | simpl; lia | rewrite holds_text_length; simpl; lia].
Qed.

(** ** Reading one line with [get] and with [getline] *)

Lemma good_goodbit (s : istream) : good s = true -> rdstate s = goodbit.
Proof.
  unfold good. destruct (rdstate s) as [[] [] []]; simpl; intros H;
    try discriminate H; reflexivity.
Qed.

Lemma get_loop_at_delim (room i : nat) (a : array) (rest : list char) :
  get_loop NL room i a (NL :: rest) = Some (a, NL :: rest, i, false).
Proof. destruct room; reflexivity. Qed.

(** [get] on a line that fits: the line is stored, the newline is left
    in the stream, and [failbit] is set exactly when the line is empty. *)
Lemma get_buf_line (n : nat) (a : array) (s : istream)
    (line rest : list char) :
  good s = true -> pending s = line ++ NL :: rest -> NL ∉ line ->
  (length line < n)%nat -> length a = n ->
  istream_get_buf a (Z.of_nat n) s
  = Some (holds_text a line,
          IStream (NL :: rest)
                  (match line with [] => failbit_only | _ => goodbit end)
                  (Z.of_nat (length line))).
Proof.
  intros Hg Hp Hnl Hlen Ha.
  unfold istream_get_buf, sentry. rewrite Hg, Hp, (good_goodbit s Hg).
  replace (Z.to_nat (Z.of_nat n - 1)) with (n - 1)%nat by lia.
  rewrite get_loop_line by (try apply not_elem_NL; simpl; auto; lia).
  rewrite get_loop_at_delim.
  replace (0 <? Z.of_nat n) with true by (symmetry; apply Z.ltb_lt; lia).
  cbn [gcount]. simpl Nat.add. rewrite Nat2Z.id.
  rewrite store_nul_after by lia.
  destruct line; reflexivity.
Qed.

(** [getline] on a line that fits: the line is stored, the newline is
    extracted, and the stream stays good. *)
Lemma getline_line (n : nat) (a : array) (s : istream)
    (line rest : list char) :
  good s = true -> pending s = line ++ NL :: rest -> NL ∉ line ->
  (length line < n)%nat -> length a = n ->
  istream_getline a (Z.of_nat n) s
  = Some (holds_text a line,
          IStream rest goodbit (Z.of_nat (S (length line)))).
Proof.
  intros Hg Hp Hnl Hlen Ha.
  unfold istream_getline, sentry. rewrite Hg, Hp, (good_goodbit s Hg).
  replace (Z.to_nat (Z.of_nat n - 1)) with (n - 1)%nat by lia.
  rewrite getline_loop_line by (try apply not_elem_NL; simpl; auto; lia).
  replace (0 <? Z.of_nat n) with true by (symmetry; apply Z.ltb_lt; lia).
  simpl Nat.add. cbn iota beta.
  rewrite store_nul_after by lia.
  reflexivity.
Qed.

(** C9. For a line shorter than the 64-byte buffer, [get(words, 64)]
    stops at the newline and leaves it in the stream, [getline(words, 64)]
    stops at the newline and extracts it, leaving a good stream at the
    start of the next line, and both leave the same array: the line
    followed by a null. *)
Theorem get_leaves_newline_getline_consumes_it
    (line rest : list char) (words : array) (s : istream) :
  good s = true ->
  pending s = line ++ NL :: rest ->
  NL ∉ line ->
  (length line < 64)%nat ->
  length words = 64%nat ->
  exists s1 s2,
    istream_get_buf words 64 s = Some (holds_text words line, s1)
    /\ pending s1 = NL :: rest
    /\ istream_getline words 64 s = Some (holds_text words line, s2)
    /\ pending s2 = rest
    /\ good s2 = true.
Proof.
  intros Hg Hp Hnl Hlen Ha.
  pose proof (get_buf_line 64 words s line rest Hg Hp Hnl Hlen Ha) as H1.
  pose proof (getline_line 64 words s line rest Hg Hp Hnl Hlen Ha) as H2.
  change (Z.of_nat 64) with 64 in H1, H2.
  eexists _, _. rewrite H1, H2. repeat split.
Qed.

Lemma get_leaves_newline_getline_consumes_it_witness :
  exists s1 s2,
    istream_get_buf (uninitialized 64) 64 (cin_init (chars "two words" ++ NL :: chars "next"))
      = Some (holds_text (uninitialized 64) (chars "two words"), s1)
    /\ pending s1 = NL :: chars "next"
    /\ istream_getline (uninitialized 64) 64 (cin_init (chars "two words" ++ NL :: chars "next"))
      = Some (holds_text (uninitialized 64) (chars "two words"), s2)
    /\ pending s2 = chars "next"
    /\ good s2 = true.
Proof.
  apply (get_leaves_newline_getline_consumes_it
           (chars "two words") (chars "next") (uninitialized 64)
           (cin_init (chars "two words" ++ NL :: chars "next"))).
  - reflexivity.
  - reflexivity.
  - apply (bool_decide_unpack _). vm_compute. exact I.
  - simpl. lia.
  - reflexivity.
Defined.

Lemma bounded_read_stays_in_buffer_witness :
  (exists data s',
     istream_get_buf (uninitialized 64 ++ [Some "!"%char])
                     (Z.of_nat 64) (cin_init (replicate 100 "x"%char))
       = Some (holds_text (uninitialized 64) data ++ [Some "!"%char], s')
     /\ pending (cin_init (replicate 100 "x"%char)) = data ++ pending s'
     /\ (length data <= 64 - 1)%nat
     /\ length (holds_text (uninitialized 64) data) = 64%nat)
  /\
  (exists data s',
     istream_getline (uninitialized 64 ++ [Some "!"%char])
                     (Z.of_nat 64) (cin_init (replicate 100 "x"%char))
       = Some (holds_text (uninitialized 64) data ++ [Some "!"%char], s')
     /\ (pending (cin_init (replicate 100 "x"%char)) = data ++ pending s'
         \/ pending (cin_init (replicate 100 "x"%char)) = data ++ NL :: pending s')
     /\ (length data <= 64 - 1)%nat
     /\ length (holds_text (uninitialized 64) data) = 64%nat).
Proof.
  apply (bounded_read_stays_in_buffer 64 (uninitialized 64) [Some "!"%char]
           (cin_init (replicate 100 "x"%char))).
  - lia.
  - reflexivity.
Defined.

(** ** Writes that find the width at 0 *)

Lemma pad_width_0 (os : ostream) (numeric : bool) (text : list char) :
  os_width os = 0 -> pad os numeric text = text.
Proof.
  intros H. unfold pad. rewrite H. simpl.
  destruct (os_flags os) as [[] [] []]; simpl; rewrite ?app_nil_r;
    try reflexivity.
  destruct (numeric && has_sign text); simpl; [|reflexivity].
  apply (take_drop 1).
Qed.

Lemma insert_formatted_emit (numeric : bool) (text : list char) (os : ostream) :
  os_width os = 0 -> insert_formatted numeric text os = emit text os.
Proof.
  intros H. unfold insert_formatted, emit. rewrite pad_width_0 by exact H.
  reflexivity.
Qed.

Lemma ostream_put_emit (c : char) (os : ostream) :
  os_width os = 0 -> ostream_put c os = emit [c] os.
Proof.
  intros H. unfold ostream_put, emit. rewrite H. reflexivity.
Qed.

Lemma emit_emit (t1 t2 : list char) (os : ostream) :
  emit t2 (emit t1 os) = emit (t1 ++ t2) os.
Proof.
  unfold emit. simpl. rewrite <- app_assoc. reflexivity.
Qed.

Lemma emit_width (text : list char) (os : ostream) : os_width (emit text os) = 0.
Proof. reflexivity. Qed.

(** Rewriting a chain of writes into one [emit]. *)
Ltac emit_chain :=
  unfold insert_string, insert_int, insert_float;
  repeat first
    [ progress cbn [cin cout]
    | rewrite insert_formatted_emit by (first [assumption | apply emit_width])
    | rewrite ostream_put_emit by (first [assumption | apply emit_width])
    | rewrite emit_emit ].

(** Two results that differ only in how the written text is bracketed. *)
Ltac same_text := rewrite <- ?app_assoc; cbn [app]; reflexivity.

(** Unfolding the statements of [main] down to the stream operations,
    and evaluating the string literals they print. *)
Ltac unfold_prog :=
  lazy beta iota zeta delta
    [cin_string cin_get cin_int cin_get_buf cin_getline
     cout_cstr cout_string cout_int cout_float cout_endl cout_put
     cout_write cout_precision cout_width cout_fill cout_setf
     on_cin on_cout lift_option
     mbind prog_bind mret prog_ret cin cout];
  repeat match goal with
         | |- context [c_str (literal ?s)] =>
             let v := eval vm_compute in (c_str (literal s)) in
             change (c_str (literal s)) with v
         end;
  lazy beta iota zeta delta [cin cout].

(** ** Tokens and whitespace *)

Lemma skip_ws_all_space (ws l : list char) :
  all_space ws -> skip_ws (ws ++ l) = skip_ws l.
Proof.
  induction 1 as [|c ws Hc _ IH]; simpl; [reflexivity|].
  rewrite Hc. exact IH.
Qed.

Lemma skip_ws_stops (c : char) (l : list char) :
  isspace c = false -> skip_ws (c :: l) = c :: l.
Proof. intros H. simpl. rewrite H. reflexivity. Qed.

Lemma take_token_stops (tok rest : list char) (c : char) :
  no_space tok -> isspace c = true ->
  take_token (tok ++ c :: rest) = (tok, c :: rest).
Proof.
  induction 1 as [|t tok Ht _ IH]; intros Hc; simpl.
  - rewrite Hc. reflexivity.
  - rewrite Ht, (IH Hc). reflexivity.
Qed.

(** [cin >> str] on a good stream holding whitespace, a token and the
    whitespace character that ends it. *)
Lemma extract_string_token (str ws tok rest : list char) (c : char)
    (s : istream) :
  good s = true ->
  pending s = ws ++ tok ++ c :: rest ->
  all_space ws -> tok <> [] -> no_space tok -> isspace c = true ->
  extract_string str s = (tok, IStream (c :: rest) goodbit (gcount s)).
Proof.
  intros Hg Hp Hws Hne Htok Hc.
  unfold extract_string, sentry.
  rewrite Hg, Hp, (good_goodbit s Hg), skip_ws_all_space by exact Hws.
  destruct tok as [|t tok]; [congruence|].
  inversion Htok as [|? ? Ht Htok']; subst.
  rewrite <- app_comm_cons, skip_ws_stops by exact Ht.
  cbn [pending rdstate gcount].
  rewrite app_comm_cons, take_token_stops by assumption.
  reflexivity.
Qed.

(** [cin.get()] on a good stream with a character available. *)
Lemma istream_get_char (c : char) (rest : list char) (s : istream) :
  good s = true -> pending s = c :: rest ->
  istream_get s = (Z.of_nat (nat_of_ascii c), IStream rest goodbit 1).
Proof.
  intros Hg Hp. unfold istream_get, sentry.
  rewrite Hg, Hp, (good_goodbit s Hg). reflexivity.
Qed.

(** C1, as the code has it.  On a good stream holding optional leading
    whitespace, a token and the whitespace character [c] that ends it,
    the token step stores the token, [get()] then discards exactly that
    one character [c], and the token is echoed.  So when the line
    terminator follows the token directly ([c] is the newline) the
    stream stands past the terminator; when anything else of the line
    follows the token, it stays in the stream for the next read. *)
Theorem token_step_discards_one_character
    (ws tok rest : list char) (c : char) (w : console) :
  good (cin w) = true ->
  os_width (cout w) = 0 ->
  pending (cin w) = ws ++ tok ++ c :: rest ->
  all_space ws -> tok <> [] -> no_space tok -> isspace c = true ->
  token_step w
  = Some (tok,
          Console (IStream rest goodbit 1)
                  (emit (chars "type something:" ++ NL :: chars "You typed: "
                           ++ tok ++ [NL])
                        (cout w))).
Proof.
  intros Hg Hw Hp Hws Hne Htok Hc.
  destruct w as [i o]. cbn [cin cout] in *.
  unfold token_step. unfold_prog.
  emit_chain.
  rewrite (extract_string_token [] ws tok rest c i) by assumption.
  rewrite (istream_get_char c rest) by reflexivity.
  emit_chain. same_text.
Qed.

Lemma token_step_discards_one_character_witness :
  token_step (Console (cin_init (chars "hello" ++ NL :: chars "next")) cout_init)
  = Some (chars "hello",
          Console (IStream (chars "next") goodbit 1)
                  (emit (chars "type something:" ++ NL :: chars "You typed: "
                           ++ chars "hello" ++ [NL])
                        cout_init)).
Proof.
  apply (token_step_discards_one_character
           [] (chars "hello") (chars "next") NL
           (Console (cin_init (chars "hello" ++ NL :: chars "next")) cout_init)).
  - reflexivity.
  - reflexivity.
  - reflexivity.
  - constructor.
  - discriminate.
  - repeat constructor.
  - reflexivity.
Defined.

(** C1, as the specification has it, fails on the line [hello world]:
    the token step echoes [hello], its one [get()] removes the space,
    and [world] with the line terminator is still in the stream, where
    the next read ([get] into [words]) finds it. *)
Lemma token_step_leaves_rest_of_line :
  let line2 := chars "second line" ++ [NL] in
  let w := Console (cin_init (chars "hello world" ++ NL :: line2)) cout_init in
  exists w1 w2 words,
    token_step w = Some (chars "hello", w1)
    /\ pending (cin w1) = chars "world" ++ NL :: line2
    /\ pending (cin w1) <> line2
    /\ get_step (uninitialized 64) w1 = Some (words, w2)
    /\ c_str words = Some (chars "world").
Proof.
  eexists _, _, _.
  split; [vm_compute; reflexivity|].
  split; [reflexivity|].
  split; [discriminate|].
  split; [vm_compute; reflexivity|].
  reflexivity.
Qed.

(** ** Typed extraction of an [int] *)

Lemma take_digits_stops (c : char) (l : list char) :
  isdigit c = false -> take_digits (c :: l) = ([], c :: l).
Proof. intros H. simpl. rewrite H. reflexivity. Qed.

(** [cin >> x] on a good stream whose first character after the
    whitespace cannot start an integer: 0 is stored, [failbit] is set,
    and the character stays in the stream. *)
Lemma extract_int_no_digits (x : option Z) (ws rest : list char) (c : char)
    (s : istream) :
  good s = true ->
  pending s = ws ++ c :: rest ->
  all_space ws -> isspace c = false -> isdigit c = false ->
  is_sign c = false ->
  extract_int x s = (Some 0, IStream (c :: rest) failbit_only (gcount s)).
Proof.
  intros Hg Hp Hws Hsp Hd Hs.
  unfold extract_int, sentry.
  rewrite Hg, Hp, (good_goodbit s Hg), skip_ws_all_space by exact Hws.
  rewrite skip_ws_stops by exact Hsp.
  cbn [pending rdstate gcount]. unfold take_int_field.
  rewrite Hs, take_digits_stops by exact Hd.
  reflexivity.
Qed.

(** On a stream that is not good, [get()] extracts nothing. *)
Lemma istream_get_not_good (s : istream) :
  good s = false ->
  istream_get s = (EOF, IStream (pending s) (ios_or (rdstate s) failbit_only) 0).
Proof.
  intros Hg. unfold istream_get, sentry. rewrite Hg. reflexivity.
Qed.

(** On a stream that is not good, [getline] extracts nothing and stores
    only the null. *)
Lemma istream_getline_not_good (a : array) (n : Z) (s : istream) :
  good s = false -> 0 < n -> (0 < length a)%nat ->
  istream_getline a n s
  = Some (<[0%nat := Some NUL]> a,
          IStream (pending s) (ios_or (rdstate s) failbit_only) 0).
Proof.
  intros Hg Hn Ha. unfold istream_getline, sentry. rewrite Hg.
  replace (0 <? n) with true by (symmetry; apply Z.ltb_lt; exact Hn).
  rewrite store_in_range by exact Ha. reflexivity.
Qed.

Lemma is_sign_not_space (c : char) : is_sign c = true -> isspace c = false.
Proof.
  unfold is_sign. intros H. apply orb_true_iff in H as [H | H];
    apply Ascii.eqb_eq in H; subst c; reflexivity.
Qed.

(** [cin >> x] on a good stream that holds, after the whitespace, a sign
    with no digit behind it: the sign is consumed, 0 is stored,
    [failbit] is set, and the character after the sign stays in the
    stream. *)
Lemma extract_int_sign_without_digits (x : option Z) (ws rest : list char)
    (sgn c : char) (s : istream) :
  good s = true ->
  pending s = ws ++ sgn :: c :: rest ->
  all_space ws -> is_sign sgn = true -> isdigit c = false ->
  extract_int x s = (Some 0, IStream (c :: rest) failbit_only (gcount s)).
Proof.
  intros Hg Hp Hws Hs Hd.
  unfold extract_int, sentry.
  rewrite Hg, Hp, (good_goodbit s Hg), skip_ws_all_space by exact Hws.
  rewrite skip_ws_stops by (apply is_sign_not_space; exact Hs).
  cbn [pending rdstate gcount]. unfold take_int_field.
  rewrite Hs, take_digits_stops by exact Hd.
  reflexivity.
Qed.

(** The two ways in which the extraction meets a character without
    having found a digit: the character [c] follows the whitespace
    directly and is neither whitespace nor a sign, or one sign stands
    between the whitespace and [c]. *)
Lemma extract_int_finds_no_digits (x : option Z) (ws sgn rest : list char)
    (c : char) (s : istream) :
  good s = true ->
  pending s = ws ++ sgn ++ c :: rest ->
  all_space ws -> isdigit c = false ->
  (sgn = [] /\ isspace c = false /\ is_sign c = false
   \/ exists sc, sgn = [sc] /\ is_sign sc = true) ->
  extract_int x s = (Some 0, IStream (c :: rest) failbit_only (gcount s)).
Proof.
  intros Hg Hp Hws Hd [(-> & Hsp & Hs) | (sc & -> & Hs)].
  - apply (extract_int_no_digits x ws rest c); assumption.
  - apply (extract_int_sign_without_digits x ws rest sc c); assumption.
Qed.

(** C2, as the code has it.  When, after optional whitespace, the input
    at the typed extraction goes on with a character that is neither a
    digit nor a sign, or with a sign followed by a character that is not
    a digit, the extraction finds no digits: it stores 0, consumes the
    whitespace and the sign, and sets [failbit], and nothing in the
    program clears it: the [get()] that follows and the [getline] and
    [get()] of the last step extract nothing, the character that
    stopped the extraction and all input behind it stay unread, and the
    last step echoes [doubled: 0].  Every statement of the block is
    still executed and the block ends normally. *)
Theorem failed_int_extraction_silences_later_reads
    (ws sgn rest : list char) (c : char) (w : console) :
  good (cin w) = true ->
  os_width (cout w) = 0 ->
  pending (cin w) = ws ++ sgn ++ c :: rest ->
  all_space ws -> isdigit c = false ->
  (sgn = [] /\ isspace c = false /\ is_sign c = false
   \/ exists sc, sgn = [sc] /\ is_sign sc = true) ->
  block_numeric_input w
  = Some (tt,
          Console (IStream (c :: rest) failbit_only 0)
                  (emit (chars "input a number: you input: 0" ++ NL
                           :: chars "input a number: doubled: 0" ++ [NL])
                        (cout w))).
Proof.
  intros Hg Hw Hp Hws Hd Hcase.
  destruct w as [i o]. cbn [cin cout] in *.
  unfold block_numeric_input, typed_int_step, atoi_step. unfold_prog.
  emit_chain.
  rewrite (extract_int_finds_no_digits None ws sgn rest c i) by assumption.
  rewrite istream_get_not_good by reflexivity.
  emit_chain. cbn [pending rdstate].
  rewrite istream_getline_not_good by (try reflexivity; simpl; lia).
  cbn -[istream_get insert_formatted ostream_put int_mul].
  change (int_mul 0 2) with (Some 0).
  cbn -[istream_get insert_formatted ostream_put].
  emit_chain.
  rewrite istream_get_not_good by reflexivity.
  emit_chain. same_text.
Qed.

Lemma failed_int_extraction_silences_later_reads_witness :
  block_numeric_input
    (Console (cin_init (chars " " ++ chars "-" ++ "x"%char
                          :: NL :: chars "21" ++ [NL])) cout_init)
  = Some (tt,
          Console (IStream ("x"%char :: NL :: chars "21" ++ [NL])
                           failbit_only 0)
                  (emit (chars "input a number: you input: 0" ++ NL
                           :: chars "input a number: doubled: 0" ++ [NL])
                        (cout (Console
                                 (cin_init (chars " " ++ chars "-" ++ "x"%char
                                              :: NL :: chars "21" ++ [NL]))
                                 cout_init)))).
Proof.
  apply (failed_int_extraction_silences_later_reads
           (chars " ") (chars "-") (NL :: chars "21" ++ [NL]) "x"%char
           (Console (cin_init (chars " " ++ chars "-" ++ "x"%char
                                 :: NL :: chars "21" ++ [NL]))
                    cout_init)).
  - reflexivity.
  - reflexivity.
  - reflexivity.
  - repeat constructor.
  - reflexivity.
  - right. exists "-"%char. split; reflexivity.
Defined.

(** C2, as the specification has it, fails on the input [foo], [21]:
    after the failed extraction the last step does not read its line.
    On a good stream the step reads [21] and echoes [doubled: 42]; after
    the failure it reads nothing, echoes [doubled: 0], and all of the
    input is still pending when the block ends. *)
Lemma failed_extraction_crosses_step_boundary :
  let input := chars "foo" ++ NL :: chars "21" ++ [NL] in
  let w := Console (cin_init input) cout_init in
  exists x w1 w2 w3,
    typed_int_step w = Some (x, w1)
    /\ good (cin w1) = false
    /\ atoi_step w1 = Some (0, w2)
    /\ pending (cin w2) = input
    /\ atoi_step (Console (cin_init (chars "21" ++ [NL])) (cout w1))
       = Some (21, w3)
    /\ pending (cin w3) = []
    /\ written (cout w3) <> written (cout w2).
Proof.
  eexists _, _, _, _.
  split; [vm_compute; reflexivity|].
  split; [reflexivity|].
  split; [vm_compute; reflexivity|].
  split; [reflexivity|].
  split; [vm_compute; reflexivity|].
  split; [reflexivity|].
  vm_compute. discriminate.
Qed.

(** C7. With [500BC] at the cursor of a good stream, [cin >> x] stores
    500, stops at [B], and leaves [BC] and what follows in the stream;
    the next read gets [B]. *)
Theorem extract_int_500BC (rest : list char) (x : option Z) (g : Z) :
  extract_int x (IStream (chars "500BC" ++ rest) goodbit g)
    = (Some 500, IStream (chars "BC" ++ rest) goodbit g)
  /\ istream_get (IStream (chars "BC" ++ rest) goodbit g)
    = (Z.of_nat (nat_of_ascii "B"), IStream (chars "C" ++ rest) goodbit 1).
Proof.
  split; reflexivity.
Qed.

(** ** Raw output *)

Lemma read_n_prefix (src : list char) :
  forall (n : nat) (rest : array),
    (n <= length src)%nat ->
    read_n ((Some <$> src) ++ rest) n = Some (take n src).
Proof.
  induction src as [|c src IH]; intros n rest Hn.
  - simpl in Hn. replace n with 0%nat by lia. reflexivity.
  - destruct n as [|n]; [reflexivity|].
    simpl in Hn. simpl. rewrite IH by lia. reflexivity.
Qed.

(** C5. [write(s, N)] with [N] not above the length of the source
    appends exactly the first [N] characters of the source: [N]
    characters, whatever they are, with no terminator and no padding
    (the width and the rest of the formatting state are neither used nor
    changed).  [write("words cannot describe", 4)] appends [word]. *)
Theorem write_emits_first_n
    (src : list char) (rest : array) (n : nat) (w : console) :
  (n <= length src)%nat ->
  (exists w',
     cout_write ((Some <$> src) ++ rest) (Z.of_nat n) w = Some (tt, w')
     /\ written (cout w') = written (cout w) ++ take n src
     /\ length (take n src) = n
     /\ os_width (cout w') = os_width (cout w)
     /\ os_precision (cout w') = os_precision (cout w)
     /\ os_fill (cout w') = os_fill (cout w)
     /\ os_flags (cout w') = os_flags (cout w)
     /\ cin w' = cin w)
  /\ cout_write (literal "words cannot describe") 4 w
     = Some (tt, Console (cin w) (ostream_write (chars "word") (cout w))).
Proof.
  intros Hn. split; [|reflexivity].
  unfold cout_write, lift_option, on_cout, mbind, prog_bind.
  rewrite Nat2Z.id, read_n_prefix by exact Hn.
  eexists. split; [reflexivity|]. cbn.
  repeat split. apply length_take_le. exact Hn.
Qed.

Lemma write_emits_first_n_witness :
  (exists w',
     cout_write ((Some <$> chars "words cannot describe") ++ [Some NUL])
                (Z.of_nat 4) (Console (cin_init []) cout_init)
       = Some (tt, w')
     /\ written (cout w')
        = written (cout (Console (cin_init []) cout_init))
          ++ take 4 (chars "words cannot describe")
     /\ length (take 4 (chars "words cannot describe")) = 4%nat
     /\ os_width (cout w') = os_width (cout (Console (cin_init []) cout_init))
     /\ os_precision (cout w')
        = os_precision (cout (Console (cin_init []) cout_init))
     /\ os_fill (cout w') = os_fill (cout (Console (cin_init []) cout_init))
     /\ os_flags (cout w') = os_flags (cout (Console (cin_init []) cout_init))
     /\ cin w' = cin (Console (cin_init []) cout_init))
  /\ cout_write (literal "words cannot describe") 4
                (Console (cin_init []) cout_init)
     = Some (tt, Console (cin (Console (cin_init []) cout_init))
                         (ostream_write (chars "word")
                            (cout (Console (cin_init []) cout_init)))).
Proof.
  apply (write_emits_first_n (chars "words cannot describe") [Some NUL] 4
           (Console (cin_init []) cout_init)).
  simpl. lia.
Defined.

(** C10. [put(157)] writes exactly one byte, and that byte is 157
    (0x9D): the argument 157 converts to the [char] value -99 where
    [char] is signed and to 157 where it is unsigned, and both are
    represented by the byte 157 = 157 mod 2^8. *)
Theorem put_157_writes_one_byte (char_signed : bool) (w : console) :
  exists w',
    cout_put char_signed 157 w = Some (tt, w')
    /\ written (cout w') = written (cout w) ++ [ascii_of_nat 157]
    /\ Z.of_nat (nat_of_ascii (ascii_of_nat 157)) = 157 mod 2 ^ 8
    /\ int_to_char_value true 157 = -99
    /\ int_to_char_value false 157 = 157
    /\ cin w' = cin w.
Proof.
  eexists. split; [reflexivity|].
  destruct char_signed; cbn; repeat split.
Qed.

(** ** The last step: [getline] and [atoi] *)

Lemma c_str_holds_text (line : list char) :
  forall a : array, c_str (holds_text a line) = Some (until_nul line).
Proof.
  induction line as [|c line IH]; intros a; [reflexivity|].
  specialize (IH (drop 1 a)). unfold holds_text in *.
  rewrite drop_drop in IH.
  change (1 + S (length line))%nat with (S (length (c :: line))) in IH.
  cbn [fmap list_fmap app c_str until_nul].
  destruct (Ascii.eqb c NUL); [reflexivity|].
  rewrite IH. reflexivity.
Qed.

Lemma skip_ws_until_nul (l : list char) :
  skip_ws (until_nul l) = until_nul (skip_ws l).
Proof.
  induction l as [|c l IH]; [reflexivity|].
  simpl. destruct (Ascii.eqb c NUL) eqn:E.
  - apply Ascii.eqb_eq in E. subst c. reflexivity.
  - simpl. destruct (isspace c); [exact IH|]. simpl. rewrite E. reflexivity.
Qed.

Lemma take_digits_until_nul (l : list char) :
  fst (take_digits (until_nul l)) = fst (take_digits l).
Proof.
  induction l as [|c l IH]; [reflexivity|].
  simpl. destruct (Ascii.eqb c NUL) eqn:E.
  - apply Ascii.eqb_eq in E. subst c. reflexivity.
  - simpl. destruct (isdigit c); [|reflexivity].
    destruct (take_digits (until_nul l)), (take_digits l).
    simpl in *. subst. reflexivity.
Qed.

Lemma take_int_field_until_nul (l : list char) :
  fst (take_int_field (until_nul l)) = fst (take_int_field l).
Proof.
  destruct l as [|c l]; [reflexivity|].
  cbn [until_nul]. destruct (Ascii.eqb c NUL) eqn:E.
  - apply Ascii.eqb_eq in E. subst c. reflexivity.
  - unfold take_int_field. destruct (is_sign c).
    + pose proof (take_digits_until_nul l) as H.
      destruct (take_digits (until_nul l)), (take_digits l).
      simpl in *. subst. reflexivity.
    + pose proof (take_digits_until_nul (c :: l)) as H.
      cbn [until_nul] in H. rewrite E in H.
      destruct (take_digits (c :: until_nul l)), (take_digits (c :: l)).
      simpl in *. subst. reflexivity.
Qed.

(** [atoi] sees of a line what precedes its first null, and that is
    enough: the conversion stops at the null anyway. *)
Lemma atoi_until_nul (l : list char) : atoi (until_nul l) = atoi l.
Proof.
  unfold atoi. rewrite skip_ws_until_nul.
  pose proof (take_int_field_until_nul (skip_ws l)) as H.
  destruct (take_int_field (until_nul (skip_ws l))) as [[s1 d1] r1].
  destruct (take_int_field (skip_ws l)) as [[s2 d2] r2].
  simpl in H. inversion H. reflexivity.
Qed.

(** ** The formatting state of [std::cout] *)

Lemma flags_or_left_twice (f : fmtflags) :
  flags_or (flags_or f left_flag) left_flag = flags_or f left_flag.
Proof. destruct f as [[] [] []]; reflexivity. Qed.

Lemma pad_length (os : ostream) (numeric : bool) (text : list char) :
  Z.of_nat (length text) < os_width os ->
  length (pad os numeric text) = Z.to_nat (os_width os).
Proof.
  intros H. unfold pad.
  assert (Hn : (length text + (Z.to_nat (os_width os) - length text)
                = Z.to_nat (os_width os))%nat) by lia.
  destruct (os_flags os) as [[] [] []];
    try (rewrite length_app, length_replicate; lia).
  destruct (numeric && has_sign text).
  - rewrite !length_app, length_replicate.
    rewrite <- (take_drop 1 text) in Hn at 1.
    rewrite length_app in Hn. lia.
  - rewrite length_app, length_replicate; lia.
Qed.

Lemma fmt_g_6_literal : fmt_g 6 lit_9_99999f = chars "9.99999".
Proof. vm_compute. reflexivity. Qed.

Lemma fmt_g_3_literal : fmt_g 3 lit_9_99999f = chars "10".
Proof. vm_compute. reflexivity. Qed.

(** The output operations on a stream whose fields are given. *)
Lemma insert_float_fields (x : spec_float) (wr : list char) (p w : Z)
    (f : char) (fl : fmtflags) :
  insert_float x (OStream wr p w f fl)
  = OStream (wr ++ pad (OStream [] p w f fl) true (fmt_g p x)) p 0 f fl.
Proof. reflexivity. Qed.

Lemma ostream_put_fields (c : char) (wr : list char) (p w : Z)
    (f : char) (fl : fmtflags) :
  ostream_put c (OStream wr p w f fl) = OStream (wr ++ [c]) p w f fl.
Proof. reflexivity. Qed.

Lemma set_precision_fields (p' : Z) (wr : list char) (p w : Z)
    (f : char) (fl : fmtflags) :
  set_precision p' (OStream wr p w f fl) = OStream wr p' w f fl.
Proof. reflexivity. Qed.

Lemma set_width_fields (w' : Z) (wr : list char) (p w : Z)
    (f : char) (fl : fmtflags) :
  set_width w' (OStream wr p w f fl) = OStream wr p w' f fl.
Proof. reflexivity. Qed.

Lemma set_fill_fields (f' : char) (wr : list char) (p w : Z)
    (f : char) (fl : fmtflags) :
  set_fill f' (OStream wr p w f fl) = OStream wr p w f' fl.
Proof. reflexivity. Qed.

Lemma setf_fields (fl' : fmtflags) (wr : list char) (p w : Z)
    (f : char) (fl : fmtflags) :
  setf fl' (OStream wr p w f fl) = OStream wr p w f (flags_or fl fl').
Proof. reflexivity. Qed.

(** Running a chain of output operations from the inside out. *)
Ltac run_cout :=
  repeat first
    [ rewrite insert_float_fields | rewrite ostream_put_fields
    | rewrite set_precision_fields | rewrite set_width_fields
    | rewrite set_fill_fields | rewrite setf_fields ].

(** C3. For a write of a floating-point value [x] on any state of
    [std::cout]:
    - a width above the length of the rendered text pads the output to
      exactly the width, with the fill character, before the text under
      the default or [right] adjustment and after it under [left];
    - the write resets the width to 0 and leaves the precision, the fill
      character and the flags as they were, so the write after it is
      not padded;
    and for the program: from the initial formatting state the six
    writes give [9.99999], [10], eight spaces and [10], eight dashes and
    [10], and twice [10] and eight dashes; from any state at all, the
    sixth write appends the same text as the fifth. *)
Theorem width_is_used_once_other_state_persists
    (x : spec_float) (os : ostream) :
  let text := fmt_g (os_precision os) x in
  let fillers :=
    replicate (Z.to_nat (os_width os) - length text) (os_fill os) in
  (Z.of_nat (length text) < os_width os ->
     (os_flags os = no_adjust \/ os_flags os = right_flag ->
        written (insert_float x os) = written os ++ fillers ++ text)
     /\ (os_flags os = left_flag ->
        written (insert_float x os) = written os ++ text ++ fillers)
     /\ length (pad os true text) = Z.to_nat (os_width os))
  /\ os_width (insert_float x os) = 0
  /\ os_precision (insert_float x os) = os_precision os
  /\ os_fill (insert_float x os) = os_fill os
  /\ os_flags (insert_float x os) = os_flags os
  /\ (forall y : spec_float,
        written (insert_float y (insert_float x os))
        = written (insert_float x os) ++ fmt_g (os_precision os) y)
  /\ (forall (i : istream) (before : list char),
        (write_1;; write_2;; write_3;; write_4;; write_5;; write_6)
          (Console i (OStream before 6 0 " "%char no_adjust))
        = Some (tt,
                Console i
                  (OStream (before
                              ++ chars "9.99999" ++ NL
                              :: chars "10" ++ NL
                              :: chars "        10" ++ NL
                              :: chars "--------10" ++ NL
                              :: chars "10--------" ++ NL
                              :: chars "10--------" ++ [NL])
                           3 0 "-"%char left_flag)))
  /\ (forall w : console,
        exists line w5 w6,
          write_5 w = Some (tt, w5)
          /\ write_6 w5 = Some (tt, w6)
          /\ written (cout w5) = written (cout w) ++ line
          /\ written (cout w6) = written (cout w5) ++ line).
Proof.
  intros text fillers.
  split; [|repeat split].
  - intros Hlen. split; [|split].
    + intros [Hf | Hf]; unfold insert_float, insert_formatted, pad;
        rewrite Hf; reflexivity.
    + intros Hf. unfold insert_float, insert_formatted, pad.
      rewrite Hf. reflexivity.
    + apply pad_length. exact Hlen.
  - intros y. unfold insert_float at 1. unfold insert_formatted at 1.
    rewrite pad_width_0 by reflexivity. reflexivity.
  - intros i before.
    unfold write_1, write_2, write_3, write_4, write_5, write_6. unfold_prog.
    run_cout. rewrite fmt_g_6_literal, !fmt_g_3_literal.
    do 3 f_equal. rewrite <- !app_assoc. reflexivity.
  - intros [i [wr p w f fl]].
    unfold write_5, write_6. unfold_prog. run_cout.
    eexists _, _, _. split; [reflexivity|].
    unfold_prog. run_cout. rewrite flags_or_left_twice.
    split; [reflexivity|].
    cbn [cout written]. rewrite <- !app_assoc.
    split; reflexivity.
Qed.

(** ** Decimal digits *)

Lemma digit_char_spec (d : Z) :
  0 <= d <= 9 ->
  isdigit (digit_char d) = true /\ digit_val (digit_char d) = d.
Proof.
  intros H.
  assert (Hd : d = 0 \/ d = 1 \/ d = 2 \/ d = 3 \/ d = 4 \/ d = 5 \/ d = 6
               \/ d = 7 \/ d = 8 \/ d = 9) by lia.
  repeat (destruct Hd as [-> | Hd]; [split; reflexivity|]).
  subst d. split; reflexivity.
Qed.

Lemma digits_value_acc (ds : list char) :
  forall acc : Z,
    fold_left (fun a c => 10 * a + digit_val c) ds acc
    = acc * 10 ^ Z.of_nat (length ds) + digits_value ds.
Proof.
  unfold digits_value.
  induction ds as [|c ds IH]; intros acc.
  - simpl. lia.
  - cbn [fold_left length]. rewrite IH, (IH (10 * 0 + digit_val c)).
    rewrite Nat2Z.inj_succ, Z.pow_succ_r by lia. lia.
Qed.

Lemma digits_value_app (a b : list char) :
  digits_value (a ++ b)
  = digits_value a * 10 ^ Z.of_nat (length b) + digits_value b.
Proof.
  unfold digits_value at 1. rewrite fold_left_app.
  fold (digits_value a). apply digits_value_acc.
Qed.

Lemma digits_value_single (c : char) : digits_value [c] = digit_val c.
Proof. unfold digits_value. simpl. lia. Qed.

Lemma digits_fixed_length (k : nat) : forall n, length (digits_fixed k n) = k.
Proof.
  induction k as [|k IH]; intros n; [reflexivity|].
  simpl. rewrite length_app, IH. simpl. lia.
Qed.

Lemma digits_fixed_value (k : nat) :
  forall n, 0 <= n -> digits_value (digits_fixed k n) = n mod 10 ^ Z.of_nat k.
Proof.
  induction k as [|k IH]; intros n Hn.
  - simpl. rewrite Z.mod_1_r. reflexivity.
  - cbn [digits_fixed]. rewrite digits_value_app, digits_value_single.
    rewrite IH by (apply Z.div_pos; lia).
    destruct (digit_char_spec (n mod 10)) as [_ ->];
      [pose proof (Z.mod_pos_bound n 10); lia|].
    cbn [length]. change (Z.of_nat 1) with 1. rewrite Z.pow_1_r.
    rewrite Nat2Z.inj_succ, Z.pow_succ_r by lia.
    rewrite Z.rem_mul_r by lia. lia.
Qed.

Lemma digits_fixed_digits (k : nat) :
  forall n, 0 <= n -> forallb isdigit (digits_fixed k n) = true.
Proof.
  induction k as [|k IH]; intros n Hn; [reflexivity|].
  cbn [digits_fixed]. rewrite forallb_app, IH by (apply Z.div_pos; lia).
  simpl. destruct (digit_char_spec (n mod 10)) as [-> _];
    [pose proof (Z.mod_pos_bound n 10); lia | reflexivity].
Qed.

Lemma ndigits_aux_spec (fuel : nat) :
  forall n, 1 <= n -> Z.log2 n <= Z.of_nat fuel ->
    10 ^ (Z.of_nat (ndigits_aux fuel n) - 1) <= n
      < 10 ^ Z.of_nat (ndigits_aux fuel n).
Proof.
  induction fuel as [|fuel IH]; intros n Hn Hlog.
  - assert (n < 2 ^ 1) by (apply Z.log2_lt_pow2; lia).
    simpl. lia.
  - cbn [ndigits_aux]. destruct (n <? 10) eqn:E.
    + apply Z.ltb_lt in E. simpl. lia.
    + apply Z.ltb_ge in E.
      assert (Hq : 1 <= n / 10) by (apply Z.div_le_lower_bound; lia).
      assert (Hl : Z.log2 (n / 10) <= Z.of_nat fuel).
      { assert (Z.log2 (n / 10) + 1 <= Z.log2 n); [|lia].
        apply Z.log2_le_pow2; [lia|].
        pose proof (Z.log2_spec (n / 10)) as [Hs _]; [lia|].
        rewrite Z.pow_add_r, Z.pow_1_r by (try apply Z.log2_nonneg; lia).
        pose proof (Z.mul_div_le n 10). lia. }
      specialize (IH (n / 10) Hq Hl).
      rewrite Nat2Z.inj_succ.
      replace (Z.succ (Z.of_nat (ndigits_aux fuel (n / 10))) - 1)
        with (Z.succ (Z.of_nat (ndigits_aux fuel (n / 10)) - 1)) by lia.
      assert (1 <= Z.of_nat (ndigits_aux fuel (n / 10))).
      { destruct fuel; simpl; [lia|]. destruct (n / 10 <? 10); lia. }
      rewrite !Z.pow_succ_r by lia.
      pose proof (Z.div_mod n 10). pose proof (Z.mod_pos_bound n 10). lia.
Qed.

Lemma ndigits_pos (n : Z) : (1 <= ndigits n)%nat.
Proof.
  unfold ndigits. destruct (Z.to_nat (Z.log2 n)); simpl; [lia|].
  destruct (n <? 10); lia.
Qed.

Lemma ndigits_spec (n : Z) :
  1 <= n -> 10 ^ (Z.of_nat (ndigits n) - 1) <= n < 10 ^ Z.of_nat (ndigits n).
Proof.
  intros Hn. apply ndigits_aux_spec; [exact Hn|].
  pose proof (Z.log2_nonneg n). lia.
Qed.

Lemma ndigits_upper (n : Z) : 0 <= n -> n < 10 ^ Z.of_nat (ndigits n).
Proof.
  intros Hn. destruct (Z.eq_dec n 0) as [-> | Hne]; [reflexivity|].
  apply ndigits_spec. lia.
Qed.

Lemma decimal_value (n : Z) : 0 <= n -> digits_value (decimal n) = n.
Proof.
  intros Hn. unfold decimal. rewrite digits_fixed_value by exact Hn.
  apply Z.mod_small. split; [exact Hn | apply ndigits_upper; exact Hn].
Qed.

Lemma decimal_digits (n : Z) : 0 <= n -> forallb isdigit (decimal n) = true.
Proof. intros Hn. apply digits_fixed_digits. exact Hn. Qed.

Lemma decimal_length (n : Z) : (1 <= length (decimal n))%nat.
Proof. unfold decimal. rewrite digits_fixed_length. apply ndigits_pos. Qed.

(** ** Reading digits back *)

Lemma take_digits_all (ds : list char) :
  forallb isdigit ds = true -> take_digits ds = (ds, []).
Proof.
  induction ds as [|c ds IH]; intros H; [reflexivity|].
  simpl in *. apply andb_true_iff in H as [Hc Hds].
  rewrite Hc, (IH Hds). reflexivity.
Qed.

Lemma take_digits_until (ds rest : list char) (c : char) :
  forallb isdigit ds = true -> isdigit c = false ->
  take_digits (ds ++ c :: rest) = (ds, c :: rest).
Proof.
  induction ds as [|d ds IH]; intros H Hc.
  - simpl. rewrite Hc. reflexivity.
  - simpl in *. apply andb_true_iff in H as [Hd Hds].
    rewrite Hd, (IH Hds Hc). reflexivity.
Qed.

Lemma strip_zeros_digits (ds : list char) :
  forallb isdigit ds = true -> forallb isdigit (strip_zeros ds) = true.
Proof.
  induction ds as [|c ds IH]; intros H; [reflexivity|].
  simpl in *. apply andb_true_iff in H as [Hc Hds].
  specialize (IH Hds).
  destruct (strip_zeros ds) as [|s l].
  - destruct (Ascii.eqb c "0"); simpl; [reflexivity | rewrite Hc; reflexivity].
  - cbn [forallb]. rewrite Hc. exact IH.
Qed.

Lemma strip_zeros_length (ds : list char) :
  (length (strip_zeros ds) <= length ds)%nat.
Proof.
  induction ds as [|c ds IH]; simpl; [lia|].
  destruct (strip_zeros ds); [destruct (Ascii.eqb c "0")|]; simpl in *; lia.
Qed.

Lemma digits_value_cons (c : char) (ds : list char) :
  digits_value (c :: ds)
  = digit_val c * 10 ^ Z.of_nat (length ds) + digits_value ds.
Proof.
  change (c :: ds) with ([c] ++ ds).
  rewrite digits_value_app, digits_value_single. reflexivity.
Qed.

(** Removing trailing zeros divides the digits' value by the power of
    ten that the removed zeros stood for. *)
Lemma strip_zeros_value (ds : list char) :
  digits_value ds
  = digits_value (strip_zeros ds)
    * 10 ^ (Z.of_nat (length ds) - Z.of_nat (length (strip_zeros ds))).
Proof.
  induction ds as [|c ds IH]; [reflexivity|].
  pose proof (strip_zeros_length ds) as Hl.
  cbn [strip_zeros]. destruct (strip_zeros ds) as [|s l] eqn:E.
  - cbn [length] in *. rewrite Z.sub_0_r in IH.
    change (digits_value []) with 0 in IH. rewrite Z.mul_0_l in IH.
    rewrite digits_value_cons, IH.
    destruct (Ascii.eqb c "0") eqn:Ec.
    + apply Ascii.eqb_eq in Ec. subst c. reflexivity.
    + rewrite digits_value_single. cbn [length].
      rewrite Nat2Z.inj_succ. f_equal.
      replace (Z.succ (Z.of_nat (length ds)) - Z.of_nat 1)
        with (Z.of_nat (length ds)) by lia.
      lia.
  - rewrite (digits_value_cons c ds), (digits_value_cons c (s :: l)), IH.
    cbn [length] in *.
    set (a := Z.of_nat (length ds)) in *.
    set (b := Z.of_nat (length l)) in *.
    rewrite !Nat2Z.inj_succ. fold a. fold b.
    replace (Z.succ a - Z.succ (Z.succ b)) with (a - Z.succ b) by lia.
    assert (Hab : 0 <= a - Z.succ b) by lia.
    replace a with (Z.succ b + (a - Z.succ b)) at 1 by lia.
    rewrite Z.pow_add_r by lia. ring.
Qed.

(** ** Decimal numerals *)

Lemma digit_val_bound (c : char) : isdigit c = true -> 0 <= digit_val c <= 9.
Proof.
  unfold isdigit, digit_val. intros H.
  apply andb_true_iff in H as [H1 H2].
  apply Nat.leb_le in H1, H2. lia.
Qed.

Lemma digit_val_inj (c d : char) :
  isdigit c = true -> isdigit d = true -> digit_val c = digit_val d -> c = d.
Proof.
  unfold isdigit, digit_val. intros Hc Hd H.
  apply andb_true_iff in Hc as [Hc _]. apply andb_true_iff in Hd as [Hd _].
  apply Nat.leb_le in Hc, Hd.
  rewrite <- (ascii_nat_embedding c), <- (ascii_nat_embedding d).
  f_equal. lia.
Qed.

(** A string of [k] digits has a value below [10^k]. *)
Lemma digits_value_bound (ds : list char) :
  forallb isdigit ds = true ->
  0 <= digits_value ds < 10 ^ Z.of_nat (length ds).
Proof.
  induction ds as [|c ds IH]; intros H.
  - change (digits_value []) with 0. simpl. lia.
  - cbn [forallb] in H. apply andb_true_iff in H as [Hc Hds].
    specialize (IH Hds). pose proof (digit_val_bound c Hc) as Hb.
    rewrite digits_value_cons. cbn [length].
    rewrite Nat2Z.inj_succ, Z.pow_succ_r by lia. nia.
Qed.

(** Two strings of digits of the same length and the same value are the
    same string. *)
Lemma digits_value_inj (a : list char) :
  forall b : list char,
    length a = length b ->
    forallb isdigit a = true -> forallb isdigit b = true ->
    digits_value a = digits_value b -> a = b.
Proof.
  induction a as [|c a IH]; intros [|d b] Hl Ha Hb Hv;
    try discriminate Hl; [reflexivity|].
  cbn [length] in Hl. injection Hl as Hl.
  cbn [forallb] in Ha, Hb.
  apply andb_true_iff in Ha as [Hc Ha]. apply andb_true_iff in Hb as [Hd Hb].
  rewrite !digits_value_cons, <- Hl in Hv.
  pose proof (digits_value_bound a Ha) as Ba.
  pose proof (digits_value_bound b Hb) as Bb. rewrite <- Hl in Bb.
  pose proof (digit_val_bound c Hc) as Bc.
  pose proof (digit_val_bound d Hd) as Bd.
  assert (Hcd : digit_val c = digit_val d) by nia.
  rewrite Hcd in Hv.
  rewrite (digit_val_inj c d Hc Hd Hcd), (IH b Hl Ha Hb); [reflexivity | lia].
Qed.

(** Without a leading zero, the length of a string of digits is fixed by
    its value. *)
Lemma digits_value_lower (c : char) (ds : list char) :
  forallb isdigit (c :: ds) = true -> c <> "0"%char ->
  10 ^ Z.of_nat (length ds) <= digits_value (c :: ds).
Proof.
  intros H Hc. cbn [forallb] in H. apply andb_true_iff in H as [Hd Hds].
  pose proof (digits_value_bound ds Hds) as B.
  pose proof (digit_val_bound c Hd) as Bc.
  assert (digit_val c <> 0).
  { intros E. apply Hc. apply (digit_val_inj c "0" Hd eq_refl). exact E. }
  rewrite digits_value_cons. nia.
Qed.

Lemma decimal_no_leading_zero (n : Z) (more : list char) :
  0 <= n -> decimal n = "0"%char :: more -> more = [].
Proof.
  intros Hn E.
  destruct (Z.eq_dec n 0) as [-> | Hne].
  - vm_compute in E. injection E as <-. reflexivity.
  - pose proof (ndigits_spec n ltac:(lia)) as [Hlow _].
    pose proof (decimal_value n Hn) as Hv.
    pose proof (decimal_digits n Hn) as Hd.
    assert (Hlen : length (decimal n) = ndigits n)
      by apply digits_fixed_length.
    rewrite E in Hv, Hd, Hlen.
    cbn [forallb] in Hd. apply andb_true_iff in Hd as [_ Hd].
    pose proof (digits_value_bound more Hd) as B.
    rewrite digits_value_cons in Hv. change (digit_val "0") with 0 in Hv.
    cbn [length] in Hlen. rewrite <- Hlen in Hlow.
    rewrite Nat2Z.inj_succ in Hlow.
    replace (Z.succ (Z.of_nat (length more)) - 1)
      with (Z.of_nat (length more)) in Hlow by lia.
    lia.
Qed.

(** What [operator<<(int)] writes is the decimal numeral of its
    argument. *)
Lemma fmt_int_decimal_numeral (v : Z) : decimal_numeral v (fmt_int v).
Proof.
  unfold decimal_numeral, fmt_int. destruct (v <? 0) eqn:E.
  - apply Z.ltb_lt in E. exists (decimal (- v)).
    split; [reflexivity|]. split.
    { pose proof (decimal_length (- v)).
      destruct (decimal (- v)); [simpl in *; lia | discriminate]. }
    split; [apply decimal_digits; lia|].
    split; [rewrite decimal_value by lia; lia|].
    intros more. apply decimal_no_leading_zero. lia.
  - apply Z.ltb_ge in E. exists (decimal v).
    split; [reflexivity|]. split.
    { pose proof (decimal_length v).
      destruct (decimal v); [simpl in *; lia | discriminate]. }
    split; [apply decimal_digits; lia|].
    split; [rewrite decimal_value by lia; lia|].
    intros more. apply decimal_no_leading_zero. exact E.
Qed.

(** An integer has one decimal numeral. *)
Lemma decimal_numeral_unique (v : Z) (s t : list char) :
  decimal_numeral v s -> decimal_numeral v t -> s = t.
Proof.
  intros (a & -> & Ha & Hda & Hva & Hza) (b & -> & Hb & Hdb & Hvb & Hzb).
  f_equal.
  destruct a as [|c a]; [congruence|]. destruct b as [|d b]; [congruence|].
  assert (Hlen : forall (c d : char) (a b : list char),
             forallb isdigit (c :: a) = true ->
             forallb isdigit (d :: b) = true ->
             digits_value (c :: a) = digits_value (d :: b) ->
             (forall more, c :: a = "0"%char :: more -> more = []) ->
             (forall more, d :: b = "0"%char :: more -> more = []) ->
             (length a <= length b)%nat).
  { clear. intros c d a b Hda Hdb Hv Hza Hzb.
    destruct (ascii_dec c "0") as [-> | Hc].
    - rewrite (Hza a eq_refl). simpl. lia.
    - pose proof (digits_value_lower c a Hda Hc) as La.
      pose proof (digits_value_bound (d :: b) Hdb) as Ub.
      rewrite <- Hv in Ub. cbn [length] in Ub.
      destruct (Nat.le_gt_cases (length a) (length b)) as [|Hgt];
        [assumption|].
      assert (10 ^ Z.of_nat (S (length b)) <= 10 ^ Z.of_nat (length a))
        by (apply Z.pow_le_mono_r; lia).
      lia. }
  apply digits_value_inj; try assumption; [|lia].
  cbn [length]. f_equal. apply Nat.le_antisymm.
  - apply (Hlen c d); try assumption. lia.
  - apply (Hlen d c); try assumption. lia.
Qed.

(** ** The last step *)

(** C8, as the code has it.  The last step reads with
    [getline(input, 256)] and doubles with [y * 2] in [int].  On a good
    stream whose pending input is a line of fewer than 256 characters
    ended by a newline, when [atoi] of the line is defined and twice its
    value is an [int], the step reads the whole line and its newline,
    leaves the stream good, and echoes [doubled: ] followed by the
    decimal numeral of exactly twice the value and a newline.  [atoi]
    gives 0 for [abc] and 42 for [42x]. *)
Theorem atoi_step_echoes_double
    (line rest : list char) (y : Z) (w : console) :
  good (cin w) = true ->
  os_width (cout w) = 0 ->
  pending (cin w) = line ++ NL :: rest ->
  NL ∉ line ->
  (length line < 256)%nat ->
  atoi line = Some y ->
  INT_MIN <= y * 2 <= INT_MAX ->
  (exists numeral,
     decimal_numeral (y * 2) numeral
     /\ atoi_step w
        = Some (y,
                Console (IStream rest goodbit (Z.of_nat (S (length line))))
                        (emit (chars "input a number: doubled: "
                                 ++ numeral ++ [NL])
                              (cout w))))
  /\ atoi (chars "abc") = Some 0
  /\ atoi (chars "42x") = Some 42.
Proof.
  intros Hg Hw Hp Hnl Hlen Hy Hr.
  split; [|split; reflexivity].
  exists (fmt_int (y * 2)). split; [apply fmt_int_decimal_numeral|].
  destruct w as [i o]. cbn [cin cout] in *.
  unfold atoi_step. unfold_prog. emit_chain.
  pose proof (getline_line 256 (uninitialized 256) i line rest
                Hg Hp Hnl Hlen eq_refl) as Hgl.
  change (Z.of_nat 256) with 256 in Hgl. rewrite Hgl.
  rewrite c_str_holds_text, atoi_until_nul, Hy.
  unfold int_mul, in_int.
  replace ((INT_MIN <=? y * 2) && (y * 2 <=? INT_MAX)) with true
    by (symmetry; apply andb_true_iff; split; apply Z.leb_le; lia).
  emit_chain. same_text.
Qed.

Lemma atoi_step_echoes_double_witness :
  (exists numeral,
     decimal_numeral (-21 * 2) numeral
     /\ atoi_step
          (Console (cin_init (chars " -21 apples" ++ NL :: chars "more"))
                   cout_init)
        = Some (-21,
                Console (IStream (chars "more") goodbit
                                 (Z.of_nat (S (length (chars " -21 apples")))))
                        (emit (chars "input a number: doubled: "
                                 ++ numeral ++ [NL])
                              (cout (Console
                                       (cin_init (chars " -21 apples"
                                                    ++ NL :: chars "more"))
                                       cout_init)))))
  /\ atoi (chars "abc") = Some 0
  /\ atoi (chars "42x") = Some 42.
Proof.
  apply (atoi_step_echoes_double (chars " -21 apples") (chars "more") (-21)
           (Console (cin_init (chars " -21 apples" ++ NL :: chars "more"))
                    cout_init)).
  - reflexivity.
  - reflexivity.
  - reflexivity.
  - apply (bool_decide_unpack _). vm_compute. exact I.
  - simpl. lia.
  - reflexivity.
  - vm_compute. split; discriminate.
Defined.

(** C8, as the specification has it, fails in two ways.  A line of 256
    characters or more is not read in full: of 254 blanks followed by
    [123] the step reads the blanks and the [1], leaves [23] and the
    newline unread with [failbit] set, and echoes [doubled: 2], although
    the line converts to 123.  And for [1073741824] the product [y * 2]
    is not an [int], so the step has no defined echo. *)
Lemma atoi_step_misses_long_lines_and_large_values :
  let line := repeat " "%char 254 ++ chars "123" in
  let w := Console (cin_init (line ++ [NL])) cout_init in
  atoi line = Some 123
  /\ (exists w',
        atoi_step w = Some (1, w')
        /\ written (cout w') = chars "input a number: doubled: 2" ++ [NL]
        /\ pending (cin w') = chars "23" ++ [NL]
        /\ good (cin w') = false)
  /\ atoi (chars "1073741824") = Some 1073741824
  /\ atoi_step (Console (cin_init (chars "1073741824" ++ [NL])) cout_init)
     = None.
Proof.
  split; [vm_compute; reflexivity|].
  split.
  { eexists. split; [vm_compute; reflexivity|].
    split; [reflexivity|]. split; reflexivity. }
  split; vm_compute; reflexivity.
Qed.

(** ** Powers of ten and fractions as rationals *)

Lemma ten_pos (t : Z) : (0 < 10 ^ t)%Q.
Proof. apply Qpower_0_lt. reflexivity. Qed.

Lemma ten_add (a b : Z) : (10 ^ (a + b) == 10 ^ a * 10 ^ b)%Q.
Proof. apply Qpower_plus. discriminate. Qed.

Lemma ten_succ (a : Z) : (10 ^ (a + 1) == 10 ^ a * 10)%Q.
Proof. rewrite ten_add. reflexivity. Qed.

Lemma ten_inject (k : Z) : 0 <= k -> (inject_Z (10 ^ k) == 10 ^ k)%Q.
Proof. intros H. apply (Zpower_Qpower 10 k H). Qed.

Lemma ten_opp (k : Z) : (10 ^ (- k) * 10 ^ k == 1)%Q.
Proof.
  rewrite <- ten_add. replace (- k + k) with 0 by lia. reflexivity.
Qed.

Lemma inject_Z_pos (d : Z) : 0 < d -> (0 < inject_Z d)%Q.
Proof. intros H. rewrite Zlt_Qlt in H. exact H. Qed.

Lemma Qfrac_mul (v : fraction) :
  0 < snd v -> (Qfrac v * inject_Z (snd v) == inject_Z (fst v))%Q.
Proof.
  intros H. unfold Qfrac. field.
  intros E. apply inject_Z_pos in H. rewrite E in H. discriminate H.
Qed.

Lemma Qfrac_unique (v : fraction) (x : Q) :
  0 < snd v -> (x * inject_Z (snd v) == inject_Z (fst v))%Q ->
  (Qfrac v == x)%Q.
Proof.
  intros H E. unfold Qfrac. rewrite <- E. field.
  intros E0. apply inject_Z_pos in H. rewrite E0 in H. discriminate H.
Qed.

Lemma scale10_den_pos (v : fraction) (k : Z) :
  0 < snd v -> 0 < snd (scale10 v k).
Proof.
  destruct v as [n d]. unfold scale10. simpl. intros H.
  destruct (0 <=? k) eqn:E; simpl; [exact H|].
  apply Z.leb_gt in E.
  apply Z.mul_pos_pos; [exact H | apply Z.pow_pos_nonneg; lia].
Qed.

Lemma scale10_num_nonneg (v : fraction) (k : Z) :
  0 <= fst v -> 0 <= fst (scale10 v k).
Proof.
  destruct v as [n d]. unfold scale10. simpl. intros H.
  destruct (0 <=? k) eqn:E; simpl; [|exact H].
  apply Z.mul_nonneg_nonneg; [exact H | apply Z.pow_nonneg; lia].
Qed.

(** [scale10] multiplies the value by the power of ten. *)
Lemma Qfrac_scale10 (v : fraction) (k : Z) :
  0 < snd v -> (Qfrac (scale10 v k) == Qfrac v * 10 ^ k)%Q.
Proof.
  intros H. apply Qfrac_unique; [apply scale10_den_pos; exact H|].
  pose proof (Qfrac_mul v H) as E.
  destruct v as [n d]. unfold scale10. cbn [fst snd] in *.
  destruct (0 <=? k) eqn:Ek; cbn [fst snd].
  - apply Z.leb_le in Ek.
    rewrite inject_Z_mult, ten_inject, <- E by exact Ek. ring.
  - apply Z.leb_gt in Ek.
    rewrite inject_Z_mult, ten_inject, <- E by lia.
    transitivity (Qfrac (n, d) * inject_Z d * (10 ^ (- - k) * 10 ^ (- k)))%Q.
    + rewrite Z.opp_involutive. ring.
    + rewrite ten_opp. ring.
Qed.

(** ** Rounding to the nearest integer *)

Lemma round_nearest_Z (n d : Z) :
  0 < d ->
  - d <= 2 * (round_nearest (n, d) * d - n) <= d.
Proof.
  intros Hd. unfold round_nearest.
  pose proof (Z.div_mod n d) as Hdm.
  pose proof (Z.mod_pos_bound n d Hd) as Hm.
  destruct (2 * (n mod d) <? d) eqn:E1; [apply Z.ltb_lt in E1; nia|].
  apply Z.ltb_ge in E1.
  destruct (d <? 2 * (n mod d)) eqn:E2; [apply Z.ltb_lt in E2; nia|].
  apply Z.ltb_ge in E2.
  destruct (Z.even (n / d)); nia.
Qed.

Lemma round_nearest_Q (v : fraction) :
  0 < snd v ->
  (Qabs (inject_Z (round_nearest v) - Qfrac v) <= 1 # 2)%Q.
Proof.
  intros Hd. pose proof (Qfrac_mul v Hd) as E.
  destruct v as [n d]. cbn [fst snd] in *.
  pose proof (round_nearest_Z n d Hd) as [H1 H2].
  pose proof (inject_Z_pos d Hd) as HD.
  unfold Z.sub in H1, H2. rewrite Zle_Qle in H1, H2.
  rewrite !inject_Z_mult, inject_Z_plus, !inject_Z_mult, !inject_Z_opp in H1.
  rewrite !inject_Z_mult, inject_Z_plus, !inject_Z_mult, !inject_Z_opp in H2.
  set (r := inject_Z (round_nearest (n, d))) in *.
  set (D := inject_Z d) in *. set (V := Qfrac (n, d)) in *.
  change (inject_Z 2) with 2%Q in *.
  apply Qabs_Qle_condition. split.
  - apply (Qmult_lt_0_le_reg_r _ _ D HD). lra.
  - apply (Qmult_lt_0_le_reg_r _ _ D HD). lra.
Qed.

Lemma round_nearest_nonneg (v : fraction) :
  0 <= fst v -> 0 < snd v -> 0 <= round_nearest v.
Proof.
  destruct v as [n d]. cbn [fst snd]. intros Hn Hd.
  unfold round_nearest.
  assert (0 <= n / d) by (apply Z.div_pos; lia).
  destruct (2 * (n mod d) <? d); [lia|].
  destruct (d <? 2 * (n mod d)); [lia|].
  destruct (Z.even (n / d)); lia.
Qed.

(** ** The decimal exponent *)

Lemma ndigits_Q (n : Z) :
  1 <= n ->
  (10 ^ (Z.of_nat (ndigits n) - 1) <= inject_Z n
   /\ inject_Z n < 10 ^ (Z.of_nat (ndigits n) - 1) * 10)%Q.
Proof.
  intros Hn. pose proof (ndigits_spec n Hn) as [H1 H2].
  pose proof (ndigits_pos n) as Hp.
  rewrite Zle_Qle in H1. rewrite Zlt_Qlt in H2.
  rewrite ten_inject in H1 by lia. rewrite ten_inject in H2 by lia.
  split; [exact H1|].
  rewrite <- ten_succ.
  replace (Z.of_nat (ndigits n) - 1 + 1) with (Z.of_nat (ndigits n)) by lia.
  exact H2.
Qed.

Lemma Qfrac_ge_1 (v : fraction) :
  0 < snd v -> snd v <= fst v -> (1 <= Qfrac v)%Q.
Proof.
  intros Hd H. pose proof (Qfrac_mul v Hd) as E.
  pose proof (inject_Z_pos _ Hd) as HD.
  rewrite Zle_Qle in H.
  apply (Qmult_lt_0_le_reg_r _ _ _ HD). lra.
Qed.

Lemma Qfrac_lt_1 (v : fraction) :
  0 < snd v -> fst v < snd v -> (Qfrac v < 1)%Q.
Proof.
  intros Hd H. pose proof (Qfrac_mul v Hd) as E.
  pose proof (inject_Z_pos _ Hd) as HD.
  rewrite Zlt_Qlt in H.
  apply (Qmult_lt_r _ _ _ HD). lra.
Qed.

(** [exponent10] is the decimal exponent of a positive value. *)
Lemma exponent10_spec (v : fraction) :
  0 < fst v -> 0 < snd v ->
  (10 ^ exponent10 v <= Qfrac v /\ Qfrac v < 10 ^ (exponent10 v + 1))%Q.
Proof.
  intros Hn Hd.
  pose proof (Qfrac_mul v Hd) as E.
  pose proof (inject_Z_pos _ Hd) as HD.
  unfold exponent10. destruct v as [n d]. cbn [fst snd] in *.
  set (a := Z.of_nat (ndigits n)). set (b := Z.of_nat (ndigits d)).
  destruct (ndigits_Q n) as [Ha1 Ha2]; [lia|]. fold a in Ha1, Ha2.
  destruct (ndigits_Q d) as [Hb1 Hb2]; [lia|]. fold b in Hb1, Hb2.
  pose proof (Qfrac_scale10 (n, d) (- (a - b)) Hd) as Es.
  pose proof (scale10_den_pos (n, d) (- (a - b)) Hd) as Hd'.
  assert (EC : (10 ^ (a - b) * 10 ^ (b - 1) == 10 ^ (a - 1))%Q).
  { rewrite <- ten_add. replace (a - b + (b - 1)) with (a - 1) by lia.
    reflexivity. }
  pose proof (ten_opp (a - b)) as ET.
  pose proof (ten_pos (a - b)) as HC.
  pose proof (ten_pos (- (a - b))) as HT.
  pose proof (ten_pos (b - 1)) as HB.
  pose proof (ten_pos (a - 1)) as HA.
  set (V := Qfrac (n, d)) in *.
  destruct (scale10 (n, d) (- (a - b))) as [n' d'] eqn:Esc.
  cbn [snd] in Hd'.
  destruct (d' <=? n') eqn:Et.
  - apply Z.leb_le in Et.
    pose proof (Qfrac_ge_1 (n', d') Hd' Et) as H1. rewrite Es in H1.
    rewrite ten_succ.
    set (C := (10 ^ (a - b))%Q) in *. set (T := (10 ^ (- (a - b)))%Q) in *.
    set (A := (10 ^ (a - 1))%Q) in *. set (B := (10 ^ (b - 1))%Q) in *.
    set (D := inject_Z d) in *. set (N := inject_Z n) in *.
    split.
    + assert (H : (C * 1 <= C * (V * T))%Q)
        by (apply Qmult_le_l; assumption).
      assert (E2 : (C * (V * T) == V * (T * C))%Q) by ring.
      rewrite E2, ET in H. lra.
    + apply (Qmult_lt_r _ _ D HD).
      assert (H : (C * B * 10 <= C * D * 10)%Q).
      { apply Qmult_le_compat_r; [|lra].
        apply Qmult_le_l; assumption. }
      lra.
  - apply Z.leb_gt in Et.
    pose proof (Qfrac_lt_1 (n', d') Hd' Et) as H1. rewrite Es in H1.
    replace (a - b - 1 + 1) with (a - b) by lia.
    assert (EC' : (10 ^ (a - b - 1) * 10 == 10 ^ (a - b))%Q).
    { rewrite <- ten_succ. replace (a - b - 1 + 1) with (a - b) by lia.
      reflexivity. }
    pose proof (ten_pos (a - b - 1)) as HC'.
    set (C := (10 ^ (a - b))%Q) in *. set (T := (10 ^ (- (a - b)))%Q) in *.
    set (C' := (10 ^ (a - b - 1))%Q) in *.
    set (A := (10 ^ (a - 1))%Q) in *. set (B := (10 ^ (b - 1))%Q) in *.
    set (D := inject_Z d) in *. set (N := inject_Z n) in *.
    split.
    + apply (Qmult_lt_0_le_reg_r _ _ D HD).
      assert (H : (C' * D <= C' * (B * 10))%Q).
      { apply Qmult_le_l; [assumption | lra]. }
      assert (E3 : (C' * (B * 10) == (C' * 10) * B)%Q) by ring.
      rewrite E3, EC', EC in H. lra.
    + assert (H : (C * (V * T) < C * 1)%Q)
        by (apply Qmult_lt_l; assumption).
      assert (E2 : (C * (V * T) == V * (T * C))%Q) by ring.
      rewrite E2, ET in H. lra.
Qed.

(** ** The digits of style [e] *)

Lemma Z_of_Q_lt (a b : Z) : (inject_Z a < inject_Z b + 1)%Q -> a <= b.
Proof.
  intros H. change 1%Q with (inject_Z 1) in H.
  rewrite <- inject_Z_plus, <- Zlt_Qlt in H. lia.
Qed.

(** An integer within one half of a value that lies in the decade
    [10^q, 10^(q+1)) lies in the closed decade. *)
Lemma round_in_decade (q r : Z) (S : Q) :
  0 <= q ->
  (10 ^ q <= S)%Q -> (S < 10 ^ q * 10)%Q ->
  (Qabs (inject_Z r - S) <= 1 # 2)%Q ->
  10 ^ q <= r <= 10 ^ (q + 1).
Proof.
  intros Hq H1 H2 Hr.
  apply Qabs_Qle_condition in Hr as [Hr1 Hr2].
  rewrite <- ten_inject in H1, H2 by exact Hq.
  split.
  - apply Z_of_Q_lt. lra.
  - rewrite Z.pow_add_r, Z.pow_1_r by lia.
    apply Z_of_Q_lt. rewrite inject_Z_mult. change (inject_Z 10) with 10%Q.
    lra.
Qed.

(** For a positive value [v], [e_digits q v] is a number [r] of exactly
    [q + 1] digits and an exponent [x] such that [r * 10^(x - q)] is [v]
    rounded at the weight [10^(x0 - q)] of its [(q+1)]-th significant
    digit, [x0] being the decimal exponent of [v]; and rounding [v] to
    [q - x] digits after the point gives the same [r]. *)
Lemma e_digits_spec (q : Z) (v : fraction) :
  0 <= q -> 0 < fst v -> 0 < snd v ->
  let r := fst (e_digits q v) in
  let x := snd (e_digits q v) in
  10 ^ q <= r < 10 ^ (q + 1)
  /\ round_nearest (scale10 v (q - x)) = r
  /\ exists x0 r0 : Z,
       (10 ^ x0 <= Qfrac v /\ Qfrac v < 10 ^ (x0 + 1)
        /\ Qabs (Qfrac v - inject_Z r0 * 10 ^ (x0 - q))
           <= (1 # 2) * 10 ^ (x0 - q)
        /\ inject_Z r * 10 ^ (x - q) == inject_Z r0 * 10 ^ (x0 - q))%Q.
Proof.
  intros Hq Hn Hd.
  pose proof (exponent10_spec v Hn Hd) as [Hx1 Hx2].
  unfold e_digits. set (x0 := exponent10 v) in *.
  pose proof (Qfrac_scale10 v (q - x0) Hd) as Es.
  pose proof (round_nearest_Q (scale10 v (q - x0))
                (scale10_den_pos v (q - x0) Hd)) as Hr.
  set (r0 := round_nearest (scale10 v (q - x0))) in *.
  rewrite Es in Hr.
  pose proof (ten_pos (q - x0)) as HK.
  pose proof (ten_pos (x0 - q)) as HK'.
  assert (EK : (10 ^ (x0 - q) * 10 ^ (q - x0) == 1)%Q).
  { rewrite <- ten_add. replace (x0 - q + (q - x0)) with 0 by lia.
    reflexivity. }
  assert (EQ : (10 ^ x0 * 10 ^ (q - x0) == 10 ^ q)%Q).
  { rewrite <- ten_add. replace (x0 + (q - x0)) with q by lia. reflexivity. }
  assert (HS1 : (10 ^ q <= Qfrac v * 10 ^ (q - x0))%Q).
  { rewrite <- EQ. apply Qmult_le_compat_r; [exact Hx1 | lra]. }
  assert (HS2 : (Qfrac v * 10 ^ (q - x0) < 10 ^ q * 10)%Q).
  { rewrite <- EQ.
    rewrite ten_succ in Hx2.
    assert (H : (Qfrac v * 10 ^ (q - x0) < 10 ^ x0 * 10 * 10 ^ (q - x0))%Q)
      by (apply Qmult_lt_compat_r; assumption).
    lra. }
  pose proof (round_in_decade q r0 _ Hq HS1 HS2 Hr) as [Hr1 Hr2].
  (* the distance of [v] from [r0 * 10^(x0 - q)] *)
  assert (Hdist : (Qabs (Qfrac v - inject_Z r0 * 10 ^ (x0 - q))
                   <= (1 # 2) * 10 ^ (x0 - q))%Q).
  { assert (E1 : (Qfrac v - inject_Z r0 * 10 ^ (x0 - q)
                  == - ((inject_Z r0 - Qfrac v * 10 ^ (q - x0))
                        * 10 ^ (x0 - q)))%Q).
    { transitivity
        (Qfrac v * (10 ^ (x0 - q) * 10 ^ (q - x0))
         - inject_Z r0 * 10 ^ (x0 - q))%Q; [rewrite EK|]; ring. }
    rewrite E1, Qabs_opp, Qabs_Qmult, (Qabs_pos (10 ^ (x0 - q))) by lra.
    apply Qmult_le_compat_r; [exact Hr | lra]. }
  destruct (r0 =? 10 ^ (q + 1)) eqn:Ec; cbn [fst snd].
  - (* rounding carried *)
    apply Z.eqb_eq in Ec.
    assert (Hp : 0 < 10 ^ q) by (apply Z.pow_pos_nonneg; lia).
    split; [rewrite Z.pow_add_r, Z.pow_1_r by lia; lia|].
    split.
    + pose proof (Qfrac_scale10 v (q - (x0 + 1)) Hd) as Es'.
      pose proof (round_nearest_Q (scale10 v (q - (x0 + 1)))
                    (scale10_den_pos v (q - (x0 + 1)) Hd)) as Hr'.
      set (r' := round_nearest (scale10 v (q - (x0 + 1)))) in *.
      rewrite Es' in Hr'.
      assert (E10 : (10 ^ (q - (x0 + 1)) * 10 == 10 ^ (q - x0))%Q).
      { rewrite <- ten_succ.
        replace (q - (x0 + 1) + 1) with (q - x0) by lia. reflexivity. }
      apply Qabs_Qle_condition in Hr as [Ha Hb].
      apply Qabs_Qle_condition in Hr' as [Ha' Hb'].
      rewrite Ec, Z.pow_add_r, Z.pow_1_r, inject_Z_mult in Ha, Hb by lia.
      change (inject_Z 10) with 10%Q in Ha, Hb.
      rewrite <- E10 in Ha, Hb, HS2.
      rewrite <- (ten_inject q Hq) in HS2.
      set (S' := (Qfrac v * 10 ^ (q - (x0 + 1)))%Q) in *.
      assert (Ea : (Qfrac v * (10 ^ (q - (x0 + 1)) * 10) == S' * 10)%Q)
        by (unfold S'; ring).
      rewrite Ea in Ha, Hb, HS2.
      apply Z.le_antisymm; apply Z_of_Q_lt; lra.
    + exists x0, r0. repeat split; try assumption.
      rewrite Ec, Z.pow_add_r, Z.pow_1_r, inject_Z_mult by lia.
      change (inject_Z 10) with 10%Q.
      replace (x0 + 1 - q) with (x0 - q + 1) by lia.
      rewrite ten_succ. ring.
  - (* no carry *)
    apply Z.eqb_neq in Ec.
    split; [lia|]. split; [reflexivity|].
    exists x0, r0. repeat split; assumption.
Qed.

(** ** Reading a rendered numeral back *)

Lemma read_exponent_render (x : Z) : read_exponent (render_exp x) = Some x.
Proof.
  unfold render_exp, read_exponent.
  set (ds := if Z.abs x <? 10 then digits_fixed 2 (Z.abs x)
             else decimal (Z.abs x)).
  assert (Hd : forallb isdigit ds = true).
  { unfold ds. destruct (Z.abs x <? 10);
      [apply digits_fixed_digits | apply decimal_digits]; lia. }
  assert (Hl : Nat.eqb (length ds) 0 = false).
  { apply Nat.eqb_neq. unfold ds. destruct (Z.abs x <? 10).
    - rewrite digits_fixed_length. lia.
    - pose proof (decimal_length (Z.abs x)). lia. }
  assert (Hv : digits_value ds = Z.abs x).
  { unfold ds. destruct (Z.abs x <? 10) eqn:E.
    - apply Z.ltb_lt in E. rewrite digits_fixed_value by lia.
      apply Z.mod_small. change (10 ^ Z.of_nat 2) with 100. lia.
    - apply decimal_value. lia. }
  destruct (x <? 0) eqn:Ex.
  - apply Z.ltb_lt in Ex. cbn [Ascii.eqb is_sign]. simpl.
    rewrite Hd, Hl. simpl. rewrite Hv. f_equal. lia.
  - apply Z.ltb_ge in Ex. simpl. rewrite Hd, Hl. simpl. rewrite Hv.
    f_equal. lia.
Qed.

Lemma isdigit_not_minus (c : char) :
  isdigit c = true -> Ascii.eqb c "-" = false.
Proof.
  intros H. destruct (Ascii.eqb c "-") eqn:E; [|reflexivity].
  apply Ascii.eqb_eq in E. subst c. discriminate H.
Qed.

Lemma take_digits_before_exp (ds : list char) (ex : option Z) :
  forallb isdigit ds = true ->
  take_digits (ds ++ match ex with Some x => render_exp x | None => [] end)
  = (ds, match ex with Some x => render_exp x | None => [] end).
Proof.
  intros H. destruct ex as [x|].
  - apply take_digits_until; [exact H | reflexivity].
  - rewrite app_nil_r. apply take_digits_all. exact H.
Qed.

Lemma read_exponent_opt (ex : option Z) :
  read_exponent (match ex with Some x => render_exp x | None => [] end)
  = Some (default 0 ex).
Proof.
  destruct ex as [x|]; [apply read_exponent_render | reflexivity].
Qed.

Lemma take_minus_sign (neg : bool) (ip rest : list char) :
  ip <> [] -> forallb isdigit ip = true ->
  take_minus ((if neg then chars "-" else []) ++ ip ++ rest)
  = (neg, ip ++ rest).
Proof.
  intros Hne Hip. destruct neg; [reflexivity|].
  destruct ip as [|c ip]; [congruence|].
  simpl in Hip. apply andb_true_iff in Hip as [Hc _].
  simpl. rewrite (isdigit_not_minus c Hc). reflexivity.
Qed.

(** The text of a well-formed numeral reads back as its value. *)
Lemma text_value_render (neg : bool) (u : numeral) :
  well_formed u ->
  text_value ((if neg then chars "-" else []) ++ render u)
  = Some (numeral_value neg u).
Proof.
  destruct u as [ip fp ex]. intros (Hne & Hip & Hfp).
  cbn [int_part frac_part] in *.
  unfold numeral_value, render, text_value.
  cbn [int_part frac_part exp_part].
  rewrite take_minus_sign by assumption.
  set (tail := match ex with Some x => render_exp x | None => [] end).
  destruct fp as [|f fp].
  - cbn [app]. unfold tail. rewrite take_digits_before_exp by exact Hip.
    fold tail. destruct ip as [|c ip]; [congruence|].
    assert (Hf : take_fraction tail = Some ([], tail)).
    { unfold tail. destruct ex; reflexivity. }
    rewrite Hf. unfold tail. rewrite read_exponent_opt. reflexivity.
  - cbn [app].
    rewrite take_digits_until by (try exact Hip; reflexivity).
    destruct ip as [|c ip]; [congruence|].
    unfold take_fraction. simpl Ascii.eqb. cbn iota.
    change (f :: fp ++ tail) with ((f :: fp) ++ tail).
    unfold tail. rewrite take_digits_before_exp by exact Hfp.
    rewrite read_exponent_opt. reflexivity.
Qed.

(** ** The numerals of the three styles *)

Lemma split_at_point (r q : Z) :
  0 <= r -> 0 <= q ->
  forall ip : list char,
    digits_value ip = r / 10 ^ q ->
    digits_value (ip ++ digits_fixed (Z.to_nat q) (r mod 10 ^ q)) = r.
Proof.
  intros Hr Hq ip Hip.
  assert (Hp : 0 < 10 ^ q) by (apply Z.pow_pos_nonneg; lia).
  rewrite digits_value_app, digits_fixed_length, Hip.
  rewrite digits_fixed_value by (apply Z.mod_pos_bound; exact Hp).
  rewrite Z2Nat.id by exact Hq.
  rewrite Z.mod_mod by lia.
  pose proof (Z.div_mod r (10 ^ q)). lia.
Qed.

(** Style [f]: the digits are those of the value rounded to [q] places. *)
Lemma style_f_numeral (q : Z) (v : fraction) :
  0 <= q -> 0 <= fst v -> 0 < snd v ->
  let u := style_f q v in
  well_formed u
  /\ digits_value (int_part u ++ frac_part u) = round_nearest (scale10 v q)
  /\ length (frac_part u) = Z.to_nat q
  /\ exp_part u = None.
Proof.
  intros Hq Hn Hd. unfold style_f, well_formed.
  cbn [int_part frac_part exp_part].
  set (r := round_nearest (scale10 v q)).
  assert (Hr : 0 <= r).
  { apply round_nearest_nonneg;
      [apply scale10_num_nonneg | apply scale10_den_pos]; assumption. }
  assert (Hp : 0 < 10 ^ q) by (apply Z.pow_pos_nonneg; lia).
  assert (Hi : 0 <= r / 10 ^ q) by (apply Z.div_pos; lia).
  split; [split; [|split]|split; [|split]].
  - intros E. pose proof (decimal_length (r / 10 ^ q)) as Hl.
    rewrite E in Hl. simpl in Hl. lia.
  - apply decimal_digits. exact Hi.
  - apply digits_fixed_digits. apply Z.mod_pos_bound. exact Hp.
  - apply split_at_point; [exact Hr | exact Hq |].
    apply decimal_value. exact Hi.
  - apply digits_fixed_length.
  - reflexivity.
Qed.

(** Style [e]: the digits are those of [e_digits]. *)
Lemma style_e_numeral (q : Z) (v : fraction) :
  0 <= q -> 0 < fst v -> 0 < snd v ->
  let u := style_e q v in
  well_formed u
  /\ digits_value (int_part u ++ frac_part u) = fst (e_digits q v)
  /\ length (frac_part u) = Z.to_nat q
  /\ exp_part u = Some (snd (e_digits q v)).
Proof.
  intros Hq Hn Hd. unfold style_e.
  replace (fst v =? 0) with false by (symmetry; apply Z.eqb_neq; lia).
  pose proof (e_digits_spec q v Hq Hn Hd) as ((Hr1 & Hr2) & _).
  destruct (e_digits q v) as [r x]. cbn [fst snd] in *.
  unfold well_formed. cbn [int_part frac_part exp_part].
  assert (Hp : 0 < 10 ^ q) by (apply Z.pow_pos_nonneg; lia).
  assert (Hi : 0 <= r / 10 ^ q < 10).
  { split; [apply Z.div_pos; lia|].
    apply Z.div_lt_upper_bound; [exact Hp|].
    rewrite Z.pow_add_r, Z.pow_1_r in Hr2 by lia. lia. }
  split; [split; [|split]|split; [|split]].
  - intros E. apply (f_equal length) in E.
    rewrite digits_fixed_length in E. discriminate E.
  - apply digits_fixed_digits. lia.
  - apply digits_fixed_digits. apply Z.mod_pos_bound. exact Hp.
  - apply split_at_point; [lia | exact Hq |].
    rewrite digits_fixed_value by lia.
    apply Z.mod_small. change (10 ^ Z.of_nat 1) with 10. lia.
  - apply digits_fixed_length.
  - reflexivity.
Qed.

(** Removing the trailing zeros of the fraction keeps the value. *)
Lemma strip_zeros_decimal_Q (neg : bool) (ip fp : list char) (x : Z) :
  (decimal_Q neg (digits_value (ip ++ strip_zeros fp))
             (length (strip_zeros fp)) x
   == decimal_Q neg (digits_value (ip ++ fp)) (length fp) x)%Q.
Proof.
  unfold decimal_Q.
  pose proof (strip_zeros_length fp) as Hl.
  rewrite (digits_value_app ip fp), (strip_zeros_value fp).
  rewrite (digits_value_app ip (strip_zeros fp)).
  set (a := Z.of_nat (length fp)) in *.
  set (b := Z.of_nat (length (strip_zeros fp))) in *.
  assert (Hab : 0 <= a - b) by lia.
  replace (digits_value ip * 10 ^ a
           + digits_value (strip_zeros fp) * 10 ^ (a - b))
    with ((digits_value ip * 10 ^ b + digits_value (strip_zeros fp))
          * 10 ^ (a - b)).
  2:{ replace a with (b + (a - b)) at 2 by lia.
      rewrite Z.pow_add_r by lia. ring. }
  rewrite inject_Z_mult, ten_inject by exact Hab.
  replace (x - b) with (a - b + (x - a)) by lia.
  rewrite ten_add. ring.
Qed.

Lemma strip_zeros_well_formed (ip fp : list char) (ex : option Z) :
  well_formed (Numeral ip fp ex) ->
  well_formed (Numeral ip (strip_zeros fp) ex).
Proof.
  intros (H1 & H2 & H3). repeat split; try assumption.
  apply strip_zeros_digits. exact H3.
Qed.

(** The [%g] numeral of a positive value, for a precision [P >= 1]: it
    is well formed and its value is the [P] digits of [e_digits] at
    their exponent. *)
Lemma style_g_numeral (p : Z) (v : fraction) :
  1 <= p -> 0 < fst v -> 0 < snd v ->
  let u := style_g p v in
  let r := fst (e_digits (p - 1) v) in
  let x := snd (e_digits (p - 1) v) in
  well_formed u
  /\ forall neg,
       (numeral_value neg u
        == (if neg then -1 else 1) * inject_Z r * 10 ^ (x - (p - 1)))%Q.
Proof.
  intros Hp Hn Hd. unfold style_g.
  replace (g_precision p) with p
    by (unfold g_precision;
        destruct (p =? 0) eqn:E1; [apply Z.eqb_eq in E1; lia|];
        destruct (p <? 0) eqn:E2; [apply Z.ltb_lt in E2; lia | reflexivity]).
  assert (Hq : 0 <= p - 1) by lia.
  pose proof (style_e_numeral (p - 1) v Hq Hn Hd) as (Hwe & Hve & Hle & Hxe).
  pose proof (e_digits_spec (p - 1) v Hq Hn Hd) as (_ & Hround & _).
  rewrite Hxe. cbn [default from_option]. unfold id.
  set (r := fst (e_digits (p - 1) v)) in *.
  set (x := snd (e_digits (p - 1) v)) in *.
  destruct ((x <? p) && (-4 <=? x)) eqn:Ec.
  - (* style f *)
    apply andb_true_iff in Ec as [Ex _]. apply Z.ltb_lt in Ex.
    assert (Hqf : 0 <= p - (x + 1)) by lia.
    pose proof (style_f_numeral (p - (x + 1)) v Hqf (Z.lt_le_incl _ _ Hn) Hd)
      as (Hwf & Hvf & Hlf & Hxf).
    replace (p - (x + 1)) with (p - 1 - x) in * by lia.
    rewrite Hround in Hvf. rewrite Hxf.
    split.
    + apply strip_zeros_well_formed.
      destruct (style_f (p - 1 - x) v). exact Hwf.
    + intros neg. unfold numeral_value. cbn [int_part frac_part exp_part].
      rewrite strip_zeros_decimal_Q, Hvf, Hlf.
      unfold decimal_Q. cbn [default from_option]. unfold id.
      rewrite Z2Nat.id by lia.
      replace (0 - (p - 1 - x)) with (x - (p - 1)) by lia. reflexivity.
  - (* style e *)
    rewrite Hxe. split.
    + apply strip_zeros_well_formed.
      destruct (style_e (p - 1) v) as [ip fp ex]. cbn [exp_part] in Hxe.
      subst ex. exact Hwe.
    + intros neg. unfold numeral_value. cbn [int_part frac_part exp_part].
      rewrite strip_zeros_decimal_Q, Hve, Hle.
      unfold decimal_Q. cbn [default from_option]. unfold id.
      rewrite Z2Nat.id by lia. reflexivity.
Qed.

(** The [%g] numeral of zero. *)
Lemma style_g_zero (p : Z) :
  1 <= p ->
  let u := style_g p (0, 1) in
  well_formed u /\ forall neg, (numeral_value neg u == 0)%Q.
Proof.
  intros Hp. unfold style_g.
  replace (g_precision p) with p
    by (unfold g_precision;
        destruct (p =? 0) eqn:E1; [apply Z.eqb_eq in E1; lia|];
        destruct (p <? 0) eqn:E2; [apply Z.ltb_lt in E2; lia | reflexivity]).
  unfold style_e. cbn [fst Z.eqb exp_part default from_option]. unfold id.
  replace ((0 <? p) && (-4 <=? 0)) with true
    by (symmetry; apply andb_true_iff; split;
        [apply Z.ltb_lt; lia | reflexivity]).
  assert (Hqf : 0 <= p - (0 + 1)) by lia.
  pose proof (style_f_numeral (p - (0 + 1)) (0, 1) Hqf (Z.le_refl 0) Z.lt_0_1)
    as (Hwf & Hvf & Hlf & Hxf).
  assert (Hr : round_nearest (scale10 (0, 1) (p - (0 + 1))) = 0).
  { unfold scale10.
    replace (0 <=? p - (0 + 1)) with true by (symmetry; apply Z.leb_le; lia).
    reflexivity. }
  rewrite Hr in Hvf. rewrite Hxf.
  split.
  - apply strip_zeros_well_formed.
    destruct (style_f (p - (0 + 1)) (0, 1)). exact Hwf.
  - intros neg. unfold numeral_value. cbn [int_part frac_part exp_part].
    rewrite strip_zeros_decimal_Q, Hvf. unfold decimal_Q.
    change (inject_Z 0) with 0%Q. ring.
Qed.

(** ** The value of a floating-point number and of its text *)

Lemma magnitude_pos (m : positive) (e : Z) :
  0 < fst (magnitude m e) /\ 0 < snd (magnitude m e).
Proof.
  unfold magnitude. destruct (0 <=? e) eqn:E; cbn [fst snd].
  - apply Z.leb_le in E. split; [|lia].
    apply Z.mul_pos_pos; [lia | apply Z.pow_pos_nonneg; lia].
  - apply Z.leb_gt in E. split; [lia | apply Z.pow_pos_nonneg; lia].
Qed.

Lemma magnitude_value (m : positive) (e : Z) :
  (Qfrac (magnitude m e) == inject_Z (Zpos m) * 2 ^ e)%Q.
Proof.
  apply Qfrac_unique; [apply magnitude_pos|].
  unfold magnitude. destruct (0 <=? e) eqn:E; cbn [fst snd].
  - apply Z.leb_le in E.
    rewrite inject_Z_mult, (Zpower_Qpower 2 e E).
    change (inject_Z 2) with 2%Q. change (inject_Z 1) with 1%Q. ring.
  - apply Z.leb_gt in E.
    rewrite (Zpower_Qpower 2 (- e)) by lia.
    change (inject_Z 2) with 2%Q.
    assert (H : (2 ^ e * 2 ^ (- e) == 1)%Q).
    { rewrite <- Qpower_plus by discriminate.
      replace (e + - e) with 0 by lia. reflexivity. }
    rewrite <- Qmult_assoc, H. ring.
Qed.

Lemma rounded_to_eq (p : Z) (v v' q q' : Q) :
  (v == v')%Q -> (q == q')%Q -> rounded_to p v q -> rounded_to p v' q'.
Proof.
  intros Ev Eq [[Hv Hq] | (t & k & Hq & H1 & H2 & H3)].
  - left. rewrite <- Ev, <- Eq. split; assumption.
  - right. exists t, k. rewrite <- Ev, <- Eq. repeat split; assumption.
Qed.

Lemma rounded_to_opp (p : Z) (v q : Q) :
  rounded_to p v q -> rounded_to p (- v)%Q (- q)%Q.
Proof.
  intros [[Hv Hq] | (t & k & Hq & H1 & H2 & H3)].
  - left. split; [rewrite Hv | rewrite Hq]; reflexivity.
  - right. exists t, (- k). rewrite Qabs_opp.
    repeat split; try assumption.
    + rewrite Hq, inject_Z_opp. ring.
    + assert (E : (- v - - q == - (v - q))%Q) by ring.
      rewrite E, Qabs_opp. exact H3.
Qed.

(** The text that [%g] gives a positive value reads back as that value
    rounded to [p] significant digits. *)
Lemma style_g_rounds (p : Z) (v : fraction) :
  1 <= p -> 0 < fst v -> 0 < snd v ->
  rounded_to p (Qfrac v) (numeral_value false (style_g p v)).
Proof.
  intros Hp Hn Hd.
  pose proof (style_g_numeral p v Hp Hn Hd) as (_ & Hval).
  specialize (Hval false).
  assert (Hq : 0 <= p - 1) by lia.
  pose proof (e_digits_spec (p - 1) v Hq Hn Hd)
    as (_ & _ & x0 & r0 & Hx1 & Hx2 & Hdist & Heq).
  assert (Hv : (0 < Qfrac v)%Q).
  { pose proof (ten_pos x0). lra. }
  right. exists (x0 - (p - 1)), r0.
  rewrite (Qabs_pos (Qfrac v)) by lra.
  replace (x0 - (p - 1) + p - 1) with x0 by lia.
  replace (x0 - (p - 1) + p) with (x0 + 1) by lia.
  split; [|split; [exact Hx1 | split; [exact Hx2|]]].
  - rewrite Hval, <- Heq. ring.
  - assert (E : (numeral_value false (style_g p v)
                 == inject_Z r0 * 10 ^ (x0 - (p - 1)))%Q).
    { rewrite Hval, <- Heq. ring. }
    rewrite E. exact Hdist.
Qed.

Lemma numeral_value_neg (u : numeral) :
  (numeral_value true u == - numeral_value false u)%Q.
Proof. unfold numeral_value, decimal_Q. ring. Qed.

(** C4. For every finite floating-point value [x] and every precision
    [p >= 1], [precision(p)] followed by the write of [x] appends the
    text [fmt_g p x] (padded if a width is pending, bare if the width
    is 0), and that text denotes [x] rounded to [p] significant digits.
    For [9.99999f] and precision 3 the text is [10]. *)
Theorem precision_rounds_to_significant_digits
    (x : spec_float) (p : Z) (os : ostream) :
  isfinite x = true ->
  1 <= p ->
  written (insert_float x (set_precision p os))
    = written os ++ pad (set_precision p os) true (fmt_g p x)
  /\ (os_width os = 0 ->
      written (insert_float x (set_precision p os))
      = written os ++ fmt_g p x)
  /\ (exists q : Q,
        text_value (fmt_g p x) = Some q
        /\ rounded_to p (float_value x) q)
  /\ fmt_g 3 lit_9_99999f = chars "10".
Proof.
  intros Hfin Hp.
  split; [reflexivity|].
  split.
  { intros Hw. unfold insert_float, insert_formatted.
    rewrite pad_width_0 by exact Hw. reflexivity. }
  split; [|apply fmt_g_3_literal].
  destruct x as [s | s | | s m e]; try discriminate Hfin.
  - (* zero *)
    pose proof (style_g_zero p Hp) as (Hwf & Hval).
    exists (numeral_value s (style_g p (0, 1))). split.
    + cbn [fmt_g]. apply text_value_render. exact Hwf.
    + left. split; [reflexivity | apply Hval].
  - (* a non-zero number *)
    pose proof (magnitude_pos m e) as [Hn Hd].
    pose proof (style_g_numeral p _ Hp Hn Hd) as (Hwf & _).
    pose proof (style_g_rounds p _ Hp Hn Hd) as Hr.
    exists (numeral_value s (style_g p (magnitude m e))). split.
    + cbn [fmt_g]. apply text_value_render. exact Hwf.
    + cbn [float_value]. destruct s.
      * apply rounded_to_opp in Hr.
        refine (rounded_to_eq p _ _ _ _ _ _ Hr).
        -- rewrite magnitude_value. ring.
        -- rewrite numeral_value_neg. reflexivity.
      * refine (rounded_to_eq p _ _ _ _ _ _ Hr).
        -- rewrite magnitude_value. ring.
        -- reflexivity.
Qed.

Lemma precision_rounds_to_significant_digits_witness :
  written (insert_float lit_9_99999f (set_precision 3 cout_init))
    = written cout_init
      ++ pad (set_precision 3 cout_init) true (fmt_g 3 lit_9_99999f)
  /\ (os_width cout_init = 0 ->
      written (insert_float lit_9_99999f (set_precision 3 cout_init))
      = written cout_init ++ fmt_g 3 lit_9_99999f)
  /\ (exists q : Q,
        text_value (fmt_g 3 lit_9_99999f) = Some q
        /\ rounded_to 3 (float_value lit_9_99999f) q)
  /\ fmt_g 3 lit_9_99999f = chars "10".
Proof.
  apply (precision_rounds_to_significant_digits lit_9_99999f 3 cout_init).
  - reflexivity.
  - lia.
Defined.

(** ** The literal and a whole session *)

(** [lit_9_99999f] is a binary32 number (24-bit mantissa, exponent in
    range) and no binary32 number is nearer to 9.99999: it is within
    half a unit in the last place, [2^-21], of it. *)
Lemma literal_is_nearest_binary32 :
  SpecFloat.bounded 24 128 10485750 (-20) = true
  /\ (Qabs (float_value lit_9_99999f - 9.99999) <= 2 ^ (-21))%Q.
Proof.
  split; [reflexivity|]. vm_compute. discriminate.
Qed.

(** One run of the whole program: [Enter] at each of the three pauses,
    then the lines [hello], [line two], [line three], an empty line,
    [42], [21x], and a last empty line. *)
Example main_session :
  let input :=
    [NL; NL; NL] ++ chars "hello" ++ NL :: chars "line two" ++ NL
      :: chars "line three" ++ NL :: NL :: chars "42" ++ NL
      :: chars "21x" ++ NL :: [NL] in
  exists w,
    run (main true) input = Some (0, w)
    /\ pending (cin w) = []
    /\ good (cin w) = true
    /\ written (cout w)
       = chars "Press enter to continue." ++ ascii_of_nat 157 :: NL
           :: chars "word"
           ++ chars "9.99999" ++ NL
           :: chars "10" ++ NL
           :: chars "        10" ++ NL
           :: chars "--------10" ++ NL
           :: chars "10--------" ++ NL
           :: chars "10--------" ++ NL
           :: chars "type something:" ++ NL
           :: chars "You typed: hello" ++ NL
           :: chars "type something:" ++ NL
           :: chars "You typed: line two" ++ NL
           :: chars "type something:" ++ NL
           :: chars "You typed: line three" ++ NL
           :: chars "input a number: you input: 42" ++ NL
           :: chars "input a number: doubled: 42" ++ [NL].
Proof.
  eexists. split; [vm_compute; reflexivity|].
  repeat split.
Qed.

(* ===================================================================== *)
(** * Further properties of the operations and of [main] *)
(* ===================================================================== *)

(** ** [put] with an [int] argument *)

Lemma int_to_char_value_mod (char_signed : bool) (z : Z) :
  int_to_char_value char_signed z mod 256 = z mod 256.
Proof.
  unfold int_to_char_value.
  pose proof (Z.mod_pos_bound z 256) as Hm.
  destruct (char_signed && (128 <=? z mod 256)).
  - replace (z mod 256 - 256) with (z mod 256 + (-1) * 256) by lia.
    rewrite Z.mod_add by lia. apply Z.mod_mod. lia.
  - apply Z.mod_mod. lia.
Qed.

(** X1. [put(z)] with any [int] argument [z] writes exactly one byte,
    the byte [z mod 256], whether [char] is signed or unsigned; it reads
    nothing and leaves the formatting state, the width included, as it
    was. *)
Theorem put_writes_low_byte (char_signed : bool) (z : Z) (w : console) :
  cout_put char_signed z w
  = Some (tt,
          Console (cin w)
                  (OStream (written (cout w)
                              ++ [ascii_of_nat (Z.to_nat (z mod 256))])
                           (os_precision (cout w)) (os_width (cout w))
                           (os_fill (cout w)) (os_flags (cout w)))).
Proof.
  unfold cout_put, on_cout, ostream_put, byte_of_char_value.
  rewrite int_to_char_value_mod. reflexivity.
Qed.

(** ** The field width *)

(** X2. The width is a minimum, never a limit: a formatted field is as
    long as the larger of the width and the text, and a width that does
    not exceed the length of the text leaves the text as it is, whatever
    the fill character and the adjustment. *)
Theorem width_is_a_minimum
    (os : ostream) (numeric : bool) (text : list char) :
  length (pad os numeric text)
    = Nat.max (Z.to_nat (os_width os)) (length text)
  /\ (os_width os <= Z.of_nat (length text) -> pad os numeric text = text).
Proof.
  split.
  - unfold pad.
    set (k := (Z.to_nat (os_width os) - length text)%nat).
    assert (Hk : (length text + k
                  = Nat.max (Z.to_nat (os_width os)) (length text))%nat)
      by (unfold k; lia).
    destruct (os_flags os) as [[] [] []];
      try (rewrite length_app, length_replicate; lia).
    destruct (numeric && has_sign text).
    + rewrite !length_app, length_replicate.
      rewrite <- (take_drop 1 text) in Hk at 1.
      rewrite length_app in Hk. lia.
    + rewrite length_app, length_replicate; lia.
  - intros H. unfold pad.
    replace (Z.to_nat (os_width os) - length text)%nat with 0%nat by lia.
    destruct (os_flags os) as [[] [] []]; simpl; rewrite ?app_nil_r;
      try reflexivity.
    destruct (numeric && has_sign text); simpl; [|reflexivity].
    apply (take_drop 1).
Qed.

(** ** What every input operation keeps *)

Lemma skip_ws_split (l : list char) :
  exists ws, l = ws ++ skip_ws l /\ all_space ws.
Proof.
  induction l as [|c l (ws & E & H)].
  - exists []. split; [reflexivity | constructor].
  - simpl. destruct (isspace c) eqn:Ec.
    + exists (c :: ws). split; [simpl; congruence | constructor; assumption].
    + exists []. split; [reflexivity | constructor].
Qed.

Lemma take_token_split (l : list char) :
  l = fst (take_token l) ++ snd (take_token l)
  /\ no_space (fst (take_token l)).
Proof.
  induction l as [|c l [E H]].
  - split; [reflexivity | constructor].
  - simpl. destruct (isspace c) eqn:Ec.
    + split; [reflexivity | constructor].
    + destruct (take_token l) as [t r]. simpl in *.
      split; [congruence | constructor; assumption].
Qed.

Lemma take_digits_split (l : list char) :
  l = fst (take_digits l) ++ snd (take_digits l)
  /\ forallb isdigit (fst (take_digits l)) = true.
Proof.
  induction l as [|c l [E H]].
  - split; reflexivity.
  - simpl. destruct (isdigit c) eqn:Ec.
    + destruct (take_digits l) as [d r]. simpl in *.
      split; [congruence | rewrite Ec; exact H].
    + split; reflexivity.
Qed.

Lemma take_int_field_suffix (l : list char) :
  snd (take_int_field l) `suffix_of` l.
Proof.
  destruct l as [|c l]; [exists []; reflexivity|].
  unfold take_int_field. destruct (is_sign c).
  - pose proof (take_digits_split l) as [E _].
    destruct (take_digits l) as [d r]. simpl in *.
    exists (c :: d). rewrite E at 1. reflexivity.
  - pose proof (take_digits_split (c :: l)) as [E _].
    destruct (take_digits (c :: l)) as [d r]. simpl in *.
    exists d. exact E.
Qed.

Lemma get_loop_suffix (delim : char) (room : nat) :
  forall (i : nat) (a : array) (inp : list char) a' rest k e,
    get_loop delim room i a inp = Some (a', rest, k, e) ->
    rest `suffix_of` inp.
Proof.
  induction room as [|room IH]; intros i a inp a' rest k e H.
  - simpl in H. inversion H; subst. exists []. reflexivity.
  - destruct inp as [|c inp]; simpl in H.
    + inversion H; subst. exists []. reflexivity.
    + destruct (Ascii.eqb c delim).
      * inversion H; subst. exists []. reflexivity.
      * destruct (store a i c) as [a1|]; [|discriminate H].
        apply IH in H. destruct H as [pre ->].
        exists (c :: pre). reflexivity.
Qed.

Lemma getline_loop_suffix (delim : char) (inp : list char) :
  forall (room i : nat) (a : array) a' rest j k e,
    getline_loop delim room i a inp = Some (a', rest, j, k, e) ->
    rest `suffix_of` inp.
Proof.
  induction inp as [|c inp IH]; intros room i a a' rest j k e H; simpl in H.
  - inversion H; subst. exists []. reflexivity.
  - destruct (Ascii.eqb c delim).
    + inversion H; subst. exists [c]. reflexivity.
    + destruct room as [|room].
      * inversion H; subst. exists []. reflexivity.
      * destruct (store a i c) as [a1|]; [|discriminate H].
        apply IH in H. destruct H as [pre ->].
        exists (c :: pre). reflexivity.
Qed.

Lemma sentry_suffix (noskipws : bool) (s : istream) :
  pending (snd (sentry noskipws s)) `suffix_of` pending s.
Proof.
  unfold sentry. destruct (good s); [|exists []; reflexivity].
  destruct noskipws; [exists []; reflexivity|].
  destruct (skip_ws_split (pending s)) as (ws & E & _).
  destruct (skip_ws (pending s)) as [|c r] eqn:Es; cbn [snd pending].
  - exists (pending s). rewrite app_nil_r. reflexivity.
  - exists ws. exact E.
Qed.

(** X3. The input cursor only moves forward: after each of the five
    input operations that [main] uses ([get()], [>>] into a string, [>>]
    into an [int], [get(s, n)] and [getline(s, n)]) what is still
    pending is a suffix of what was pending before; nothing is ever put
    back or read twice. *)
Theorem input_cursor_only_moves_forward (s : istream) :
  pending (snd (istream_get s)) `suffix_of` pending s
  /\ (forall str, pending (snd (extract_string str s)) `suffix_of` pending s)
  /\ (forall x, pending (snd (extract_int x s)) `suffix_of` pending s)
  /\ (forall a n a' s',
        istream_get_buf a n s = Some (a', s') ->
        pending s' `suffix_of` pending s)
  /\ (forall a n a' s',
        istream_getline a n s = Some (a', s') ->
        pending s' `suffix_of` pending s).
Proof.
  split; [|split; [|split; [|split]]].
  - unfold istream_get. pose proof (sentry_suffix true s) as H.
    destruct (sentry true s) as [ok s1]. cbn [snd] in H.
    destruct ok; [|exact H].
    destruct (pending s1) as [|c r] eqn:E; cbn [snd pending].
    + etrans; [|exact H]. exists []. reflexivity.
    + etrans; [|exact H]. exists [c]. reflexivity.
  - intros str. unfold extract_string.
    pose proof (sentry_suffix false s) as H.
    destruct (sentry false s) as [ok s1]. cbn [snd] in H.
    destruct ok; [|exact H].
    pose proof (take_token_split (pending s1)) as [E _].
    destruct (take_token (pending s1)) as [tok rest].
    cbn [fst snd pending] in *.
    etrans; [|exact H]. exists tok. exact E.
  - intros x. unfold extract_int.
    pose proof (sentry_suffix false s) as H.
    destruct (sentry false s) as [ok s1]. cbn [snd] in H.
    destruct ok; [|exact H].
    pose proof (take_int_field_suffix (pending s1)) as E.
    destruct (take_int_field (pending s1)) as [[sign ds] rest].
    cbn [snd] in E.
    assert (Hr : rest `suffix_of` pending s) by (etrans; eassumption).
    destruct ds; [exact Hr|].
    destruct (_ <? INT_MIN); [exact Hr|].
    destruct (INT_MAX <? _); exact Hr.
  - intros a n a' s' Hr. unfold istream_get_buf in Hr.
    pose proof (sentry_suffix true s) as H.
    destruct (sentry true s) as [ok s1]. cbn [snd] in H.
    destruct ok.
    + destruct (get_loop NL (Z.to_nat (n - 1)) 0 a (pending s1))
        as [[[[a1 rest] k] e]|] eqn:El; [|discriminate Hr].
      apply get_loop_suffix in El.
      assert (Hs : rest `suffix_of` pending s) by (etrans; eassumption).
      destruct (0 <? n); [destruct (store _ _ _); [|discriminate Hr]|];
        inversion Hr; subst; exact Hs.
    + destruct (0 <? n); [destruct (store _ _ _); [|discriminate Hr]|];
        inversion Hr; subst; exact H.
  - intros a n a' s' Hr. unfold istream_getline in Hr.
    pose proof (sentry_suffix true s) as H.
    destruct (sentry true s) as [ok s1]. cbn [snd] in H.
    destruct ok.
    + destruct (getline_loop NL (Z.to_nat (n - 1)) 0 a (pending s1))
        as [[[[[a1 rest] j] k] e]|] eqn:El; [|discriminate Hr].
      apply getline_loop_suffix in El.
      assert (Hs : rest `suffix_of` pending s) by (etrans; eassumption).
      destruct (0 <? n); [destruct (store _ _ _); [|discriminate Hr]|];
        inversion Hr; subst; exact Hs.
    + destruct (0 <? n); [destruct (store _ _ _); [|discriminate Hr]|];
        inversion Hr; subst; exact H.
Qed.

(** ** Extraction of a token *)

Lemma take_token_nil_inv (c : char) (l : list char) :
  isspace c = false -> fst (take_token (c :: l)) <> [].
Proof.
  intros H. simpl. rewrite H. destruct (take_token l). discriminate.
Qed.

(** X5. Whenever [cin >> str] leaves [failbit] clear, the string holds a
    token that is not empty and contains no whitespace, and the input
    consumed is some whitespace followed by exactly that token. *)
Theorem extracted_token_has_no_whitespace (str : list char) (s : istream) :
  failbit (rdstate (snd (extract_string str s))) = false ->
  let tok := fst (extract_string str s) in
  tok <> []
  /\ no_space tok
  /\ exists ws,
       all_space ws
       /\ pending s = ws ++ tok ++ pending (snd (extract_string str s)).
Proof.
  unfold extract_string, sentry.
  destruct (good s) eqn:Hg.
  2:{ cbn [snd rdstate setstate ios_or failbit failbit_only].
      rewrite orb_true_r. discriminate. }
  destruct (skip_ws_split (pending s)) as (ws & E & Hws).
  destruct (skip_ws (pending s)) as [|c r] eqn:Es.
  { cbn [snd rdstate ios_or failbit]. rewrite orb_true_r. discriminate. }
  cbn [pending rdstate gcount].
  assert (Hc : isspace c = false).
  { destruct (isspace c) eqn:Ec; [|reflexivity].
    exfalso. clear E.
    revert Es. generalize (pending s). intros l.
    induction l as [|d l IH]; simpl; [discriminate|].
    destruct (isspace d) eqn:Ed; [exact IH|].
    intros H. inversion H; subst. congruence. }
  pose proof (take_token_split (c :: r)) as [Et Hn].
  pose proof (take_token_nil_inv c r Hc) as Hne.
  destruct (take_token (c :: r)) as [tok rest]. cbn [fst snd] in *.
  intros _. split; [exact Hne|]. split; [exact Hn|].
  exists ws. split; [exact Hws|]. cbn [pending].
  rewrite E at 1. rewrite Et. reflexivity.
Qed.

Lemma extracted_token_has_no_whitespace_witness :
  let s := cin_init (chars "  two words") in
  let tok := fst (extract_string [] s) in
  tok <> []
  /\ no_space tok
  /\ exists ws,
       all_space ws
       /\ pending s = ws ++ tok ++ pending (snd (extract_string [] s)).
Proof.
  apply (extracted_token_has_no_whitespace []
           (cin_init (chars "  two words"))).
  reflexivity.
Defined.


(** ** Integers written and read back *)

Lemma isdigit_not_sign (c : char) : isdigit c = true -> is_sign c = false.
Proof.
  intros H. unfold is_sign.
  destruct (Ascii.eqb c "+") eqn:E1;
    [apply Ascii.eqb_eq in E1; subst c; discriminate H|].
  destruct (Ascii.eqb c "-") eqn:E2;
    [apply Ascii.eqb_eq in E2; subst c; discriminate H|].
  reflexivity.
Qed.

Lemma isdigit_not_space (c : char) : isdigit c = true -> isspace c = false.
Proof.
  unfold isdigit, isspace. intros H.
  apply andb_true_iff in H as [H1 H2].
  apply Nat.leb_le in H1, H2.
  apply orb_false_iff. split.
  - apply Nat.eqb_neq. lia.
  - apply andb_false_iff. right. apply Nat.leb_gt. lia.
Qed.

(** The field that [%d] input takes from the text of an [int]: the
    whole text, and its value is the [int]. *)
Lemma take_int_field_fmt_int (z : Z) (c : char) (rest : list char) :
  isdigit c = false ->
  exists sign d ds,
    take_int_field (fmt_int z ++ c :: rest) = (sign, d :: ds, c :: rest)
    /\ signed_value sign (d :: ds) = z
    /\ isspace (hd c (fmt_int z)) = false
    /\ fmt_int z <> [].
Proof.
  intros Hc. unfold fmt_int. destruct (z <? 0) eqn:Ez.
  - apply Z.ltb_lt in Ez.
    pose proof (decimal_length (- z)) as Hl.
    pose proof (decimal_digits (- z) ltac:(lia)) as Hd.
    pose proof (decimal_value (- z) ltac:(lia)) as Hv.
    destruct (decimal (- z)) as [|d ds] eqn:E; [simpl in Hl; lia|].
    exists (Some "-"%char), d, ds.
    change (("-"%char :: d :: ds) ++ c :: rest)
      with ("-"%char :: (d :: ds) ++ c :: rest).
    unfold take_int_field. change (is_sign "-") with true. cbn iota.
    rewrite take_digits_until by assumption.
    repeat split; try discriminate.
    unfold signed_value. change (Ascii.eqb "-" "-") with true. cbn iota. lia.
  - apply Z.ltb_ge in Ez.
    pose proof (decimal_length z) as Hl.
    pose proof (decimal_digits z Ez) as Hd.
    pose proof (decimal_value z Ez) as Hv.
    destruct (decimal z) as [|d ds] eqn:E; [simpl in Hl; lia|].
    exists None, d, ds.
    assert (Hd0 : isdigit d = true).
    { simpl in Hd. apply andb_true_iff in Hd as [H _]. exact H. }
    unfold take_int_field. cbn [app].
    rewrite (isdigit_not_sign d Hd0).
    change (d :: ds ++ c :: rest) with ((d :: ds) ++ c :: rest).
    rewrite take_digits_until by assumption.
    repeat split; try discriminate; try exact Hv.
    cbn [hd]. apply isdigit_not_space. exact Hd0.
Qed.

Lemma skip_ws_fmt_int (ws : list char) (z : Z) (c : char) (rest : list char) :
  all_space ws -> isdigit c = false ->
  skip_ws (ws ++ fmt_int z ++ c :: rest) = fmt_int z ++ c :: rest.
Proof.
  intros Hws Hc. rewrite skip_ws_all_space by exact Hws.
  destruct (take_int_field_fmt_int z c rest Hc) as (_ & _ & _ & _ & _ & Hs & Hne).
  destruct (fmt_int z) as [|f l]; [congruence|].
  cbn [hd] in Hs. cbn [app]. apply skip_ws_stops. exact Hs.
Qed.

(** [cin >> x] on the text of an [int]. *)
Lemma extract_int_fmt_int
    (z : Z) (ws rest : list char) (c : char) (x : option Z) (s : istream) :
  INT_MIN <= z <= INT_MAX ->
  all_space ws -> isdigit c = false ->
  good s = true ->
  pending s = ws ++ fmt_int z ++ c :: rest ->
  extract_int x s = (Some z, IStream (c :: rest) goodbit (gcount s)).
Proof.
  intros Hz Hws Hc Hg Hp.
  destruct (take_int_field_fmt_int z c rest Hc)
    as (sign & d & ds & Ef & Ev & _ & _).
  unfold extract_int, sentry.
  rewrite Hg, Hp, (good_goodbit s Hg), skip_ws_fmt_int by assumption.
  destruct (fmt_int z ++ c :: rest) as [|f l] eqn:E.
  { destruct (fmt_int z); discriminate E. }
  cbn [pending rdstate gcount]. rewrite Ef, Ev.
  replace (z <? INT_MIN) with false by (symmetry; apply Z.ltb_ge; lia).
  replace (INT_MAX <? z) with false by (symmetry; apply Z.ltb_ge; lia).
  reflexivity.
Qed.

(** X7. What [cout << z] writes for an [int] [z], [cin >> x] reads
    back: on a good stream holding optional whitespace, the text of [z]
    and a character that is not a digit, the extraction stores exactly
    [z], consumes the whitespace and the text, stops before that
    character and leaves the stream good; and the text itself is never
    empty and its digits give back the magnitude of [z]. *)
Theorem int_text_reads_back
    (z : Z) (ws rest : list char) (c : char) (x : option Z) (s : istream) :
  INT_MIN <= z <= INT_MAX ->
  all_space ws -> isdigit c = false ->
  good s = true ->
  pending s = ws ++ fmt_int z ++ c :: rest ->
  extract_int x s = (Some z, IStream (c :: rest) goodbit (gcount s))
  /\ fmt_int z <> []
  /\ digits_value (decimal (Z.abs z)) = Z.abs z.
Proof.
  intros Hz Hws Hc Hg Hp. split; [|split].
  - apply (extract_int_fmt_int z ws rest c); assumption.
  - destruct (take_int_field_fmt_int z c rest Hc)
      as (_ & _ & _ & _ & _ & _ & Hne). exact Hne.
  - apply decimal_value. lia.
Qed.

Lemma int_text_reads_back_witness :
  extract_int None (cin_init (chars "  " ++ fmt_int (-2147483648)
                                ++ "x"%char :: chars "yz"))
  = (Some (-2147483648),
     IStream ("x"%char :: chars "yz") goodbit
             (gcount (cin_init (chars "  " ++ fmt_int (-2147483648)
                                  ++ "x"%char :: chars "yz"))))
  /\ fmt_int (-2147483648) <> []
  /\ digits_value (decimal (Z.abs (-2147483648))) = Z.abs (-2147483648).
Proof.
  apply (int_text_reads_back (-2147483648) (chars "  ") (chars "yz") "x"
           None
           (cin_init (chars "  " ++ fmt_int (-2147483648)
                        ++ "x"%char :: chars "yz"))).
  - vm_compute. split; discriminate.
  - repeat constructor.
  - reflexivity.
  - reflexivity.
  - reflexivity.
Defined.

(** X8. [atoi] reads the text of an [int] back, too, and ignores what
    follows it: for every [int] [z], leading whitespace [ws] and
    trailing text that does not start with a digit, [atoi] of the whole
    is [z]. *)
Theorem atoi_reads_int_text_back
    (z : Z) (ws rest : list char) (c : char) :
  INT_MIN <= z <= INT_MAX ->
  all_space ws -> isdigit c = false ->
  atoi (ws ++ fmt_int z ++ c :: rest) = Some z.
Proof.
  intros Hz Hws Hc.
  destruct (take_int_field_fmt_int z c rest Hc)
    as (sign & d & ds & Ef & Ev & _ & _).
  unfold atoi. rewrite skip_ws_fmt_int, Ef, Ev by assumption.
  unfold in_int.
  replace ((INT_MIN <=? z) && (z <=? INT_MAX)) with true
    by (symmetry; apply andb_true_iff; split; apply Z.leb_le; lia).
  reflexivity.
Qed.

Lemma atoi_reads_int_text_back_witness :
  atoi (chars " " ++ fmt_int 2147483647 ++ "."%char :: chars "5")
  = Some 2147483647.
Proof.
  apply (atoi_reads_int_text_back 2147483647 (chars " ") (chars "5") ".").
  - vm_compute. split; discriminate.
  - repeat constructor.
  - reflexivity.
Defined.

(** X9. A number too large for [int] does not wrap around: [cin >> x]
    consumes all its digits, stores [INT_MAX] (or [INT_MIN] after a
    minus sign) and sets [failbit]. *)
Theorem int_extraction_saturates
    (neg : bool) (ws ds rest : list char) (c : char) (x : option Z)
    (s : istream) :
  good s = true ->
  all_space ws -> ds <> [] -> forallb isdigit ds = true ->
  isdigit c = false ->
  pending s = ws ++ (if neg then chars "-" else []) ++ ds ++ c :: rest ->
  (if neg then - INT_MIN else INT_MAX) < digits_value ds ->
  extract_int x s
  = (Some (if neg then INT_MIN else INT_MAX),
     IStream (c :: rest) failbit_only (gcount s)).
Proof.
  intros Hg Hws Hne Hd Hc Hp Hv.
  destruct ds as [|d ds]; [congruence|].
  assert (Hd0 : isdigit d = true).
  { simpl in Hd. apply andb_true_iff in Hd as [H _]. exact H. }
  unfold extract_int, sentry.
  rewrite Hg, Hp, (good_goodbit s Hg), skip_ws_all_space by exact Hws.
  destruct neg.
  - change (chars "-" ++ (d :: ds) ++ c :: rest)
      with ("-"%char :: (d :: ds) ++ c :: rest).
    rewrite skip_ws_stops by reflexivity.
    cbn [pending rdstate gcount]. unfold take_int_field.
    change (is_sign "-") with true. cbn iota.
    rewrite take_digits_until by assumption.
    unfold signed_value. change (Ascii.eqb "-" "-") with true. cbn iota.
    replace (- digits_value (d :: ds) <? INT_MIN) with true
      by (symmetry; apply Z.ltb_lt; lia).
    reflexivity.
  - cbn [app]. rewrite skip_ws_stops by (apply isdigit_not_space; exact Hd0).
    cbn [pending rdstate gcount]. unfold take_int_field.
    rewrite (isdigit_not_sign d Hd0).
    change (d :: ds ++ c :: rest) with ((d :: ds) ++ c :: rest).
    rewrite take_digits_until by assumption.
    unfold signed_value.
    replace (digits_value (d :: ds) <? INT_MIN) with false
      by (symmetry; apply Z.ltb_ge; unfold INT_MIN, INT_MAX in *; lia).
    replace (INT_MAX <? digits_value (d :: ds)) with true
      by (symmetry; apply Z.ltb_lt; lia).
    reflexivity.
Qed.

Lemma int_extraction_saturates_witness :
  extract_int None (cin_init (chars " " ++ chars "-" ++ chars "2147483649"
                                ++ NL :: chars "next"))
  = (Some INT_MIN,
     IStream (NL :: chars "next") failbit_only
             (gcount (cin_init (chars " " ++ chars "-" ++ chars "2147483649"
                                  ++ NL :: chars "next")))).
Proof.
  apply (int_extraction_saturates true (chars " ") (chars "2147483649")
           (chars "next") NL None
           (cin_init (chars " " ++ chars "-" ++ chars "2147483649"
                        ++ NL :: chars "next"))).
  - reflexivity.
  - repeat constructor.
  - discriminate.
  - reflexivity.
  - reflexivity.
  - reflexivity.
  - vm_compute. reflexivity.
Defined.

(** X10. [atoi] gives 0 whenever no digit leads: for text that is empty
    or all whitespace, for text whose first character after the
    whitespace is neither a digit nor a sign, and for a sign that no
    digit follows. *)
Theorem atoi_without_digits_is_zero
    (ws rest : list char) (c : char) :
  all_space ws -> isspace c = false -> isdigit c = false ->
  atoi ws = Some 0
  /\ (is_sign c = false -> atoi (ws ++ c :: rest) = Some 0)
  /\ (forall sgn, is_sign sgn = true ->
        atoi (ws ++ sgn :: c :: rest) = Some 0).
Proof.
  intros Hws Hsp Hd. split; [|split].
  - unfold atoi. rewrite <- (app_nil_r ws), skip_ws_all_space by exact Hws.
    reflexivity.
  - intros Hs. unfold atoi.
    rewrite skip_ws_all_space, skip_ws_stops by assumption.
    unfold take_int_field. rewrite Hs, take_digits_stops by exact Hd.
    reflexivity.
  - intros sgn Hsgn. unfold atoi.
    assert (Hns : isspace sgn = false).
    { unfold is_sign in Hsgn. apply orb_true_iff in Hsgn as [H | H];
        apply Ascii.eqb_eq in H; subst sgn; reflexivity. }
    rewrite skip_ws_all_space, skip_ws_stops by assumption.
    unfold take_int_field. rewrite Hsgn, take_digits_stops by exact Hd.
    unfold signed_value. destruct (Ascii.eqb sgn "-"); reflexivity.
Qed.

Lemma atoi_without_digits_is_zero_witness :
  atoi (chars "  ") = Some 0
  /\ (is_sign "a" = false -> atoi (chars "  " ++ "a"%char :: chars "bc") = Some 0)
  /\ (forall sgn, is_sign sgn = true ->
        atoi (chars "  " ++ sgn :: "a"%char :: chars "bc") = Some 0).
Proof.
  apply (atoi_without_digits_is_zero (chars "  ") (chars "bc") "a").
  - repeat constructor.
  - reflexivity.
  - reflexivity.
Defined.

(** ** The buffer reads of [main], step by step *)

Lemma get_loop_full (i : nat) (a : array) (inp : list char) :
  get_loop NL 0 i a inp = Some (a, inp, i, false).
Proof. reflexivity. Qed.

(** [get(s, n)] on a good stream: it stores the characters before the
    newline, or the first [n - 1] characters if the newline comes
    later, and extracts nothing more. *)
Lemma get_buf_prefix (n : nat) (a : array) (s : istream)
    (data rest : list char) (c : char) :
  good s = true -> pending s = data ++ c :: rest -> NL ∉ data ->
  (length data < n)%nat -> (c = NL \/ length data = (n - 1)%nat) ->
  length a = n ->
  istream_get_buf a (Z.of_nat n) s
  = Some (holds_text a data,
          IStream (c :: rest)
                  (match data with [] => failbit_only | _ => goodbit end)
                  (Z.of_nat (length data))).
Proof.
  intros Hg Hp Hnl Hlen Hc Ha.
  destruct Hc as [-> | Hfull];
    [apply get_buf_line; assumption|].
  unfold istream_get_buf, sentry. rewrite Hg, Hp, (good_goodbit s Hg).
  replace (Z.to_nat (Z.of_nat n - 1)) with (n - 1)%nat by lia.
  rewrite get_loop_line by (try apply not_elem_NL; simpl; auto; lia).
  rewrite Hfull, Nat.sub_diag, get_loop_full.
  replace (0 <? Z.of_nat n) with true by (symmetry; apply Z.ltb_lt; lia).
  cbn [gcount]. simpl Nat.add. rewrite <- Hfull, Nat2Z.id.
  rewrite store_nul_after by lia.
  destruct data; reflexivity.
Qed.

Lemma getline_loop_overlong (data : list char) :
  forall (i : nat) (a : array) (c : char) (rest : list char),
    Forall (fun c => Ascii.eqb c NL = false) data ->
    Ascii.eqb c NL = false ->
    (i + length data <= length a)%nat ->
    getline_loop NL (length data) i a (data ++ c :: rest)
    = Some (stored_at a i data, c :: rest, (i + length data)%nat,
            (i + length data)%nat, failbit_only).
Proof.
  induction data as [|d data IH]; intros i a c rest Hnl Hc Hlen.
  - simpl. rewrite Hc, stored_at_nil, Nat.add_0_r. reflexivity.
  - inversion Hnl as [|? ? Hd Hrest]; subst.
    simpl in Hlen. simpl. rewrite Hd, store_in_range by lia.
    rewrite IH; [| assumption | assumption | rewrite length_insert; lia].
    rewrite stored_at_cons by lia.
    replace (i + S (length data))%nat with (S i + length data)%nat by lia.
    reflexivity.
Qed.

(** [getline(s, n)] on a good stream whose line does not fit: [n - 1]
    characters are stored, [failbit] is set, the rest of the line stays
    in the stream. *)
Lemma getline_overlong (n : nat) (a : array) (s : istream)
    (data rest : list char) (c : char) :
  good s = true -> pending s = data ++ c :: rest -> NL ∉ data ->
  c <> NL -> S (length data) = n -> length a = n ->
  istream_getline a (Z.of_nat n) s
  = Some (holds_text a data,
          IStream (c :: rest) failbit_only (Z.of_nat (length data))).
Proof.
  intros Hg Hp Hnl Hc Hlen Ha.
  unfold istream_getline, sentry. rewrite Hg, Hp, (good_goodbit s Hg).
  replace (Z.to_nat (Z.of_nat n - 1)) with (length data) by lia.
  rewrite getline_loop_overlong
    by (try apply not_elem_NL; try apply Ascii.eqb_neq; auto; lia).
  replace (0 <? Z.of_nat n) with true by (symmetry; apply Z.ltb_lt; lia).
  simpl Nat.add. cbn iota beta.
  rewrite store_nul_after by lia.
  destruct (length data); reflexivity.
Qed.

Lemma ostream_write_emit (text : list char) (os : ostream) :
  os_width os = 0 -> ostream_write text os = emit text os.
Proof.
  intros H. unfold ostream_write, emit. rewrite H. reflexivity.
Qed.

(** Running one statement and going on with the next. *)
Lemma bind_some {A B} (m : prog A) (k : A -> prog B)
    (w : console) (r : A) (w' : console) :
  m w = Some (r, w') -> (m ≫= k) w = k r w'.
Proof.
  intros H. unfold mbind, prog_bind. rewrite H. reflexivity.
Qed.

Lemma bind_none {A B} (m : prog A) (k : A -> prog B) (w : console) :
  m w = None -> (m ≫= k) w = None.
Proof.
  intros H. unfold mbind, prog_bind. rewrite H. reflexivity.
Qed.

(** The step of lines 116-125 on a good stream. *)
Lemma get_step_run (words : array) (data rest : list char) (c : char)
    (w : console) :
  good (cin w) = true -> os_width (cout w) = 0 ->
  length words = 64%nat ->
  pending (cin w) = data ++ c :: rest ->
  data <> [] -> NL ∉ data -> (length data < 64)%nat ->
  (c = NL \/ length data = 63%nat) ->
  get_step words w
  = Some (holds_text words data,
          Console (IStream rest goodbit 1)
                  (emit (chars "type something:" ++ NL
                           :: chars "You typed: " ++ until_nul data ++ [NL])
                        (cout w))).
Proof.
  intros Hg Hw Ha Hp Hne Hnl Hlen Hc.
  destruct w as [i o]. cbn [cin cout] in *.
  pose proof (get_buf_prefix 64 words i data rest c Hg Hp Hnl Hlen Hc Ha)
    as Hget.
  change (Z.of_nat 64) with 64 in Hget.
  unfold get_step. unfold_prog. emit_chain.
  rewrite Hget. destruct data as [|d data]; [congruence|].
  rewrite (istream_get_char c rest) by reflexivity.
  rewrite c_str_holds_text. emit_chain. same_text.
Qed.

(** X11. The step of lines 116-125 stores at most 63 characters of the
    line and then discards exactly one more character.  If the line has
    fewer than 64 characters, that character is its newline and the
    stream stands at the next line; if the line is longer, it is the
    64th character of the line, which is lost, and the rest of the line
    stays in the stream.  The echo shows the stored characters up to
    their first null. *)
Theorem get_step_stores_63_and_drops_one
    (words : array) (data rest : list char) (c : char) (w : console) :
  good (cin w) = true -> os_width (cout w) = 0 ->
  length words = 64%nat ->
  pending (cin w) = data ++ c :: rest ->
  data <> [] -> NL ∉ data -> (length data < 64)%nat ->
  (c = NL \/ length data = 63%nat) ->
  get_step words w
  = Some (holds_text words data,
          Console (IStream rest goodbit 1)
                  (emit (chars "type something:" ++ NL
                           :: chars "You typed: " ++ until_nul data ++ [NL])
                        (cout w))).
Proof. apply get_step_run. Qed.

Lemma get_step_stores_63_and_drops_one_witness :
  get_step (uninitialized 64)
    (Console (cin_init (replicate 63 "a"%char ++ "b"%char :: chars "cd"))
             cout_init)
  = Some (holds_text (uninitialized 64) (replicate 63 "a"%char),
          Console (IStream (chars "cd") goodbit 1)
                  (emit (chars "type something:" ++ NL
                           :: chars "You typed: "
                           ++ until_nul (replicate 63 "a"%char) ++ [NL])
                        cout_init)).
Proof.
  apply (get_step_stores_63_and_drops_one (uninitialized 64)
           (replicate 63 "a"%char) (chars "cd") "b"
           (Console (cin_init (replicate 63 "a"%char ++ "b"%char :: chars "cd"))
                    cout_init)).
  - reflexivity.
  - reflexivity.
  - reflexivity.
  - reflexivity.
  - discriminate.
  - apply (bool_decide_unpack _). vm_compute. exact I.
  - simpl. lia.
  - right. reflexivity.
Defined.

(** The step of lines 116-125 on an empty line. *)
Lemma get_step_empty_run (words : array) (rest : list char) (w : console) :
  good (cin w) = true -> os_width (cout w) = 0 ->
  length words = 64%nat ->
  pending (cin w) = NL :: rest ->
  get_step words w
  = Some (holds_text words [],
          Console (IStream (NL :: rest) failbit_only 0)
                  (emit (chars "type something:" ++ NL
                           :: chars "You typed: " ++ [NL])
                        (cout w))).
Proof.
  intros Hg Hw Ha Hp.
  destruct w as [i o]. cbn [cin cout] in *.
  pose proof (get_buf_line 64 words i [] rest Hg Hp) as Hget.
  change (Z.of_nat 64) with 64 in Hget.
  unfold get_step. unfold_prog. emit_chain.
  rewrite Hget by (try apply not_elem_of_nil; simpl; lia).
  rewrite istream_get_not_good by reflexivity.
  rewrite c_str_holds_text. emit_chain. same_text.
Qed.

(** X12. On an empty line the step of lines 116-125 fails: [get(words,
    64)] stores only the null and sets [failbit], so the [get()] after
    it extracts nothing; the newline is still in the stream, the stream
    is no longer good, and an empty text is echoed. *)
Theorem get_step_fails_on_empty_line
    (words : array) (rest : list char) (w : console) :
  good (cin w) = true -> os_width (cout w) = 0 ->
  length words = 64%nat ->
  pending (cin w) = NL :: rest ->
  get_step words w
  = Some (holds_text words [],
          Console (IStream (NL :: rest) failbit_only 0)
                  (emit (chars "type something:" ++ NL
                           :: chars "You typed: " ++ [NL])
                        (cout w))).
Proof. apply get_step_empty_run. Qed.

Lemma get_step_fails_on_empty_line_witness :
  get_step (uninitialized 64)
    (Console (cin_init (NL :: chars "next")) cout_init)
  = Some (holds_text (uninitialized 64) [],
          Console (IStream (NL :: chars "next") failbit_only 0)
                  (emit (chars "type something:" ++ NL
                           :: chars "You typed: " ++ [NL])
                        cout_init)).
Proof.
  apply (get_step_fails_on_empty_line (uninitialized 64) (chars "next")
           (Console (cin_init (NL :: chars "next")) cout_init));
    reflexivity.
Defined.

(** The step of lines 128-133 on a line that fits. *)
Lemma getline_step_run (words : array) (line rest : list char)
    (w : console) :
  good (cin w) = true -> os_width (cout w) = 0 ->
  length words = 64%nat ->
  pending (cin w) = line ++ NL :: rest ->
  NL ∉ line -> (length line < 64)%nat ->
  getline_step words w
  = Some (holds_text words line,
          Console (IStream rest goodbit (Z.of_nat (S (length line))))
                  (emit (chars "type something:" ++ NL
                           :: chars "You typed: " ++ until_nul line ++ [NL])
                        (cout w))).
Proof.
  intros Hg Hw Ha Hp Hnl Hlen.
  destruct w as [i o]. cbn [cin cout] in *.
  pose proof (getline_line 64 words i line rest Hg Hp Hnl Hlen Ha) as Hget.
  change (Z.of_nat 64) with 64 in Hget.
  unfold getline_step. unfold_prog. emit_chain.
  rewrite Hget, c_str_holds_text. emit_chain. same_text.
Qed.

(** X13. The step of lines 128-133 takes a whole line of fewer than 64
    characters together with its newline, without a [get()] of its own,
    and stays good; unlike the step before it, it accepts an empty line.
    The echo shows the line up to its first null. *)
Theorem getline_step_takes_the_line
    (words : array) (line rest : list char) (w : console) :
  good (cin w) = true -> os_width (cout w) = 0 ->
  length words = 64%nat ->
  pending (cin w) = line ++ NL :: rest ->
  NL ∉ line -> (length line < 64)%nat ->
  getline_step words w
  = Some (holds_text words line,
          Console (IStream rest goodbit (Z.of_nat (S (length line))))
                  (emit (chars "type something:" ++ NL
                           :: chars "You typed: " ++ until_nul line ++ [NL])
                        (cout w))).
Proof. apply getline_step_run. Qed.

Lemma getline_step_takes_the_line_witness :
  getline_step (uninitialized 64)
    (Console (cin_init ([] ++ NL :: chars "next")) cout_init)
  = Some (holds_text (uninitialized 64) [],
          Console (IStream (chars "next") goodbit
                           (Z.of_nat (S (length (@nil ascii)))))
                  (emit (chars "type something:" ++ NL
                           :: chars "You typed: " ++ until_nul [] ++ [NL])
                        cout_init)).
Proof.
  apply (getline_step_takes_the_line (uninitialized 64) [] (chars "next")
           (Console (cin_init ([] ++ NL :: chars "next")) cout_init)).
  - reflexivity.
  - reflexivity.
  - reflexivity.
  - reflexivity.
  - apply not_elem_of_nil.
  - simpl. lia.
Defined.

(** X14. A line of 64 characters or more does not fit the step of lines
    128-133: [getline(words, 64)] stores its first 63 characters, sets
    [failbit], and leaves the rest of the line, newline included, in a
    stream that is no longer good. *)
Theorem getline_step_fails_on_long_line
    (words : array) (data rest : list char) (c : char) (w : console) :
  good (cin w) = true -> os_width (cout w) = 0 ->
  length words = 64%nat ->
  pending (cin w) = data ++ c :: rest ->
  NL ∉ data -> c <> NL -> length data = 63%nat ->
  getline_step words w
  = Some (holds_text words data,
          Console (IStream (c :: rest) failbit_only 63)
                  (emit (chars "type something:" ++ NL
                           :: chars "You typed: " ++ until_nul data ++ [NL])
                        (cout w))).
Proof.
  intros Hg Hw Ha Hp Hnl Hc Hlen.
  destruct w as [i o]. cbn [cin cout] in *.
  pose proof (getline_overlong 64 words i data rest c Hg Hp Hnl Hc
                ltac:(lia) Ha) as Hget.
  change (Z.of_nat 64) with 64 in Hget. rewrite Hlen in Hget.
  change (Z.of_nat 63) with 63 in Hget.
  unfold getline_step. unfold_prog. emit_chain.
  rewrite Hget, c_str_holds_text. emit_chain. same_text.
Qed.

Lemma getline_step_fails_on_long_line_witness :
  getline_step (uninitialized 64)
    (Console (cin_init (replicate 63 "a"%char ++ "b"%char :: [NL]))
             cout_init)
  = Some (holds_text (uninitialized 64) (replicate 63 "a"%char),
          Console (IStream ("b"%char :: [NL]) failbit_only 63)
                  (emit (chars "type something:" ++ NL
                           :: chars "You typed: "
                           ++ until_nul (replicate 63 "a"%char) ++ [NL])
                        cout_init)).
Proof.
  apply (getline_step_fails_on_long_line (uninitialized 64)
           (replicate 63 "a"%char) [NL] "b"
           (Console (cin_init (replicate 63 "a"%char ++ "b"%char :: [NL]))
                    cout_init)).
  - reflexivity.
  - reflexivity.
  - reflexivity.
  - reflexivity.
  - apply (bool_decide_unpack _). vm_compute. exact I.
  - discriminate.
  - reflexivity.
Defined.

(** ** The numeric steps of [main] *)

(** The step of lines 143-153 on the text of an [int]. *)
Lemma typed_int_step_run (z : Z) (ws rest : list char) (c : char)
    (w : console) :
  good (cin w) = true -> os_width (cout w) = 0 ->
  INT_MIN <= z <= INT_MAX ->
  all_space ws -> isdigit c = false ->
  pending (cin w) = ws ++ fmt_int z ++ c :: rest ->
  typed_int_step w
  = Some (Some z,
          Console (IStream rest goodbit 1)
                  (emit (chars "input a number: you input: "
                           ++ fmt_int z ++ [NL])
                        (cout w))).
Proof.
  intros Hg Hw Hz Hws Hc Hp.
  destruct w as [i o]. cbn [cin cout] in *.
  unfold typed_int_step. unfold_prog. emit_chain.
  rewrite (extract_int_fmt_int z ws rest c None i) by assumption.
  rewrite (istream_get_char c rest) by reflexivity.
  emit_chain. same_text.
Qed.

(** The field that [%d] input takes from an optional sign followed by
    digits. *)
Lemma take_int_field_numeral
    (sign : option char) (ds rest : list char) (c : char) :
  (forall s, sign = Some s -> is_sign s = true) ->
  ds <> [] -> forallb isdigit ds = true -> isdigit c = false ->
  take_int_field (option_list sign ++ ds ++ c :: rest) = (sign, ds, c :: rest)
  /\ isspace (hd c (option_list sign ++ ds)) = false.
Proof.
  intros Hs Hne Hd Hc.
  destruct sign as [s|]; unfold option_list; cbn [option_rect app hd].
  - specialize (Hs s eq_refl). unfold take_int_field.
    rewrite Hs, take_digits_until by assumption.
    split; [reflexivity | apply is_sign_not_space; exact Hs].
  - destruct ds as [|d ds]; [congruence|].
    assert (Hd0 : isdigit d = true).
    { cbn [forallb] in Hd. apply andb_true_iff in Hd as [H _]. exact H. }
    unfold take_int_field. cbn [app hd].
    rewrite (isdigit_not_sign d Hd0).
    change (d :: ds ++ c :: rest) with ((d :: ds) ++ c :: rest).
    rewrite take_digits_until by assumption.
    split; [reflexivity | apply isdigit_not_space; exact Hd0].
Qed.

(** [cin >> x] on an optional sign followed by digits whose value is an
    [int]. *)
Lemma extract_int_numeral
    (sign : option char) (ds ws rest : list char) (c : char)
    (x : option Z) (s : istream) :
  good s = true ->
  all_space ws ->
  (forall sc, sign = Some sc -> is_sign sc = true) ->
  ds <> [] -> forallb isdigit ds = true -> isdigit c = false ->
  INT_MIN <= signed_value sign ds <= INT_MAX ->
  pending s = ws ++ option_list sign ++ ds ++ c :: rest ->
  extract_int x s
  = (Some (signed_value sign ds), IStream (c :: rest) goodbit (gcount s)).
Proof.
  intros Hg Hws Hs Hne Hd Hc Hv Hp.
  destruct (take_int_field_numeral sign ds rest c Hs Hne Hd Hc) as [Ef Hsp].
  unfold extract_int, sentry.
  rewrite Hg, Hp, (good_goodbit s Hg), skip_ws_all_space by exact Hws.
  assert (Hskip : skip_ws (option_list sign ++ ds ++ c :: rest)
                  = option_list sign ++ ds ++ c :: rest).
  { rewrite app_assoc in *.
    destruct (option_list sign ++ ds) as [|f l] eqn:E.
    - destruct sign; [discriminate E|]. unfold option_list in E.
      cbn [option_rect app] in E. congruence.
    - cbn [hd] in Hsp. cbn [app]. apply skip_ws_stops. exact Hsp. }
  rewrite Hskip.
  destruct (option_list sign ++ ds ++ c :: rest) as [|f l] eqn:E.
  { destruct sign, ds; discriminate E. }
  cbn [pending rdstate gcount]. rewrite Ef.
  destruct ds as [|d ds']; [congruence|].
  replace (signed_value sign (d :: ds') <? INT_MIN) with false
    by (symmetry; apply Z.ltb_ge; lia).
  replace (INT_MAX <? signed_value sign (d :: ds')) with false
    by (symmetry; apply Z.ltb_ge; lia).
  reflexivity.
Qed.

(** X15. When the user types an [int] in decimal, in any spelling, that
    is an optional sign and one or more digits, leading zeros included,
    followed by anything that is not a digit, the step of lines 143-153
    stores the value, echoes it as its decimal numeral (a minus sign
    only for a negative value, no leading zeros: [+007] is echoed as
    [7]), and discards exactly the one character after the number. *)
Theorem typed_int_step_echoes_the_number
    (sign : option char) (ds ws rest : list char) (c : char) (w : console) :
  good (cin w) = true -> os_width (cout w) = 0 ->
  all_space ws ->
  (forall sc, sign = Some sc -> is_sign sc = true) ->
  ds <> [] -> forallb isdigit ds = true -> isdigit c = false ->
  INT_MIN <= signed_value sign ds <= INT_MAX ->
  pending (cin w) = ws ++ option_list sign ++ ds ++ c :: rest ->
  exists numeral,
    decimal_numeral (signed_value sign ds) numeral
    /\ typed_int_step w
       = Some (Some (signed_value sign ds),
               Console (IStream rest goodbit 1)
                       (emit (chars "input a number: you input: "
                                ++ numeral ++ [NL])
                             (cout w))).
Proof.
  intros Hg Hw Hws Hs Hne Hd Hc Hv Hp.
  exists (fmt_int (signed_value sign ds)).
  split; [apply fmt_int_decimal_numeral|].
  destruct w as [i o]. cbn [cin cout] in *.
  unfold typed_int_step. unfold_prog. emit_chain.
  rewrite (extract_int_numeral sign ds ws rest c None i) by assumption.
  rewrite (istream_get_char c rest) by reflexivity.
  emit_chain. same_text.
Qed.

Lemma typed_int_step_echoes_the_number_witness :
  exists numeral,
    decimal_numeral (signed_value (Some "+"%char) (chars "007")) numeral
    /\ typed_int_step
         (Console (cin_init (chars " " ++ option_list (Some "+"%char)
                               ++ chars "007" ++ NL :: chars "next"))
                  cout_init)
       = Some (Some (signed_value (Some "+"%char) (chars "007")),
               Console (IStream (chars "next") goodbit 1)
                       (emit (chars "input a number: you input: "
                                ++ numeral ++ [NL])
                             (cout (Console
                                      (cin_init
                                         (chars " "
                                            ++ option_list (Some "+"%char)
                                            ++ chars "007"
                                            ++ NL :: chars "next"))
                                      cout_init)))).
Proof.
  apply (typed_int_step_echoes_the_number
           (Some "+"%char) (chars "007") (chars " ") (chars "next") NL
           (Console (cin_init (chars " " ++ option_list (Some "+"%char)
                                 ++ chars "007" ++ NL :: chars "next"))
                    cout_init)).
  - reflexivity.
  - reflexivity.
  - repeat constructor.
  - intros sc E. injection E as <-. reflexivity.
  - discriminate.
  - reflexivity.
  - reflexivity.
  - vm_compute. split; discriminate.
  - reflexivity.
Defined.

(** The spelling [+007] is echoed as [7]. *)
Example typed_int_step_plus_007 :
  typed_int_step (Console (cin_init (chars "+007" ++ [NL])) cout_init)
  = Some (Some 7,
          Console (IStream [] goodbit 1)
                  (emit (chars "input a number: you input: 7" ++ [NL])
                        cout_init)).
Proof. vm_compute. reflexivity. Qed.

Lemma extract_int_not_good (x : option Z) (s : istream) :
  good s = false -> extract_int x s = (x, setstate failbit_only s).
Proof.
  intros Hg. unfold extract_int, sentry. rewrite Hg. reflexivity.
Qed.

(** The step of lines 143-153 on a stream that is not good. *)
Lemma typed_int_step_not_good (w : console) :
  good (cin w) = false -> typed_int_step w = None.
Proof.
  intros Hg. destruct w as [i o]. cbn [cin cout] in *.
  unfold typed_int_step. unfold_prog.
  rewrite (extract_int_not_good None i Hg).
  destruct (istream_get (setstate failbit_only i)). reflexivity.
Qed.

(** X16. If the stream is not good when the step of lines 143-153
    starts, [cin >> x] stores nothing, [x] is still uninitialised when
    it is printed, and the behaviour of the program is undefined from
    there on. *)
Theorem typed_int_step_prints_uninitialised_x (w : console) :
  good (cin w) = false -> typed_int_step w = None.
Proof. apply typed_int_step_not_good. Qed.

Lemma typed_int_step_prints_uninitialised_x_witness :
  typed_int_step (Console (IStream (chars "42") eofbit_only 0) cout_init)
  = None.
Proof.
  apply (typed_int_step_prints_uninitialised_x
           (Console (IStream (chars "42") eofbit_only 0) cout_init)).
  reflexivity.
Defined.

(** X17. The last step doubles in [int]: when the line converts to a
    value whose double is not an [int] (above 1073741823 or below
    -1073741824), [y * 2] overflows and the behaviour of the program
    is undefined. *)
Theorem atoi_step_overflows_on_large_values
    (line rest : list char) (y : Z) (w : console) :
  good (cin w) = true ->
  pending (cin w) = line ++ NL :: rest ->
  NL ∉ line -> (length line < 256)%nat ->
  atoi line = Some y ->
  (y * 2 < INT_MIN \/ INT_MAX < y * 2) ->
  atoi_step w = None.
Proof.
  intros Hg Hp Hnl Hlen Hy Hr.
  destruct w as [i o]. cbn [cin cout] in *.
  unfold atoi_step. unfold_prog.
  pose proof (getline_line 256 (uninitialized 256) i line rest
                Hg Hp Hnl Hlen eq_refl) as Hgl.
  change (Z.of_nat 256) with 256 in Hgl. rewrite Hgl.
  rewrite c_str_holds_text, atoi_until_nul, Hy.
  unfold int_mul, in_int.
  replace ((INT_MIN <=? y * 2) && (y * 2 <=? INT_MAX)) with false.
  - reflexivity.
  - symmetry. apply andb_false_iff.
    destruct Hr; [left; apply Z.leb_gt | right; apply Z.leb_gt]; lia.
Qed.

Lemma atoi_step_overflows_on_large_values_witness :
  atoi_step (Console (cin_init (chars "1073741824" ++ NL :: [])) cout_init)
  = None.
Proof.
  apply (atoi_step_overflows_on_large_values (chars "1073741824") []
           1073741824
           (Console (cin_init (chars "1073741824" ++ NL :: [])) cout_init)).
  - reflexivity.
  - reflexivity.
  - apply (bool_decide_unpack _). vm_compute. exact I.
  - simpl. lia.
  - reflexivity.
  - right. vm_compute. reflexivity.
Defined.

(** ** The blocks of [main] *)

Lemma insert_formatted_fields (numeric : bool) (text wr : list char)
    (p w : Z) (f : char) (fl : fmtflags) :
  insert_formatted numeric text (OStream wr p w f fl)
  = OStream (wr ++ pad (OStream [] p w f fl) numeric text) p 0 f fl.
Proof. reflexivity. Qed.

Lemma on_cin_run {A} (f : istream -> A * istream) (w : console) :
  on_cin f w = Some (fst (f (cin w)), Console (snd (f (cin w))) (cout w)).
Proof. unfold on_cin. destruct (f (cin w)). reflexivity. Qed.

(** Lines 32-38 on any input. *)
Lemma block_pause_any (w : console) :
  os_width (cout w) = 0 ->
  block_pause w
  = Some (tt, Console (snd (istream_get (cin w)))
                      (emit (chars "Press enter to continue.") (cout w))).
Proof.
  intros Hw. destruct w as [i o]. cbn [cin cout] in *.
  unfold block_pause. unfold_prog. emit_chain.
  destruct (istream_get i). reflexivity.
Qed.

(** Lines 42-54 on any input. *)
Lemma block_raw_output_any (char_signed : bool) (w : console) :
  os_width (cout w) = 0 ->
  block_raw_output char_signed w
  = Some (tt, Console (snd (istream_get (cin w)))
                      (emit (ascii_of_nat 157 :: NL :: chars "word")
                            (cout w))).
Proof.
  intros Hw. destruct w as [i o]. cbn [cin cout] in *.
  unfold block_raw_output. unfold_prog.
  change (read_n (literal "words cannot describe") (Z.to_nat 4))
    with (Some (chars "word")).
  lazy beta iota zeta delta [cin cout].
  unfold byte_of_char_value. rewrite !int_to_char_value_mod.
  rewrite !ostream_put_emit, ostream_write_emit
    by (first [assumption | apply emit_width]).
  rewrite !emit_emit.
  destruct (istream_get i). reflexivity.
Qed.

(** Lines 58-91 on any input, from the initial formatting state. *)
Lemma block_formatting_any (i : istream) (before : list char) :
  block_formatting (Console i (OStream before 6 0 " " no_adjust))
  = Some (tt,
          Console (snd (istream_get i))
                  (OStream (before
                              ++ chars "9.99999" ++ NL
                              :: chars "10" ++ NL
                              :: chars "        10" ++ NL
                              :: chars "--------10" ++ NL
                              :: chars "10--------" ++ NL
                              :: chars "10--------" ++ [NL])
                           3 0 "-" left_flag)).
Proof.
  unfold block_formatting, write_1, write_2, write_3, write_4, write_5,
    write_6.
  unfold_prog. run_cout. rewrite fmt_g_6_literal, !fmt_g_3_literal.
  destruct (istream_get i). cbn [snd].
  do 3 f_equal. rewrite <- !app_assoc. reflexivity.
Qed.

(** The first three blocks together. *)
Lemma opening_run (char_signed : bool) (i : istream) :
  (block_pause;; block_raw_output char_signed;; block_formatting)
    (Console i cout_init)
  = Some (tt,
          Console (snd (istream_get (snd (istream_get (snd (istream_get i))))))
                  (OStream opening_text 3 0 "-" left_flag)).
Proof.
  erewrite bind_some by (apply block_pause_any; reflexivity).
  erewrite bind_some by (apply block_raw_output_any; reflexivity).
  cbn [cin cout]. unfold cout_init, emit.
  cbn [written os_precision os_fill os_flags].
  rewrite block_formatting_any. reflexivity.
Qed.

Lemma three_gets (input : list char) :
  let i := snd (istream_get (snd (istream_get (snd (istream_get
                                                      (cin_init input)))))) in
  pending i = drop 3 input
  /\ good i = (3 <=? length input)%nat.
Proof.
  destruct input as [|a [|b [|c l]]]; split; reflexivity.
Qed.

(** X18. The first three blocks of [main] (lines 32-91) do not depend
    on the input: for every input, also an empty one, they are defined
    and write the same text, leave the precision at 3, the fill
    character at [-], the adjustment at [left] and the width at 0, and
    take the first three characters of the input, whatever they are;
    the stream is good afterwards exactly when the input had three
    characters to take. *)
Theorem opening_is_the_same_for_every_input
    (char_signed : bool) (input : list char) :
  exists i,
    run (block_pause;; block_raw_output char_signed;; block_formatting) input
    = Some (tt, Console i (OStream opening_text 3 0 "-" left_flag))
    /\ pending i = drop 3 input
    /\ good i = (3 <=? length input)%nat.
Proof.
  eexists. split; [apply opening_run|]. apply three_gets.
Qed.

(** ** Whole runs of [main] *)

(** The step of lines 99-108 on a good stream. *)
Lemma token_step_run (ws tok rest : list char) (c : char) (w : console) :
  good (cin w) = true -> os_width (cout w) = 0 ->
  pending (cin w) = ws ++ tok ++ c :: rest ->
  all_space ws -> tok <> [] -> no_space tok -> isspace c = true ->
  token_step w
  = Some (tok,
          Console (IStream rest goodbit 1)
                  (emit (chars "type something:" ++ NL :: chars "You typed: "
                           ++ tok ++ [NL])
                        (cout w))).
Proof.
  intros Hg Hw Hp Hws Hne Htok Hc.
  destruct w as [i o]. cbn [cin cout] in *.
  unfold token_step. unfold_prog. emit_chain.
  rewrite (extract_string_token [] ws tok rest c i) by assumption.
  rewrite (istream_get_char c rest) by reflexivity.
  emit_chain. same_text.
Qed.

(** The step of lines 156-165 on a good stream. *)
Lemma atoi_step_run (line rest : list char) (y : Z) (w : console) :
  good (cin w) = true -> os_width (cout w) = 0 ->
  pending (cin w) = line ++ NL :: rest ->
  NL ∉ line -> (length line < 256)%nat ->
  atoi line = Some y -> INT_MIN <= y * 2 <= INT_MAX ->
  atoi_step w
  = Some (y,
          Console (IStream rest goodbit (Z.of_nat (S (length line))))
                  (emit (chars "input a number: doubled: "
                           ++ fmt_int (y * 2) ++ [NL])
                        (cout w))).
Proof.
  intros Hg Hw Hp Hnl Hlen Hy Hr.
  destruct w as [i o]. cbn [cin cout] in *.
  unfold atoi_step. unfold_prog. emit_chain.
  pose proof (getline_line 256 (uninitialized 256) i line rest
                Hg Hp Hnl Hlen eq_refl) as Hgl.
  change (Z.of_nat 256) with 256 in Hgl. rewrite Hgl.
  rewrite c_str_holds_text, atoi_until_nul, Hy.
  unfold int_mul, in_int.
  replace ((INT_MIN <=? y * 2) && (y * 2 <=? INT_MAX)) with true
    by (symmetry; apply andb_true_iff; split; apply Z.leb_le; lia).
  emit_chain. same_text.
Qed.

Lemma cin_get_run (c : char) (rest : list char) (w : console) :
  good (cin w) = true -> pending (cin w) = c :: rest ->
  cin_get w
  = Some (Z.of_nat (nat_of_ascii c),
          Console (IStream rest goodbit 1) (cout w)).
Proof.
  intros Hg Hp. unfold cin_get. rewrite on_cin_run.
  rewrite (istream_get_char c rest) by assumption. reflexivity.
Qed.

Lemma three_chars_run (c1 c2 c3 : char) (l : list char) :
  snd (istream_get (snd (istream_get (snd (istream_get
         (cin_init (c1 :: c2 :: c3 :: l))))))) = IStream l goodbit 1.
Proof. reflexivity. Qed.

(** X19. A whole session.  Let the user type one character at each of
    the three pauses, a token and Enter, a non-empty line of fewer than
    64 characters, another line of fewer than 64 characters, one
    character at the fourth pause, an [int] in decimal and Enter, and a
    line of fewer than 256 characters whose [atoi] value [y] can be
    doubled in [int], followed by one more character.  Then [main] is
    defined, returns 0, consumes exactly that input, leaves the stream
    good, and writes the opening text followed by the echo of the
    token, of the two lines (up to their first null), of the [int], and
    of [y * 2]. *)
Theorem main_runs_a_whole_session
    (char_signed : bool) (c1 c2 c3 c4 c5 : char)
    (tok line1 line2 line3 rest : list char) (z y : Z) :
  tok <> [] -> no_space tok ->
  line1 <> [] -> NL ∉ line1 -> (length line1 < 64)%nat ->
  NL ∉ line2 -> (length line2 < 64)%nat ->
  INT_MIN <= z <= INT_MAX ->
  NL ∉ line3 -> (length line3 < 256)%nat ->
  atoi line3 = Some y -> INT_MIN <= y * 2 <= INT_MAX ->
  run (main char_signed)
      (c1 :: c2 :: c3 :: tok ++ NL :: line1 ++ NL :: line2 ++ NL
          :: c4 :: fmt_int z ++ NL :: line3 ++ NL :: c5 :: rest)
  = Some (0,
          Console (IStream rest goodbit 1)
                  (OStream
                     (opening_text
                        ++ chars "type something:" ++ NL
                        :: chars "You typed: " ++ tok ++ NL
                        :: chars "type something:" ++ NL
                        :: chars "You typed: " ++ until_nul line1 ++ NL
                        :: chars "type something:" ++ NL
                        :: chars "You typed: " ++ until_nul line2 ++ NL
                        :: chars "input a number: you input: "
                        ++ fmt_int z ++ NL
                        :: chars "input a number: doubled: "
                        ++ fmt_int (y * 2) ++ [NL])
                     3 0 "-" left_flag)).
Proof.
  intros Ht1 Ht2 Ha1 Ha2 Ha3 Hb1 Hb2 Hz Hc1 Hc2 Hy Hy2.
  unfold run, main.
  (* the three opening blocks *)
  erewrite bind_some by (apply block_pause_any; reflexivity).
  erewrite bind_some by (apply block_raw_output_any; reflexivity).
  cbn [cin cout]. unfold cout_init, emit at 1 2.
  cbn [written os_precision os_fill os_flags].
  erewrite bind_some by (apply block_formatting_any).
  cbn [cin cout]. rewrite three_chars_run.
  (* lines 95-136 *)
  unfold block_text_input.
  erewrite (bind_some (_ ≫= _)); cycle 1.
  { erewrite bind_some
      by (eapply (token_step_run [] tok _ NL);
          first [reflexivity | assumption | constructor]).
    erewrite bind_some
      by (eapply (get_step_run _ line1 _ NL);
          first [reflexivity | assumption | left; reflexivity]).
    erewrite bind_some
      by (eapply (getline_step_run _ line2);
          first [reflexivity | assumption
                | rewrite holds_text_length; simpl; lia]).
    erewrite bind_some by (apply (cin_get_run c4); reflexivity).
    reflexivity. }
  (* lines 140-170 *)
  unfold block_numeric_input.
  erewrite (bind_some (_ ≫= _)); cycle 1.
  { erewrite bind_some
      by (eapply (typed_int_step_run z [] _ NL);
          first [reflexivity | assumption | constructor]).
    erewrite bind_some
      by (eapply (atoi_step_run line3 _ y);
          first [reflexivity | assumption]).
    erewrite bind_some by (apply (cin_get_run c5); reflexivity).
    reflexivity. }
  unfold mret, prog_ret, emit, opening_text.
  cbn [cin cout written os_precision os_width os_fill os_flags].
  do 3 f_equal. rewrite <- !app_assoc. cbn [app].
  rewrite <- !app_assoc. reflexivity.
Qed.

Lemma main_runs_a_whole_session_witness :
  run (main true)
      ("a"%char :: "b"%char :: "c"%char :: chars "hello" ++ NL
         :: chars "line two" ++ NL :: chars "" ++ NL
         :: "d"%char :: fmt_int 42 ++ NL :: chars "21x" ++ NL
         :: "e"%char :: chars "unread")
  = Some (0,
          Console (IStream (chars "unread") goodbit 1)
                  (OStream
                     (opening_text
                        ++ chars "type something:" ++ NL
                        :: chars "You typed: " ++ chars "hello" ++ NL
                        :: chars "type something:" ++ NL
                        :: chars "You typed: "
                        ++ until_nul (chars "line two") ++ NL
                        :: chars "type something:" ++ NL
                        :: chars "You typed: " ++ until_nul (chars "") ++ NL
                        :: chars "input a number: you input: "
                        ++ fmt_int 42 ++ NL
                        :: chars "input a number: doubled: "
                        ++ fmt_int (21 * 2) ++ [NL])
                     3 0 "-" left_flag)).
Proof.
  apply (main_runs_a_whole_session true "a" "b" "c" "d" "e"
           (chars "hello") (chars "line two") (chars "") (chars "21x")
           (chars "unread") 42 21).
  - discriminate.
  - repeat constructor.
  - discriminate.
  - apply (bool_decide_unpack _). vm_compute. exact I.
  - simpl. lia.
  - apply (bool_decide_unpack _). vm_compute. exact I.
  - simpl. lia.
  - vm_compute. split; discriminate.
  - apply (bool_decide_unpack _). vm_compute. exact I.
  - simpl. lia.
  - reflexivity.
  - vm_compute. split; discriminate.
Defined.

(** ** The input blocks on a stream that has failed *)

Lemma c_str_nul_first (a : array) :
  (0 < length a)%nat -> c_str (<[0%nat := Some NUL]> a) = Some [].
Proof. destruct a; simpl; [lia | reflexivity]. Qed.

Lemma extract_string_not_good (str : list char) (s : istream) :
  good s = false -> extract_string str s = (str, setstate failbit_only s).
Proof.
  intros Hg. unfold extract_string, sentry. rewrite Hg. reflexivity.
Qed.

Lemma not_good_after_failbit (l : list char) (st : iostate) (g : Z) :
  good (IStream l (ios_or st failbit_only) g) = false.
Proof.
  unfold good. cbn [rdstate ios_or failbit failbit_only].
  rewrite orb_true_r, orb_true_r. reflexivity.
Qed.

(** Lines 95-136 on a stream that is not good: every statement is
    executed, nothing is read, three empty texts are echoed. *)
Lemma block_text_input_not_good (w : console) :
  good (cin w) = false -> os_width (cout w) = 0 ->
  exists st,
    block_text_input w
    = Some (tt,
            Console (IStream (pending (cin w)) (ios_or st failbit_only) 0)
                    (emit (chars "type something:" ++ NL
                             :: chars "You typed: " ++ NL
                             :: chars "type something:" ++ NL
                             :: chars "You typed: " ++ NL
                             :: chars "type something:" ++ NL
                             :: chars "You typed: " ++ [NL])
                          (cout w))).
Proof.
  intros Hg Hw. destruct w as [i o]. cbn [cin cout] in *.
  unfold block_text_input, token_step, get_step, getline_step.
  unfold_prog. emit_chain.
  rewrite (extract_string_not_good [] i Hg).
  rewrite istream_get_not_good by apply not_good_after_failbit.
  emit_chain. cbn [pending rdstate setstate].
  assert (Hget : forall s, good s = false ->
            istream_get_buf (uninitialized 64) 64 s
            = Some (<[0%nat := Some NUL]> (uninitialized 64),
                    IStream (pending s) (ios_or (rdstate s) failbit_only) 0)).
  { intros s Hs. unfold istream_get_buf, sentry. rewrite Hs. reflexivity. }
  rewrite Hget by apply not_good_after_failbit.
  rewrite istream_get_not_good by apply not_good_after_failbit.
  rewrite c_str_nul_first by (simpl; lia).
  emit_chain. cbn [pending rdstate].
  rewrite istream_getline_not_good
    by (try apply not_good_after_failbit; simpl; lia).
  rewrite c_str_nul_first by (simpl; lia).
  emit_chain.
  rewrite istream_get_not_good by apply not_good_after_failbit.
  cbn [pending rdstate]. eexists. emit_chain.
  do 3 f_equal; try reflexivity; same_text.
Qed.

(** X4. Once [std::cin] is not good when the block of lines 95-136
    starts, none of its seven input statements reads a character: the
    block still runs to its end, all pending input is still there, the
    stream is still not good, with [failbit] set, and each of the three
    echoes is [You typed: ] followed by nothing, since the string is
    still empty and the arrays hold only the null stored at index 0. *)
Theorem text_input_block_reads_nothing_once_failed (w : console) :
  good (cin w) = false -> os_width (cout w) = 0 ->
  exists w',
    block_text_input w = Some (tt, w')
    /\ pending (cin w') = pending (cin w)
    /\ good (cin w') = false
    /\ failbit (rdstate (cin w')) = true
    /\ cout w'
       = emit (chars "type something:" ++ NL
                 :: chars "You typed: " ++ NL
                 :: chars "type something:" ++ NL
                 :: chars "You typed: " ++ NL
                 :: chars "type something:" ++ NL
                 :: chars "You typed: " ++ [NL])
              (cout w).
Proof.
  intros Hg Hw.
  destruct (block_text_input_not_good w Hg Hw) as [st E].
  eexists. split; [exact E|]. cbn [cin cout pending rdstate].
  split; [reflexivity|].
  split; [apply not_good_after_failbit|].
  split; [|reflexivity].
  cbn [ios_or failbit failbit_only]. apply orb_true_r.
Qed.

Lemma text_input_block_reads_nothing_once_failed_witness :
  exists w',
    block_text_input
      (Console (IStream (chars "left over" ++ [NL]) failbit_only 0) cout_init)
    = Some (tt, w')
    /\ pending (cin w')
       = pending (cin (Console (IStream (chars "left over" ++ [NL])
                                        failbit_only 0)
                               cout_init))
    /\ good (cin w') = false
    /\ failbit (rdstate (cin w')) = true
    /\ cout w'
       = emit (chars "type something:" ++ NL
                 :: chars "You typed: " ++ NL
                 :: chars "type something:" ++ NL
                 :: chars "You typed: " ++ NL
                 :: chars "type something:" ++ NL
                 :: chars "You typed: " ++ [NL])
              (cout (Console (IStream (chars "left over" ++ [NL])
                                      failbit_only 0)
                             cout_init)).
Proof.
  apply (text_input_block_reads_nothing_once_failed
           (Console (IStream (chars "left over" ++ [NL]) failbit_only 0)
                    cout_init)).
  - reflexivity.
  - reflexivity.
Defined.

(** ** Runs that end in undefined behaviour *)

(** Lines 140-170 on a stream that is not good. *)
Lemma block_numeric_input_not_good (w : console) :
  good (cin w) = false -> block_numeric_input w = None.
Proof.
  intros Hg. unfold block_numeric_input.
  apply bind_none, typed_int_step_not_good, Hg.
Qed.

(** X20. When the input ends before the three pauses are served (it has
    fewer than three characters), the stream fails at a pause, every
    later read is skipped, and the program goes on to print the [int]
    [x] that nothing was stored in: the behaviour of [main] is
    undefined. *)
Theorem main_is_undefined_on_short_input
    (char_signed : bool) (input : list char) :
  (length input < 3)%nat ->
  run (main char_signed) input = None.
Proof.
  intros Hlen. unfold run, main.
  erewrite bind_some by (apply block_pause_any; reflexivity).
  erewrite bind_some by (apply block_raw_output_any; reflexivity).
  cbn [cin cout]. unfold cout_init, emit at 1 2.
  cbn [written os_precision os_fill os_flags].
  erewrite bind_some by (apply block_formatting_any).
  pose proof (three_gets input) as [Hp Hg]. cbn zeta in Hp, Hg.
  replace (3 <=? length input)%nat with false in Hg
    by (symmetry; apply Nat.leb_gt; exact Hlen).
  set (i := snd (istream_get _)) in *.
  destruct (block_text_input_not_good
              (Console i (OStream
                 ([] ++ chars "Press enter to continue."
                     ++ ascii_of_nat 157 :: NL :: chars "word"
                     ++ chars "9.99999" ++ NL
                     :: chars "10" ++ NL
                     :: chars "        10" ++ NL
                     :: chars "--------10" ++ NL
                     :: chars "10--------" ++ NL
                     :: chars "10--------" ++ [NL])
                 3 0 "-" left_flag)) Hg eq_refl) as [st Ht].
  erewrite bind_some by exact Ht.
  apply bind_none, block_numeric_input_not_good, not_good_after_failbit.
Qed.

Lemma main_is_undefined_on_short_input_witness :
  run (main true) [NL; NL] = None.
Proof.
  apply (main_is_undefined_on_short_input true [NL; NL]). simpl. lia.
Defined.

(** X21. An empty line at the second [type something:] prompt (line
    120) is enough to derail the program: [get(words, 64)] stores no
    character and sets [failbit], no later read takes anything, and
    [main] prints the [int] [x] without having stored anything in it,
    which is undefined behaviour, whatever input follows. *)
Theorem main_is_undefined_after_an_empty_line
    (char_signed : bool) (c1 c2 c3 : char) (tok rest : list char) :
  tok <> [] -> no_space tok ->
  run (main char_signed) (c1 :: c2 :: c3 :: tok ++ NL :: NL :: rest) = None.
Proof.
  intros Ht1 Ht2. unfold run, main.
  erewrite bind_some by (apply block_pause_any; reflexivity).
  erewrite bind_some by (apply block_raw_output_any; reflexivity).
  cbn [cin cout]. unfold cout_init, emit at 1 2.
  cbn [written os_precision os_fill os_flags].
  erewrite bind_some by (apply block_formatting_any).
  cbn [cin cout]. rewrite three_chars_run.
  unfold block_text_input.
  erewrite (bind_some (_ ≫= _)); cycle 1.
  { erewrite bind_some
      by (eapply (token_step_run [] tok _ NL);
          first [reflexivity | assumption | constructor]).
    erewrite bind_some
      by (eapply get_step_empty_run; reflexivity).
    unfold getline_step. unfold_prog. emit_chain.
    rewrite istream_getline_not_good
      by (try reflexivity; try rewrite holds_text_length; simpl; lia).
    rewrite c_str_nul_first by (rewrite holds_text_length; simpl; lia).
    rewrite istream_get_not_good by reflexivity.
    reflexivity. }
  apply bind_none, block_numeric_input_not_good. reflexivity.
Qed.

Lemma main_is_undefined_after_an_empty_line_witness :
  run (main true)
      (NL :: NL :: NL :: chars "hello" ++ NL :: NL :: chars "42")
  = None.
Proof.
  apply (main_is_undefined_after_an_empty_line true NL NL NL
           (chars "hello") (chars "42")).
  - discriminate.
  - repeat constructor.
Defined.

(** ** What holds of every run of [main] that is defined *)

Lemma emit_nil (os : ostream) : os_width os = 0 -> emit [] os = os.
Proof.
  intros H. destruct os as [wr p w f fl]. cbn in H. subst w.
  unfold emit. cbn. rewrite app_nil_r. reflexivity.
Qed.

Lemma appends_ret {A} (x : A) : appends_only (mret x).
Proof.
  intros w r w' Hw H. inversion H; subst. exists [].
  symmetry. apply emit_nil. exact Hw.
Qed.

Lemma appends_bind {A B} (m : prog A) (k : A -> prog B) :
  appends_only m -> (forall x, appends_only (k x)) ->
  appends_only (m ≫= k).
Proof.
  intros Hm Hk w r w' Hw H. unfold mbind, prog_bind in H.
  destruct (m w) as [[x w1]|] eqn:E; [|discriminate H].
  destruct (Hm w x w1 Hw E) as [t1 E1].
  destruct (Hk x w1 r w') as [t2 E2]; [rewrite E1; reflexivity | exact H |].
  exists (t1 ++ t2). rewrite E2, E1. apply emit_emit.
Qed.

Lemma appends_on_cin {A} (f : istream -> A * istream) :
  appends_only (on_cin f).
Proof.
  intros w r w' Hw H. rewrite on_cin_run in H. inversion H; subst.
  exists []. symmetry. apply emit_nil. exact Hw.
Qed.

Lemma appends_lift_option {A} (o : option A) : appends_only (lift_option o).
Proof.
  intros w r w' Hw H. unfold lift_option in H.
  destruct o; [|discriminate H]. inversion H; subst.
  exists []. symmetry. apply emit_nil. exact Hw.
Qed.

Lemma appends_cin_get_buf (a : array) (n : Z) :
  appends_only (cin_get_buf a n).
Proof.
  intros w r w' Hw H. unfold cin_get_buf in H.
  destruct (istream_get_buf a n (cin w)) as [[a' i]|]; [|discriminate H].
  inversion H; subst. exists []. symmetry. apply emit_nil. exact Hw.
Qed.

Lemma appends_cin_getline (a : array) (n : Z) :
  appends_only (cin_getline a n).
Proof.
  intros w r w' Hw H. unfold cin_getline in H.
  destruct (istream_getline a n (cin w)) as [[a' i]|]; [|discriminate H].
  inversion H; subst. exists []. symmetry. apply emit_nil. exact Hw.
Qed.

Lemma appends_insert (numeric : bool) (text : list char) :
  appends_only (on_cout (insert_formatted numeric text)).
Proof.
  intros w r w' Hw H. unfold on_cout in H. inversion H; subst.
  exists text. cbn [cout]. apply insert_formatted_emit. exact Hw.
Qed.

Lemma appends_put (c : char) : appends_only (on_cout (ostream_put c)).
Proof.
  intros w r w' Hw H. unfold on_cout in H. inversion H; subst.
  exists [c]. cbn [cout]. apply ostream_put_emit. exact Hw.
Qed.

(** Each statement of lines 95-170 only appends. *)
Ltac appends :=
  unfold cin_string, cin_get, cin_int, cout_cstr, cout_string, cout_int,
    cout_endl, insert_string, insert_int;
  repeat first
    [ apply appends_bind; [|intro]
    | apply appends_ret | apply appends_on_cin | apply appends_lift_option
    | apply appends_cin_get_buf | apply appends_cin_getline
    | apply appends_insert | apply appends_put ].

Lemma appends_block_text_input : appends_only block_text_input.
Proof.
  unfold block_text_input, token_step, get_step, getline_step. appends.
Qed.

Lemma appends_block_numeric_input : appends_only block_numeric_input.
Proof.
  unfold block_numeric_input, typed_int_step, atoi_step. appends.
Qed.

(** X22. On every input on which [main] is defined it returns 0, its
    output begins with the opening text, and nothing after the
    formatting block is padded or changes the formatting state: the
    fill character [-], the [left] adjustment and the precision 3 that
    the block left behind are still set when the program ends, and the
    width is 0. *)
Theorem main_keeps_the_formatting_state
    (char_signed : bool) (input : list char) (r : Z) (w : console) :
  run (main char_signed) input = Some (r, w) ->
  r = 0
  /\ exists tail,
       cout w = OStream (opening_text ++ tail) 3 0 "-" left_flag.
Proof.
  unfold run, main. intros H.
  erewrite bind_some in H by (apply block_pause_any; reflexivity).
  erewrite bind_some in H by (apply block_raw_output_any; reflexivity).
  cbn [cin cout] in H. unfold cout_init, emit at 1 2 in H.
  cbn [written os_precision os_fill os_flags] in H.
  erewrite bind_some in H by (apply block_formatting_any).
  unfold mbind, prog_bind in H.
  destruct (block_text_input _) as [[[] w1]|] eqn:E1; [|discriminate H].
  destruct (block_numeric_input w1) as [[[] w2]|] eqn:E2; [|discriminate H].
  inversion H; subst. split; [reflexivity|].
  apply appends_block_text_input in E1 as [t1 Ht1]; [|reflexivity].
  apply appends_block_numeric_input in E2 as [t2 Ht2];
    [|rewrite Ht1; reflexivity].
  exists (t1 ++ t2). rewrite Ht2, Ht1, emit_emit.
  unfold emit. cbn [written os_precision os_fill os_flags cout].
  f_equal. all: unfold opening_text; rewrite <- ?app_assoc; reflexivity.
Qed.

Lemma main_keeps_the_formatting_state_witness :
  0 = 0
  /\ exists tail,
       cout (Console (IStream [] goodbit 1)
               (OStream (opening_text
                           ++ chars "type something:" ++ NL
                           :: chars "You typed: a" ++ NL
                           :: chars "type something:" ++ NL
                           :: chars "You typed: b" ++ NL
                           :: chars "type something:" ++ NL
                           :: chars "You typed: " ++ NL
                           :: chars "input a number: you input: 1" ++ NL
                           :: chars "input a number: doubled: 4" ++ [NL])
                        3 0 "-" left_flag))
       = OStream (opening_text ++ tail) 3 0 "-" left_flag.
Proof.
  apply (main_keeps_the_formatting_state true
           (NL :: NL :: NL :: chars "a" ++ NL :: chars "b" ++ NL :: NL
               :: NL :: chars "1" ++ NL :: chars "2" ++ NL :: [NL])).
  vm_compute. reflexivity.
Defined.

(** ** The text of [%g] *)

Lemma strip_zeros_last (ds : list char) :
  last (strip_zeros ds) <> Some "0"%char.
Proof.
  induction ds as [|c ds IH]; [discriminate|].
  cbn [strip_zeros]. destruct (strip_zeros ds) as [|s l] eqn:E.
  - destruct (Ascii.eqb c "0") eqn:Ec; [discriminate|].
    simpl. intros H. inversion H; subst. discriminate Ec.
  - rewrite last_cons_cons. exact IH.
Qed.

(** X23. The conversion [%g] never shows a trailing zero behind the
    decimal point, for any precision and any value: the digits behind
    the point end in a digit other than 0, or there are none and then
    no point is written. *)
Theorem g_fraction_has_no_trailing_zero (p : Z) (v : fraction) :
  let u := style_g p v in
  last (frac_part u) <> Some "0"%char
  /\ (frac_part u = [] ->
      render u = int_part u ++ match exp_part u with
                               | Some x => render_exp x
                               | None => []
                               end).
Proof.
  cbn zeta. split.
  - unfold style_g. cbn [frac_part]. apply strip_zeros_last.
  - intros E. unfold render. rewrite E. reflexivity.
Qed.

(** ** The end of the input *)

Lemma getline_loop_to_end (line : list char) :
  forall (room i : nat) (a : array),
    Forall (fun c => Ascii.eqb c NL = false) line ->
    (length line <= room)%nat ->
    (i + length line <= length a)%nat ->
    getline_loop NL room i a line
    = Some (stored_at a i line, [], (i + length line)%nat,
            (i + length line)%nat, eofbit_only).
Proof.
  induction line as [|c line IH]; intros room i a Hnl Hroom Hlen.
  - simpl. rewrite stored_at_nil, Nat.add_0_r. reflexivity.
  - inversion Hnl as [|? ? Hc Hrest]; subst.
    simpl in Hroom, Hlen.
    destruct room as [|room]; [lia|].
    simpl. rewrite Hc, store_in_range by lia.
    rewrite IH; [| assumption | lia | rewrite length_insert; lia].
    rewrite stored_at_cons by lia.
    replace (i + S (length line))%nat with (S i + length line)%nat by lia.
    reflexivity.
Qed.

(** X24. A last line that the input ends without a newline is still
    read by [getline]: on a good stream the characters up to the end of
    the input are stored, followed by the null, and [eofbit] is set, so
    that the stream is not good afterwards; [failbit] is set as well
    only if there was no character at all. *)
Theorem getline_reads_an_unterminated_last_line
    (n : nat) (a : array) (s : istream) (line : list char) :
  good s = true -> pending s = line -> NL ∉ line ->
  (length line < n)%nat -> length a = n ->
  istream_getline a (Z.of_nat n) s
  = Some (holds_text a line,
          IStream []
                  (match line with
                   | [] => IoState true true false
                   | _ => eofbit_only
                   end)
                  (Z.of_nat (length line))).
Proof.
  intros Hg Hp Hnl Hlen Ha.
  unfold istream_getline, sentry. rewrite Hg, Hp, (good_goodbit s Hg).
  replace (Z.to_nat (Z.of_nat n - 1)) with (n - 1)%nat by lia.
  rewrite getline_loop_to_end
    by (try apply not_elem_NL; simpl; auto; lia).
  replace (0 <? Z.of_nat n) with true by (symmetry; apply Z.ltb_lt; lia).
  simpl Nat.add. cbn iota beta.
  rewrite store_nul_after by lia.
  destruct line; reflexivity.
Qed.

Lemma getline_reads_an_unterminated_last_line_witness :
  istream_getline (uninitialized 256) (Z.of_nat 256) (cin_init (chars "42"))
  = Some (holds_text (uninitialized 256) (chars "42"),
          IStream [] eofbit_only (Z.of_nat (length (chars "42")))).
Proof.
  apply (getline_reads_an_unterminated_last_line 256 (uninitialized 256)
           (cin_init (chars "42")) (chars "42")).
  - reflexivity.
  - reflexivity.
  - apply (bool_decide_unpack _). vm_compute. exact I.
  - simpl. lia.
  - reflexivity.
Defined.

Lemma take_int_field_fmt_int_end (z : Z) :
  exists sign d ds,
    take_int_field (fmt_int z) = (sign, d :: ds, [])
    /\ signed_value sign (d :: ds) = z.
Proof.
  unfold fmt_int. destruct (z <? 0) eqn:Ez.
  - apply Z.ltb_lt in Ez.
    pose proof (decimal_length (- z)) as Hl.
    pose proof (decimal_digits (- z) ltac:(lia)) as Hd.
    pose proof (decimal_value (- z) ltac:(lia)) as Hv.
    destruct (decimal (- z)) as [|d ds] eqn:E; [simpl in Hl; lia|].
    exists (Some "-"%char), d, ds.
    unfold take_int_field. change (is_sign "-") with true. cbn iota.
    rewrite take_digits_all by assumption.
    split; [reflexivity|].
    unfold signed_value. change (Ascii.eqb "-" "-") with true. cbn iota. lia.
  - apply Z.ltb_ge in Ez.
    pose proof (decimal_length z) as Hl.
    pose proof (decimal_digits z Ez) as Hd.
    pose proof (decimal_value z Ez) as Hv.
    destruct (decimal z) as [|d ds] eqn:E; [simpl in Hl; lia|].
    exists None, d, ds.
    assert (Hd0 : isdigit d = true).
    { simpl in Hd. apply andb_true_iff in Hd as [H _]. exact H. }
    unfold take_int_field. rewrite (isdigit_not_sign d Hd0).
    rewrite take_digits_all by assumption.
    split; [reflexivity | exact Hv].
Qed.

(** X25. A number that is the very last thing in the input is read, but
    the stream does not stay good: [cin >> x] stores the [int] and,
    having run into the end of the input while looking for more digits,
    sets [eofbit].  The [get()] that follows in [main] then fails and
    every later read is skipped. *)
Theorem int_at_end_of_input_sets_eofbit
    (z : Z) (ws : list char) (x : option Z) (s : istream) :
  INT_MIN <= z <= INT_MAX ->
  all_space ws -> good s = true ->
  pending s = ws ++ fmt_int z ->
  extract_int x s = (Some z, IStream [] eofbit_only (gcount s))
  /\ istream_get (IStream [] eofbit_only (gcount s))
     = (EOF, IStream [] (IoState true true false) 0).
Proof.
  intros Hz Hws Hg Hp. split; [|reflexivity].
  destruct (take_int_field_fmt_int_end z) as (sign & d & ds & Ef & Ev).
  unfold extract_int, sentry.
  rewrite Hg, Hp, (good_goodbit s Hg), skip_ws_all_space by exact Hws.
  assert (Hs : skip_ws (fmt_int z) = fmt_int z).
  { destruct (take_int_field_fmt_int z "x" [] eq_refl)
      as (_ & _ & _ & _ & _ & Hsp & Hne).
    destruct (fmt_int z) as [|f l]; [congruence|].
    apply skip_ws_stops. exact Hsp. }
  rewrite Hs.
  destruct (fmt_int z) as [|f l] eqn:E.
  { destruct (take_int_field_fmt_int z "x" [] eq_refl)
      as (_ & _ & _ & _ & _ & _ & Hne). congruence. }
  cbn [pending rdstate gcount]. rewrite Ef, Ev.
  replace (z <? INT_MIN) with false by (symmetry; apply Z.ltb_ge; lia).
  replace (INT_MAX <? z) with false by (symmetry; apply Z.ltb_ge; lia).
  reflexivity.
Qed.

Lemma int_at_end_of_input_sets_eofbit_witness :
  extract_int None (cin_init (chars " " ++ fmt_int 42))
    = (Some 42, IStream [] eofbit_only
                        (gcount (cin_init (chars " " ++ fmt_int 42))))
  /\ istream_get (IStream [] eofbit_only
                          (gcount (cin_init (chars " " ++ fmt_int 42))))
     = (EOF, IStream [] (IoState true true false) 0).
Proof.
  apply (int_at_end_of_input_sets_eofbit 42 (chars " ") None
           (cin_init (chars " " ++ fmt_int 42))).
  - vm_compute. split; discriminate.
  - repeat constructor.
  - reflexivity.
  - reflexivity.
Defined.
